(** * clarity-js: node registry, reconstructor, element capture and counters

    A shallow embedding of the capture side ([src/layout/dom.ts],
    [plugins/layout/states/element.ts], the counter tracker) and of the replay
    side ([decode/render.ts]) of clarity-js, with the properties the
    specification states about them.

    Conventions of the embedding.
    - A JavaScript object used as a dictionary and a sparse array indexed by
      node id are finite maps ([gmap]); [k in o] is [is_Some (o !! k)].
    - A nullable number is an [option]; [null] is [None].
    - Module-level [let] variables of a source file are the fields of one
      state record that every operation takes and returns.
    - An exception is the [Throw] constructor of [result]; [try]/[catch] is
      written out as a match on it. *)

From Stdlib Require Import ZArith QArith Qround Lia Ascii.
From Stdlib Require String.
From stdpp Require Import base option list strings gmap fin_maps relations pretty.

Set Default Proof Using "Type".
Open Scope Z_scope.

(** ** Exceptions

    The outcome of a call that may throw. [TypeError] is what reading a
    property of [undefined] raises, [RangeError] an exhausted call stack,
    [DOMException] carries the name of the DOM error. *)

Inductive exn :=
  | TypeError
  | RangeError
  | DOMException (name : string).

Inductive result (A : Type) :=
  | Ok (a : A)
  | Throw (e : exn).
Arguments Ok {A} a.
Arguments Throw {A} e.

#[global] Instance result_ret : MRet result := λ A, Ok.
#[global] Instance result_bind : MBind result :=
  λ A B f m, match m with Ok a => f a | Throw e => Throw e end.

(** [o.p] on a value that may be [undefined]. *)
Definition defined {A} (o : option A) : result A :=
  match o with Some a => Ok a | None => Throw TypeError end.

(** ** Strings and arrays of the JavaScript runtime *)

Definition upper_ascii (c : ascii) : ascii :=
  let n := nat_of_ascii c in
  if ((97 <=? n) && (n <=? 122))%nat then ascii_of_nat (n - 32) else c.

Definition lower_ascii (c : ascii) : ascii :=
  let n := nat_of_ascii c in
  if ((65 <=? n) && (n <=? 90))%nat then ascii_of_nat (n + 32) else c.

Fixpoint string_map (f : ascii → ascii) (s : string) : string :=
  match s with
  | EmptyString => EmptyString
  | String c s' => String (f c) (string_map f s')
  end.

(** [toUpperCase] and [toLowerCase] on the ASCII letters. *)
Definition toUpperCase : string → string := string_map upper_ascii.
Definition toLowerCase : string → string := string_map lower_ascii.

(** [s.indexOf(sub) >= 0]. *)
Definition contains (s sub : string) : bool :=
  match String.index 0 sub s with Some _ => true | None => false end.

(** [s.indexOf(sub) === 0]. *)
Definition starts_with (s sub : string) : bool := String.prefix sub s.

Fixpoint split_go (sep : ascii) (cur : string) (s : string) : list string :=
  match s with
  | EmptyString => [String.rev cur]
  | String c s' =>
      if Ascii.eqb c sep then String.rev cur :: split_go sep EmptyString s'
      else split_go sep (String c cur) s'
  end.

(** [s.split(sep)] for a one-character separator. *)
Definition split (sep : ascii) (s : string) : list string := split_go sep EmptyString s.

Fixpoint ltrim (s : string) : string :=
  match s with
  | EmptyString => EmptyString
  | String c s' => if Ascii.is_space c then ltrim s' else s
  end.

Definition trim (s : string) : string := String.rev (ltrim (String.rev (ltrim s))).

(** [l.indexOf(x)]: [None] for -1. *)
Definition indexOf `{EqDecision A} (x : A) (l : list A) : option nat :=
  fst <$> list_find (λ y, y = x) l.

(** [l.splice(start, 0, x)]: a start past the end is clamped to the length. *)
Definition splice_insert {A} (start : nat) (x : A) (l : list A) : list A :=
  take start l ++ x :: drop start l.

(** [l.splice(i, 1)]. *)
Definition splice_remove {A} (i : nat) (l : list A) : list A :=
  take i l ++ drop (S i) l.

(** [k in o] for an object used as a dictionary. *)
Definition has_key `{Countable K} {V} (k : K) (o : gmap K V) : bool :=
  bool_decide (is_Some (o !! k)).

(** A [for ... of] loop whose body may throw. *)
Fixpoint for_each {A S} (body : A → S → result S) (l : list A) (s : S) : result S :=
  match l with
  | [] => Ok s
  | a :: rest => s' ← body a s; for_each body rest s'
  end.

(** ** Counters ([increment], [summarize]) *)

Module Metrics.

(** The [Counter] enum is numeric; its members are declared in [./enums]. *)
Definition Counter := nat.

Record CounterValue := { updated : bool; counter : Z }.

Record State := {
  tracker : gmap nat CounterValue;
  summary : gmap nat Z
}.

Definition set_updated (b : bool) (v : CounterValue) : CounterValue :=
  {| updated := b; counter := counter v |}.

Definition add_counter (n : Z) (v : CounterValue) : CounterValue :=
  {| updated := updated v; counter := counter v + n |}.

(** [increment(key, counter = 1)]: the optional argument is [None] when the
    caller leaves it out. Counters are integers, far below 2^53, so the
    addition on doubles is the addition on [Z]. *)
Definition increment (key : Counter) (arg : option Z) (st : State) : State :=
  let n := default 1 arg in
  let t0 := tracker st in
  let t1 := if decide (is_Some (t0 !! key)) then t0
            else <[key := {| updated := true; counter := n |}]> t0 in
  let t2 := alter (set_updated true) key t1 in
  let t3 := alter (add_counter n) key t2 in
  {| tracker := t3; summary := summary st |}.

(** One round of the [for (key in tracker)] loop of [summarize]. *)
Definition summarize_key (key : Counter) (v : CounterValue) (st : State) : State :=
  if updated v
  then {| tracker := <[key := set_updated false v]> (tracker st);
          summary := <[key := counter v]> (summary st) |}
  else st.

Definition summarize (st : State) : gmap nat Z * State :=
  let st' := foldr (λ kv s, summarize_key kv.1 kv.2 s) st (map_to_list (tracker st)) in
  (summary st', st').

Definition read (key : Counter) (st : State) : option Z :=
  counter <$> tracker st !! key.

End Metrics.

(** ** Element capture ([createElementLayoutState]) *)

Module Element.

(** [Math.round] and [Math.floor] on the rationals. *)
Definition round (q : Q) : Z := Qfloor (q + (1 # 2)).
Definition floor (q : Q) : Z := Qfloor q.

(** The [Styles] enum. *)
Definition Styles_Color : string := "color".
Definition Styles_BackgroundColor : string := "backgroundColor".
Definition Styles_BackgroundImage : string := "backgroundImage".
Definition Styles_OverflowX : string := "overflowX".
Definition Styles_OverflowY : string := "overflowY".
Definition Styles_Visibility : string := "visibility".

Definition DefaultAttributeMaskList : list string :=
  ["value"; "placeholder"; "alt"; "title"].

(** What [window.getComputedStyle(element)] holds for the six properties
    that [getStyles] reads. *)
Record ComputedStyle := {
  cs_color : string;
  cs_backgroundColor : string;
  cs_backgroundImage : string;
  cs_overflowX : string;
  cs_overflowY : string;
  cs_visibility : string
}.

Record ClientRect := { left : Q; top : Q; rect_width : Q; rect_height : Q }.

(** The parts of [window] and [document.documentElement] read by
    [getLayout]; [hasPageOffset] is ["pageXOffset" in window]. *)
Record Window := {
  hasPageOffset : bool;
  pageXOffset : Q;
  pageYOffset : Q;
  doc_scrollLeft : Q;
  doc_scrollTop : Q
}.

(** The live element as the capture reads it. [boundingRect] is the result
    of the [getBoundingClientRect] helper of [@src/utils] ([None] for
    [null]); [value] is [Some] when ["value" in element] and the property is
    a string. *)
Record LiveElement := {
  tagName : string;
  el_attributes : list (string * string);
  boundingRect : option ClientRect;
  computed : ComputedStyle;
  scrollLeft : Q;
  scrollTop : Q;
  el_value : option string
}.

Record INodeInfo := { unmask : bool }.

Record ILayoutRectangle := {
  x : Q;
  y : Q;
  width : Z;
  height : Z;
  scrollX : option Z;
  scrollY : option Z
}.

Record IElementLayoutState := {
  tag : string;
  attributes : option (gmap string string);
  layout : option ILayoutRectangle;
  style : option (gmap string string);
  value : option string
}.

(** The module variables [defaultColor] and [attributeMaskList]. *)
Record State := {
  defaultColor : string;
  attributeMaskList : list string
}.

Definition isin (variable : string) (values : list string) : bool :=
  bool_decide (variable ∈ values).

Section Capture.

(** Declared outside this file: the members of the [Tags] enum and
    [createGenericLayoutState] of [./generic], the irreversible [mask] of
    [@src/utils] and the operator's [config.sensitiveAttributes]. *)
Variables Tags_Script Tags_Meta Tags_Ignore : string.
Variable createGenericLayoutState : LiveElement → string → IElementLayoutState.
Variable mask : string → string.
Variable sensitiveAttributes : list string.

Definition resetElementStateProvider (st : State) : State :=
  {| attributeMaskList := DefaultAttributeMaskList ++ sensitiveAttributes;
     defaultColor := "" |}.

(** [element.attributes[attrName].value] for a name that the map answers
    with an attribute of that name: the value of the first one. (The map
    answers an array index with the attribute at that index, the name of one
    of its own members with the member, and, on an HTML element, a name that
    holds a capital with nothing.) *)
Definition attr_value (element : LiveElement) (attrName : string) : string :=
  default "" ((λ r : nat * (string * string), r.2.2)
                <$> list_find (λ kv, kv.1 = attrName) (el_attributes element)).

Definition getAttributeValue (st : State) (element : LiveElement) (info : INodeInfo)
    (attrName : string) : string :=
  let sensitiveAttribute := isin attrName (attributeMaskList st) in
  let maskAttribute := sensitiveAttribute && negb (unmask info) in
  let attrValue := attr_value element attrName in
  if maskAttribute then mask attrValue else attrValue.

Definition getElementValue (valueStr : string) (info : INodeInfo) : string :=
  if unmask info then valueStr else mask valueStr.

Definition getLayout (w : Window) (element : LiveElement) : option ILayoutRectangle :=
  match boundingRect element with
  | None => None
  | Some rect =>
      Some {| x := inject_Z (floor (left rect))
                   + (if hasPageOffset w then pageXOffset w else doc_scrollLeft w);
              y := inject_Z (floor (top rect))
                   + (if hasPageOffset w then pageYOffset w else doc_scrollTop w);
              width := round (rect_width rect);
              height := round (rect_height rect);
              scrollX := None;
              scrollY := None |}
  end.

Definition getAttributes (st : State) (element : LiveElement) (info : INodeInfo)
  : gmap string string :=
  foldl (λ stateAttributes kv,
           <[kv.1 := getAttributeValue st element info kv.1]> stateAttributes)
        ∅ (el_attributes element).

Definition set_if (b : bool) (k v : string) (m : gmap string string) : gmap string string :=
  if b then <[k := v]> m else m.

Definition getStyles (st : State) (element : LiveElement)
  : option (gmap string string) * State :=
  let c := computed element in
  let dc := if (String.length (defaultColor st) =? 0)%nat then cs_color c else defaultColor st in
  let s0 : gmap string string := ∅ in
  let s1 := set_if (isin (cs_visibility c) ["hidden"; "collapse"])
                   Styles_Visibility (cs_visibility c) s0 in
  let s2 := set_if (isin (cs_overflowX c) ["auto"; "scroll"; "hidden"])
                   Styles_OverflowX (cs_overflowX c) s1 in
  let s3 := set_if (isin (cs_overflowY c) ["auto"; "scroll"; "hidden"])
                   Styles_OverflowY (cs_overflowY c) s2 in
  let s4 := set_if (negb (String.eqb (cs_backgroundImage c) "none"))
                   Styles_BackgroundImage (cs_backgroundImage c) s3 in
  let s5 := set_if (negb (isin (cs_backgroundColor c) ["rgba(0, 0, 0, 0)"; "transparent"]))
                   Styles_BackgroundColor (cs_backgroundColor c) s4 in
  let s6 := set_if (negb (String.eqb (cs_color c) dc))
                   Styles_Color (cs_color c) s5 in
  (if (0 <? size s6)%nat then Some s6 else None,
   {| defaultColor := dc; attributeMaskList := attributeMaskList st |}).

Definition createElementLayoutState (w : Window) (st : State) (element : LiveElement)
    (info : INodeInfo) : IElementLayoutState * State :=
  let tagName := tagName element in
  let elementState := createGenericLayoutState element tagName in
  if String.eqb tagName Tags_Script || String.eqb tagName Tags_Meta then
    ({| tag := Tags_Ignore; attributes := attributes elementState;
        layout := layout elementState; style := style elementState;
        value := value elementState |}, st)
  else
    let attrs := getAttributes st element info in
    let lay := getLayout w element in
    let '(sty, st1) :=
      match lay with
      | Some _ => getStyles st element
      | None => (None, st)
      end in
    (* Check if scroll is possible *)
    let lay' :=
      match lay, sty with
      | Some l, Some s =>
          if has_key Styles_OverflowX s || has_key Styles_OverflowX s
          then Some {| x := x l; y := y l; width := width l; height := height l;
                       scrollX := Some (round (scrollLeft element));
                       scrollY := Some (round (scrollTop element)) |}
          else lay
      | _, _ => lay
      end in
    let val :=
      match el_value element with
      | Some v => Some (getElementValue v info)
      | None => value elementState
      end in
    ({| tag := tag elementState; attributes := Some attrs; layout := lay';
        style := sty; value := val |}, st1).

End Capture.

(** An element whose only scrolling-capable overflow is vertical. *)
Definition vertical_scroller : LiveElement :=
  {| tagName := "DIV";
     el_attributes := [("class", "list")];
     boundingRect := Some {| left := 10.5; top := 20; rect_width := 300; rect_height := 200 |}%Q;
     computed := {| cs_color := "rgb(0, 0, 0)";
                    cs_backgroundColor := "transparent";
                    cs_backgroundImage := "none";
                    cs_overflowX := "visible";
                    cs_overflowY := "scroll";
                    cs_visibility := "visible" |};
     scrollLeft := 0%Q;
     scrollTop := 120%Q;
     el_value := None |}.

Definition plain_window : Window :=
  {| hasPageOffset := true; pageXOffset := 0; pageYOffset := 0;
     doc_scrollLeft := 0; doc_scrollTop := 0 |}%Q.

Definition fresh_state : State :=
  {| defaultColor := ""; attributeMaskList := DefaultAttributeMaskList |}.

(** A generic state that holds the tag and nothing else yet. *)
Definition generic_state (element : LiveElement) (tagName : string) : IElementLayoutState :=
  {| tag := tagName; attributes := None; layout := None; style := None; value := None |}.

Definition capture (element : LiveElement) : IElementLayoutState :=
  (createElementLayoutState "SCRIPT" "META" "*IGNORE*" generic_state (λ s, "*") plain_window
     fresh_state element {| unmask := false |}).1.

End Element.



(** ** The node registry ([src/layout/dom.ts]) *)

Module Registry.

(** A live DOM node is known by its identity only. Ids come from the counter
    [index], which starts at 1 and only grows: they are positive. *)
Abbreviation Node := nat (only parsing).
Abbreviation Id := positive (only parsing).

(** The [Source] enum of [@clarity-types/layout]; the registry tells
    [ChildListAdd] from the other members and stores the rest as it is. *)
Inductive Source :=
  | ChildListAdd
  | OtherSource (n : nat).

#[global] Instance Source_eq_dec : EqDecision Source.
Proof. solve_decision. Defined.

(** The members of the [Constant] enum of [@clarity-types/layout] that
    [dom.ts] reads. *)
Record Constants := {
  CLARITY_REGION_ATTRIBUTE : string;
  TAG_INPUT : string;
  NAME_ATTRIBUTE : string;
  TYPE_ATTRIBUTE : string;
  MASK_ATTRIBUTE : string;
  UNMASK_ATTRIBUTE : string;
  CLASS_ATTRIBUTE : string;
  ID_ATTRIBUTE : string;
  HREF_ATTRIBUTE : string;
  SRC_ATTRIBUTE : string;
  SRCSET_ATTRIBUTE : string;
  DATA_PREFIX : string
}.

(** The collaborators of the registry: the selector builder of
    [@src/layout/selector], the URL resolution of the browser behind
    [getFullUrl], [config.lean], whether the devtools hook is present in
    [window], and the clock of [@src/core/time]. *)
Record Host := {
  selector_fn : string → option string → option (gmap string string) → option nat → string;
  resolveUrl : string → string;
  config_lean : bool;
  devtools : bool;
  time : Z
}.

Definition BLACKLIST_TYPES : list string := ["password"; "hidden"; "email"].
Definition BLACKLIST_NAMES : list string :=
  ["address"; "cell"; "code"; "dob"; "email"; "mobile"; "name"; "phone";
   "secret"; "social"; "ssn"; "tel"; "zip"].

(** [NodeInfo]: an optional field is [None] when the key is absent. [path]
    is absent, [null] ([Some None]) or a string. *)
Record NodeInfo := {
  tag : string;
  path : option (option string);
  attributes : option (gmap string string);
  layout : option (gmap string Z);
  style : option (gmap string string);
  value : option string
}.

Record Metadata := { active : bool; boxmodel : bool; masked : bool }.

Record NodeValue := {
  id : Id;
  parent : option Id;
  next : option Id;
  children : list Id;
  position : option nat;
  data : NodeInfo;
  selector : string;
  region : option string;
  metadata : Metadata
}.

(** An entry of the history log; [change_value] is the deep copy of
    [values[id]] ([None] when that is [undefined]). *)
Record NodeChange := {
  change_time : Z;
  change_source : Source;
  change_value : option NodeValue
}.

(** The module variables of [dom.ts]. [scheduled] lists the roots handed to
    [schedule(discover.bind(this, root), Priority.High)]. *)
Record State := {
  index : Id;
  nodes : gmap positive nat;
  values : gmap positive NodeValue;
  changes : gmap positive (list NodeChange);
  updateMap : list Id;
  selectorMap : list Id;
  idMap : gmap nat positive;
  regionMap : gmap nat string;
  regionTracker : gmap string nat;
  urlMap : gmap string positive;
  scheduled : list Node
}.

#[global] Instance NodeInfo_eq_dec : EqDecision NodeInfo.
Proof. solve_decision. Defined.
#[global] Instance Metadata_eq_dec : EqDecision Metadata.
Proof. solve_decision. Defined.
#[global] Instance NodeValue_eq_dec : EqDecision NodeValue.
Proof. solve_decision. Defined.

(** *** Field updates *)

Definition set_path (p : option (option string)) (d : NodeInfo) : NodeInfo :=
  {| tag := tag d; path := p; attributes := attributes d; layout := layout d;
     style := style d; value := value d |}.

Definition set_active (b : bool) (m : Metadata) : Metadata :=
  {| active := b; boxmodel := boxmodel m; masked := masked m |}.
Definition set_boxmodel (b : bool) (m : Metadata) : Metadata :=
  {| active := active m; boxmodel := b; masked := masked m |}.

Definition set_parent (p : option Id) (v : NodeValue) : NodeValue :=
  {| id := id v; parent := p; next := next v; children := children v;
     position := position v; data := data v; selector := selector v;
     region := region v; metadata := metadata v |}.
Definition set_next (n : option Id) (v : NodeValue) : NodeValue :=
  {| id := id v; parent := parent v; next := n; children := children v;
     position := position v; data := data v; selector := selector v;
     region := region v; metadata := metadata v |}.
Definition set_children (c : list Id) (v : NodeValue) : NodeValue :=
  {| id := id v; parent := parent v; next := next v; children := c;
     position := position v; data := data v; selector := selector v;
     region := region v; metadata := metadata v |}.
Definition set_position (p : option nat) (v : NodeValue) : NodeValue :=
  {| id := id v; parent := parent v; next := next v; children := children v;
     position := p; data := data v; selector := selector v;
     region := region v; metadata := metadata v |}.
Definition set_data (d : NodeInfo) (v : NodeValue) : NodeValue :=
  {| id := id v; parent := parent v; next := next v; children := children v;
     position := position v; data := d; selector := selector v;
     region := region v; metadata := metadata v |}.
Definition set_selector (s : string) (v : NodeValue) : NodeValue :=
  {| id := id v; parent := parent v; next := next v; children := children v;
     position := position v; data := data v; selector := s;
     region := region v; metadata := metadata v |}.
Definition set_region (r : option string) (v : NodeValue) : NodeValue :=
  {| id := id v; parent := parent v; next := next v; children := children v;
     position := position v; data := data v; selector := selector v;
     region := r; metadata := metadata v |}.
Definition set_metadata (m : Metadata) (v : NodeValue) : NodeValue :=
  {| id := id v; parent := parent v; next := next v; children := children v;
     position := position v; data := data v; selector := selector v;
     region := region v; metadata := m |}.

Definition with_index (i : Id) (st : State) : State :=
  {| index := i; nodes := nodes st; values := values st; changes := changes st;
     updateMap := updateMap st; selectorMap := selectorMap st; idMap := idMap st;
     regionMap := regionMap st; regionTracker := regionTracker st;
     urlMap := urlMap st; scheduled := scheduled st |}.
Definition with_nodes (n : gmap positive nat) (st : State) : State :=
  {| index := index st; nodes := n; values := values st; changes := changes st;
     updateMap := updateMap st; selectorMap := selectorMap st; idMap := idMap st;
     regionMap := regionMap st; regionTracker := regionTracker st;
     urlMap := urlMap st; scheduled := scheduled st |}.
Definition with_values (v : gmap positive NodeValue) (st : State) : State :=
  {| index := index st; nodes := nodes st; values := v; changes := changes st;
     updateMap := updateMap st; selectorMap := selectorMap st; idMap := idMap st;
     regionMap := regionMap st; regionTracker := regionTracker st;
     urlMap := urlMap st; scheduled := scheduled st |}.
Definition with_changes (c : gmap positive (list NodeChange)) (st : State) : State :=
  {| index := index st; nodes := nodes st; values := values st; changes := c;
     updateMap := updateMap st; selectorMap := selectorMap st; idMap := idMap st;
     regionMap := regionMap st; regionTracker := regionTracker st;
     urlMap := urlMap st; scheduled := scheduled st |}.
Definition with_updateMap (u : list Id) (st : State) : State :=
  {| index := index st; nodes := nodes st; values := values st; changes := changes st;
     updateMap := u; selectorMap := selectorMap st; idMap := idMap st;
     regionMap := regionMap st; regionTracker := regionTracker st;
     urlMap := urlMap st; scheduled := scheduled st |}.
Definition with_selectorMap (m : list Id) (st : State) : State :=
  {| index := index st; nodes := nodes st; values := values st; changes := changes st;
     updateMap := updateMap st; selectorMap := m; idMap := idMap st;
     regionMap := regionMap st; regionTracker := regionTracker st;
     urlMap := urlMap st; scheduled := scheduled st |}.
Definition with_idMap (m : gmap nat positive) (st : State) : State :=
  {| index := index st; nodes := nodes st; values := values st; changes := changes st;
     updateMap := updateMap st; selectorMap := selectorMap st; idMap := m;
     regionMap := regionMap st; regionTracker := regionTracker st;
     urlMap := urlMap st; scheduled := scheduled st |}.
Definition with_regionMap (m : gmap nat string) (st : State) : State :=
  {| index := index st; nodes := nodes st; values := values st; changes := changes st;
     updateMap := updateMap st; selectorMap := selectorMap st; idMap := idMap st;
     regionMap := m; regionTracker := regionTracker st;
     urlMap := urlMap st; scheduled := scheduled st |}.
Definition with_regionTracker (m : gmap string nat) (st : State) : State :=
  {| index := index st; nodes := nodes st; values := values st; changes := changes st;
     updateMap := updateMap st; selectorMap := selectorMap st; idMap := idMap st;
     regionMap := regionMap st; regionTracker := m;
     urlMap := urlMap st; scheduled := scheduled st |}.
Definition with_urlMap (m : gmap string positive) (st : State) : State :=
  {| index := index st; nodes := nodes st; values := values st; changes := changes st;
     updateMap := updateMap st; selectorMap := selectorMap st; idMap := idMap st;
     regionMap := regionMap st; regionTracker := regionTracker st;
     urlMap := m; scheduled := scheduled st |}.
Definition with_scheduled (l : list Node) (st : State) : State :=
  {| index := index st; nodes := nodes st; values := values st; changes := changes st;
     updateMap := updateMap st; selectorMap := selectorMap st; idMap := idMap st;
     regionMap := regionMap st; regionTracker := regionTracker st;
     urlMap := urlMap st; scheduled := l |}.

(** [values[i].f = ...]: the object stored under [i] is updated in place. *)
Definition modify (i : Id) (f : NodeValue → NodeValue) (st : State) : State :=
  with_values (alter f i (values st)) st.

(** *** The operations *)

Section Ops.

Variable K : Constants.
Variable H : Host.

(** The live node as [add] and [update] read it: its identity, the raw
    siblings that follow it ([node.nextSibling], repeatedly) and its shadow
    root, if it has one. *)
Record LiveNode := {
  handle : Node;
  nextSiblings : list Node;
  shadowRoot : option Node
}.

Definition reset (st : State) : State :=
  {| index := 1; nodes := ∅; values := ∅; changes := ∅; updateMap := [];
     selectorMap := []; idMap := ∅; regionMap := ∅;
     regionTracker := regionTracker st; urlMap := ∅; scheduled := scheduled st |}.

Definition discoverTree (root : Node) (st : State) : State :=
  with_scheduled (scheduled st ++ [root]) st.

(** One element matched for the region [key]; [len] is [elements.length]. *)
Definition extractRegion (key : string) (len : nat) (st : State) (el : Node) : State :=
  let n := (default 0 (regionTracker st !! key) + 1)%nat in
  let label := if (1 <? len)%nat then key +:+ "." +:+ pretty n else key in
  with_regionMap (<[el := label]> (regionMap st))
    (with_regionTracker (<[key := n]> (regionTracker st)) st).

(** [extractRegions(root)]: [matched] pairs each key of [config.regions] that
    has a selector with [root.querySelectorAll] of it, in the order of the
    keys; it is empty when [root] has no [querySelectorAll]. *)
Definition extractRegions (matched : list (string * list Node)) (st : State) : State :=
  foldl (λ st km, foldl (extractRegion km.1 (length km.2)) st km.2) st matched.

Definition start (matched : list (string * list Node)) (document : Node) (st : State) : State :=
  discoverTree document (extractRegions matched (reset st)).

(** [getId(node)] without [autogen] reads the id map only. *)
Definition lookupId (node : option Node) (st : State) : option Id :=
  n ← node; idMap st !! n.

(** [getId(node, true)] on a node that is not [null]: the id it has, or the
    next value of the counter. *)
Definition assignId (n : Node) (st : State) : Id * State :=
  match idMap st !! n with
  | Some i => (i, st)
  | None =>
      (index st,
       with_idMap (<[n := index st]> (idMap st)) (with_index (index st + 1)%positive st))
  end.

Definition getId (node : option Node) (autogen : bool) (st : State) : option Id * State :=
  match node with
  | None => (None, st)
  | Some n =>
      if autogen then let '(i, st') := assignId n st in (Some i, st')
      else (idMap st !! n, st)
  end.

Fixpoint getNextId (siblings : list Node) (st : State) : option Id :=
  match siblings with
  | [] => None
  | s :: rest =>
      match lookupId (Some s) st with
      | Some i => Some i
      | None => getNextId rest st
      end
  end.

(** [has(node)]: [getId(node) in nodes]. *)
Definition has (node : Node) (st : State) : bool :=
  match lookupId (Some node) st with
  | Some i => has_key i (nodes st)
  | None => false
  end.

Definition mask (data : NodeInfo) (masked : bool) : bool :=
  match attributes data with
  | None => masked
  | Some attributes =>
      let tag := toUpperCase (tag data) in
      (* blacklist fields, only if the node is not already masked *)
      let masked :=
        if negb masked && String.eqb tag (TAG_INPUT K)
           && has_key (NAME_ATTRIBUTE K) attributes
        then
          let value := toLowerCase (default "" (attributes !! NAME_ATTRIBUTE K)) in
          foldl (λ masked name, if contains value name then true else masked)
                masked BLACKLIST_NAMES
        else masked in
      (* blacklist types *)
      let masked :=
        if has_key (TYPE_ATTRIBUTE K) attributes
           && bool_decide (default "" (attributes !! TYPE_ATTRIBUTE K) ∈ BLACKLIST_TYPES)
        then true else masked in
      (* explicit instructions *)
      let masked := if has_key (MASK_ATTRIBUTE K) attributes then true else masked in
      let masked := if has_key (UNMASK_ATTRIBUTE K) attributes then false else masked in
      masked
  end.

(** [diff] on a field that is an object on both sides: key by key. *)
Definition diff_object `{EqDecision V} (a b : gmap string V) : bool :=
  existsb (λ key, bool_decide (a !! key ≠ b !! key)) (map_to_list a).*1
  || existsb (λ key, bool_decide (b !! key ≠ a !! key)) (map_to_list b).*1.

(** [diff] on a field that holds an object or is absent: an object against
    [undefined] is compared by [!==]. *)
Definition diff_optional_object `{EqDecision V} (a b : option (gmap string V)) : bool :=
  match a, b with
  | Some ma, Some mb => diff_object ma mb
  | None, None => false
  | _, _ => true
  end.

(** The keys of a [NodeInfo]. *)
Inductive Field := FTag | FPath | FAttributes | FLayout | FStyle | FValue.

Definition diff (a b : NodeInfo) (field : Field) : bool :=
  match field with
  | FTag => bool_decide (tag a ≠ tag b)
  | FPath => bool_decide (path a ≠ path b)
  | FAttributes => diff_optional_object (attributes a) (attributes b)
  | FLayout => diff_optional_object (layout a) (layout b)
  | FStyle => diff_optional_object (style a) (style b)
  | FValue => bool_decide (value a ≠ value b)
  end.

(** [key in data]. *)
Definition present (data : NodeInfo) (field : Field) : bool :=
  match field with
  | FTag => true
  | FPath => bool_decide (is_Some (path data))
  | FAttributes => bool_decide (is_Some (attributes data))
  | FLayout => bool_decide (is_Some (layout data))
  | FStyle => bool_decide (is_Some (style data))
  | FValue => bool_decide (is_Some (value data))
  end.

(** [a[key] = b[key]]. *)
Definition assign (a b : NodeInfo) (field : Field) : NodeInfo :=
  match field with
  | FTag => {| tag := tag b; path := path a; attributes := attributes a;
               layout := layout a; style := style a; value := value a |}
  | FPath => set_path (path b) a
  | FAttributes => {| tag := tag a; path := path a; attributes := attributes b;
                      layout := layout a; style := style a; value := value a |}
  | FLayout => {| tag := tag a; path := path a; attributes := attributes a;
                  layout := layout b; style := style a; value := value a |}
  | FStyle => {| tag := tag a; path := path a; attributes := attributes a;
                 layout := layout a; style := style b; value := value a |}
  | FValue => {| tag := tag a; path := path a; attributes := attributes a;
                 layout := layout a; style := style a; value := value b |}
  end.

Definition track (i : Id) (source : Source) (changed : bool) (st : State) : State :=
  let st1 :=
    match indexOf i (updateMap st) with
    | Some uIndex =>
        if decide (source = ChildListAdd)
        then with_updateMap (splice_remove uIndex (updateMap st) ++ [i]) st
        else st
    | None =>
        if changed then with_updateMap (updateMap st ++ [i]) st else st
    end in
  if devtools H then
    let change := {| change_time := time H; change_source := source;
                     change_value := values st1 !! i |} in
    with_changes (<[i := default [] (changes st1 !! i) ++ [change]]> (changes st1)) st1
  else st1.

Definition history (i : Id) (st : State) : list NodeChange :=
  default [] (changes st !! i).

(** [remove(id, source)]. The recursion follows the child lists; [fuel]
    bounds its depth and an exhausted stack is a [RangeError]. *)
Fixpoint remove (fuel : nat) (i : Id) (source : Source) (st : State) : result State :=
  match fuel with
  | O => Throw RangeError
  | S fuel' =>
      value ← defined (values st !! i);
      let st1 := modify i (λ v, set_metadata (set_active false (metadata v)) v) st in
      let st2 := modify i (set_parent None) st1 in
      let st3 := track i source true st2 in
      st4 ← for_each (λ child, remove fuel' child source) (children value) st3;
      Ok (modify i (set_children []) st4)
  end.

(** The first three statements of [remove]. *)
Definition detached (i : Id) (source : Source) (st : State) : State :=
  track i source true
    (modify i (set_parent None)
       (modify i (λ v, set_metadata (set_active false (metadata v)) v) st)).

Definition is_position_tag (tag : string) : bool :=
  bool_decide (tag ∈ ["DIV"; "TR"; "P"; "LI"; "UL"]).

(** [position(parent, child)]: [child] is the object [values[i]] and
    [parent], when it is not [null], the object [values[pid]]. The position
    is left in [values[i].position]. *)
Definition position_of (parent : option Id) (i : Id) (st : State) : result State :=
  child ← defined (values st !! i);
  let tag := tag (data child) in
  let hasClassName :=
    match attributes (data child) with
    | Some a => negb (has_key (CLASS_ATTRIBUTE K) a)
    | None => false
    end in
  match parent with
  | Some pid =>
      if is_position_tag tag || hasClassName then
        let st1 := modify i (set_position (Some 1%nat)) st in
        p ← defined (values st1 !! pid);
        match indexOf (id child) (children p) with
        | Some (S idx) =>
            sibling ← defined (children p !! idx ≫= (values st1 !!.));
            if String.eqb tag (Registry.tag (data sibling))
            then Ok (modify i (set_position (Some (default 0 (position sibling) + 1)%nat)) st1)
            else Ok st1
        | _ => Ok st1
        end
      else Ok st
  | None => Ok st
  end.

Definition updateSelector (i : Id) (st : State) : result State :=
  value ← defined (values st !! i);
  let parent :=
    match parent value with
    | Some pid => if has_key pid (values st) then Some pid else None
    | None => None
    end in
  let prefix := (λ p, selector p +:+ ">") <$> (parent ≫= (values st !!.)) in
  let ex := selector value in
  st1 ← position_of parent i st;
  value1 ← defined (values st1 !! i);
  let current := selector_fn H (tag (data value1)) prefix (attributes (data value1))
                             (position value1) in
  let st2 :=
    if bool_decide (current ≠ ex) && bool_decide (indexOf (id value1) (selectorMap st1) = None)
    then with_selectorMap (selectorMap st1 ++ [id value1]) st1
    else st1 in
  Ok (modify i (set_selector current) st2).

(** One candidate of a [srcset] list. *)
Definition track_srcset (i : Id) (m : gmap string positive) (u : string)
  : gmap string positive :=
  match split " " (trim u) with
  | [url; _] => if (0 <? String.length url)%nat then <[resolveUrl H url := i]> m else m
  | _ => m
  end.

(** [metadata(tag, id, parentId)]. *)
Definition track_metadata (tag : string) (i : Id) (parentId : option Id) (st : State)
  : result State :=
  match parentId with
  | None => Ok st
  | Some _ =>
      value ← defined (values st !! i);
      let attributes := default ∅ (attributes (data value)) in
      let nonempty k := match attributes !! k with
                        | Some s => (0 <? String.length s)%nat
                        | None => false
                        end in
      let get k := default "" (attributes !! k) in
      let st1 :=
        if bool_decide (tag ∈ ["VIDEO"; "AUDIO"; "LINK"]) then
          let m1 := if nonempty (HREF_ATTRIBUTE K)
                    then <[resolveUrl H (get (HREF_ATTRIBUTE K)) := i]> (urlMap st)
                    else urlMap st in
          let m2 := if nonempty (SRC_ATTRIBUTE K)
                       && negb (starts_with (get (SRC_ATTRIBUTE K)) (DATA_PREFIX K))
                    then <[resolveUrl H (get (SRC_ATTRIBUTE K)) := i]> m1
                    else m1 in
          let m3 := if nonempty (SRCSET_ATTRIBUTE K)
                    then foldl (track_srcset i) m2 (split "," (get (SRCSET_ATTRIBUTE K)))
                    else m2 in
          with_urlMap m3 st
        else if String.eqb tag "IFRAME" then
          if config_lean H then st
          else modify i (λ v, set_metadata (set_boxmodel true (metadata v)) v) st
        else st in
      let isRegion :=
        match nodes st1 !! i with
        | Some n => has_key n (regionMap st1)
        | None => false
        end in
      Ok (if isRegion
          then modify i (λ v, set_metadata (set_boxmodel true (metadata v)) v) st1
          else st1)
  end.

Definition push (i : Id) (v : NodeValue) : NodeValue :=
  set_children (children v ++ [i]) v.

Definition discoverShadow (node : LiveNode) (st : State) : State :=
  match shadowRoot node with
  | Some root => if has root st then st else discoverTree root st
  | None => st
  end.

Definition add (node : LiveNode) (parent : option Node) (data : NodeInfo)
    (source : Source) (st : State) : result State :=
  let '(i, st) := assignId (handle node) st in
  let parentId := lookupId parent st in
  let nextId := getNextId (nextSiblings node) st in
  let region := regionMap st !! handle node in
  (* [parentId >= 0 && values[parentId]]: [null >= 0] holds, and
     [values[null]] is [undefined] *)
  let '(st, region, masked) :=
    match parentId with
    | Some pid =>
        match values st !! pid with
        | Some parentValue =>
            (modify pid (push i) st,
             match region with None => Registry.region parentValue | Some _ => region end,
             Registry.masked (metadata parentValue))
        | None => (st, region, true)
        end
    | None => (st, region, true)
    end in
  let st := discoverShadow node st in
  let masked := mask data masked in
  let st :=
    match attributes data ≫= (.!! CLARITY_REGION_ATTRIBUTE K) with
    | Some r => with_regionMap (<[handle node := r]> (regionMap st)) st
    | None => st
    end in
  let st := with_nodes (<[i := handle node]> (nodes st)) st in
  let st :=
    with_values
      (<[i := {| id := i; parent := parentId; next := nextId; children := [];
                 position := None; data := data; selector := "";
                 region := region;
                 metadata := {| active := true; boxmodel := false; masked := masked |} |}]>
         (values st)) st in
  st ← updateSelector i st;
  st ← track_metadata (tag data) i parentId st;
  Ok (track i source true st).

(** One round of [for (let key in data)] in [update]. *)
Definition update_field (i : Id) (data : NodeInfo) (field : Field)
    (acc : bool * State) : result (bool * State) :=
  let '(changed, st) := acc in
  if present data field then
    value ← defined (values st !! i);
    if diff (Registry.data value) data field
    then Ok (true, modify i (λ v, set_data (assign (Registry.data v) data field) v) st)
    else Ok (changed, st)
  else Ok (changed, st).

Definition update (fuel : nat) (node : LiveNode) (parent : option Node) (data : NodeInfo)
    (source : Source) (st : State) : result State :=
  let parentId := lookupId parent st in
  let nextId := getNextId (nextSiblings node) st in
  match lookupId (Some (handle node)) st with
  | None => Ok st
  | Some i =>
      match values st !! i with
      | None => Ok st
      | Some value =>
          let st := modify i (λ v, set_metadata (set_active true (metadata v)) v) st in
          (* internal ordering *)
          let '(changed, st) :=
            if bool_decide (next value ≠ nextId)
            then (true, modify i (set_next nextId) st)
            else (false, st) in
          (* parent *)
          '(changed, st) ←
            (if bool_decide (Registry.parent value ≠ parentId) then
               let oldParentId := Registry.parent value in
               let st := modify i (set_parent parentId) st in
               st ← match parentId with
                     | Some pid =>
                         _ ← defined (values st !! pid);
                         let st :=
                           match nextId with
                           | Some n =>
                               modify pid
                                 (λ v, set_children
                                         (splice_insert (Pos.to_nat n + 1) i (children v)) v) st
                           | None => modify pid (push i) st
                           end in
                         pv ← defined (values st !! pid);
                         Ok (modify i
                               (set_region
                                  (match regionMap st !! handle node with
                                   | Some r => Some r
                                   | None => region pv
                                   end)) st)
                     | None => remove fuel i source st
                     end;
               st ← match oldParentId with
                     | Some old =>
                         ov ← defined (values st !! old);
                         match indexOf i (children ov) with
                         | Some nodeIndex =>
                             Ok (modify old
                                   (λ v, set_children (splice_remove nodeIndex (children v)) v) st)
                         | None => Ok st
                         end
                     | None => Ok st
                     end;
               Ok (true, st)
             else Ok (changed, st));
          let st := discoverShadow node st in
          '(changed, st) ←
            for_each (update_field i data)
                     [FTag; FPath; FAttributes; FLayout; FStyle; FValue] (changed, st);
          st ← updateSelector i st;
          st ← track_metadata (tag data) i parentId st;
          Ok (track i source changed st)
      end
  end.

(** [p in updateMap]: the array is dense, so the property [p] exists when
    [p] is below its length. *)
Definition in_array (p : Id) (l : list Id) : bool := (Pos.to_nat p <? length l)%nat.

(** ["attributes" in v.data && Constant.ID_ATTRIBUTE in v.data.attributes]. *)
Definition carries_id (v : NodeValue) : bool :=
  match attributes (data v) with
  | Some a => has_key (ID_ATTRIBUTE K) a
  | None => false
  end.

(** The value [updates] gives [v.data.path]; [queue] is [updateMap]. *)
Definition flush_path (queue : list Id) (st : State) (v : NodeValue)
  : result (option string) :=
  let p := parent v in
  let hasId := carries_id v in
  match p with
  | None => Ok None
  | Some pid =>
      if in_array pid queue || hasId || (String.length (selector v) =? 0)%nat
      then Ok None
      else pv ← defined (values st !! pid); Ok (Some (selector pv))
  end.

(** [v.data.path = p]. *)
Definition with_path (p : option string) (v : NodeValue) : NodeValue :=
  set_data (set_path (Some p) (data v)) v.

(** One round of the loop of [updates]. *)
Definition updates_step (queue : list Id) (i : Id) (acc : list Id * State)
  : result (list Id * State) :=
  let '(output, st) := acc in
  match values st !! i with
  | None => Ok (output, st)
  | Some v =>
      p ← flush_path queue st v;
      Ok (output ++ [i], modify i (with_path p) st)
  end.

(** [updates()], the flush. [output] holds the objects of [values]
    themselves, so what the caller reads in them is their content when the
    loop is over. *)
Definition updates (st : State) : result (list NodeValue * State) :=
  match for_each (updates_step (updateMap st)) (updateMap st) ([], st) with
  | Ok (output, st') => Ok (omap (values st' !!.) output, with_updateMap [] st')
  | Throw e => Throw e
  end.

Definition getNode (i : Id) (st : State) : option Node := nodes st !! i.

Definition getMatch (url : string) (st : State) : option Node :=
  urlMap st !! url ≫= (λ i, getNode i st).

Definition getValue (i : Id) (st : State) : option NodeValue := values st !! i.

Definition get (node : Node) (st : State) : option NodeValue :=
  lookupId (Some node) st ≫= (values st !!.).

Definition boxmodel_values (st : State) : list NodeValue :=
  filter (λ v, active (metadata v) && boxmodel (metadata v) = true)
         ((map_to_list (values st)).*2).

End Ops.

(** *** The shape of the registry *)

(** Every parent a record names is registered. *)
Definition parents_registered (st : State) : Prop :=
  ∀ i v pid, values st !! i = Some v → parent v = Some pid → is_Some (values st !! pid).

(** Every id in a child list is registered. *)
Definition children_registered (st : State) : Prop :=
  ∀ i v c, values st !! i = Some v → c ∈ children v → is_Some (values st !! c).

(** [c] is in the child list of [i]. *)
Definition child_of (st : State) (i c : Id) : Prop :=
  ∃ v, values st !! i = Some v ∧ c ∈ children v.

(** [d] is [i] or is reached from [i] through child lists. *)
Definition descendant (st : State) (i d : Id) : Prop := rtc (child_of st) i d.

(** The child lists under [i] are registered and no deeper than [n]. *)
Fixpoint depth_bounded (n : nat) (vs : gmap positive NodeValue) (i : Id) : Prop :=
  match n with
  | O => False
  | S n' => ∃ v, vs !! i = Some v ∧ Forall (depth_bounded n' vs) (children v)
  end.

(** The record under [i] is deactivated and has no children. *)
Definition deactivated (st : State) (i : Id) : Prop :=
  ∃ v, values st !! i = Some v ∧ active (metadata v) = false ∧ children v = [].

(** What the loop of [updates] run over [l] leaves of the entry that [st]
    holds under [j]. *)
Definition flushed (K : Constants) (q l : list Id) (st st' : State) (j : Id) : Prop :=
  match values st !! j with
  | None => values st' !! j = None
  | Some v =>
      if decide (j ∈ l)
      then ∃ p, flush_path K q st v = Ok p ∧ values st' !! j = Some (with_path p v)
      else values st' !! j = Some v
  end.

(** The masked flag stored under [j]. *)
Definition masked_at (st : State) (j : Id) : option bool :=
  (λ v, masked (metadata v)) <$> values st !! j.

Definition same_masks (st st' : State) : Prop := ∀ j, masked_at st' j = masked_at st j.

(** The record of the parent as [add] resolves it: after the node has its
    id, and [None] when the parent is [null], has no id or is not
    registered. *)
Definition parentValue_of (node : LiveNode) (parent : option Node) (st : State)
  : option NodeValue :=
  let st1 := (assignId (handle node) st).2 in
  lookupId parent st1 ≫= (values st1 !!.).

(** The fields that [remove] leaves alone, and the history, which only
    grows. *)
Definition kept (st st' : State) : Prop :=
  index st' = index st ∧ idMap st' = idMap st ∧ nodes st' = nodes st
  ∧ ∀ j, history j st `prefix_of` history j st'.

(** A child list in [st'] is the one of [st] or is empty. *)
Definition shrinks (st st' : State) : Prop :=
  ∀ j v, values st !! j = Some v →
         ∃ v', values st' !! j = Some v' ∧ (children v' = children v ∨ children v' = []).

(** What a run of [remove] from the ids [roots] guarantees: everything
    below them is deactivated, and an entry that changed is below them. *)
Definition removed (roots : list Id) (st st' : State) : Prop :=
  (∀ c d, c ∈ roots → descendant st c d → deactivated st' d)
  ∧ (∀ j, values st' !! j = values st !! j ∨ ∃ c, c ∈ roots ∧ descendant st c j)
  ∧ kept st st'.

(** The shape conditions as checks that compute. *)
Definition parents_registeredb (st : State) : bool :=
  forallb (λ iv : positive * NodeValue,
             match parent iv.2 with
             | Some pid => has_key pid (values st)
             | None => true
             end) (map_to_list (values st)).

Definition children_registeredb (st : State) : bool :=
  forallb (λ iv : positive * NodeValue,
             forallb (λ c, has_key c (values st)) (children iv.2))
          (map_to_list (values st)).

Fixpoint depth_boundedb (n : nat) (vs : gmap positive NodeValue) (i : Id) : bool :=
  match n with
  | O => false
  | S n' =>
      match vs !! i with
      | Some v => forallb (depth_boundedb n' vs) (children v)
      | None => false
      end
  end.

(** *** A concrete session

    The constants stand for the attribute and tag names they are named
    after, the selector of the host is the parent prefix followed by the tag,
    and the document is small: two containers under the root, two children
    under the second one and one under the first. *)

Definition clarity_constants : Constants :=
  {| CLARITY_REGION_ATTRIBUTE := "data-clarity-region";
     TAG_INPUT := "INPUT";
     NAME_ATTRIBUTE := "name";
     TYPE_ATTRIBUTE := "type";
     MASK_ATTRIBUTE := "data-clarity-mask";
     UNMASK_ATTRIBUTE := "data-clarity-unmask";
     CLASS_ATTRIBUTE := "class";
     ID_ATTRIBUTE := "id";
     HREF_ATTRIBUTE := "href";
     SRC_ATTRIBUTE := "src";
     SRCSET_ATTRIBUTE := "srcset";
     DATA_PREFIX := "data:" |}.

Definition plain_host : Host :=
  {| selector_fn := λ tag prefix _ _, default "" prefix +:+ tag;
     resolveUrl := λ u, u;
     config_lean := false;
     devtools := true;
     time := 0 |}.

Definition empty_state : State :=
  {| index := 1; nodes := ∅; values := ∅; changes := ∅; updateMap := [];
     selectorMap := []; idMap := ∅; regionMap := ∅; regionTracker := ∅;
     urlMap := ∅; scheduled := [] |}.

Definition info (tag : string) (attrs : list (string * string)) : NodeInfo :=
  {| tag := tag; path := None; attributes := Some (list_to_map attrs);
     layout := None; style := None; value := None |}.

Definition live (n : Node) (siblings : list Node) : LiveNode :=
  {| handle := n; nextSiblings := siblings; shadowRoot := None |}.

Definition discovery : Source := OtherSource 0.

(** Nodes 0..5 get the ids 1..6: the root, the containers P1 (2) and P2 (3),
    S (4) and X (5) under P2, and A (6) under P1. *)
Definition session : result State :=
  st ← add clarity_constants plain_host (live 0 []) None (info "HTML" []) discovery empty_state;
  st ← add clarity_constants plain_host (live 1 [2%nat]) (Some 0%nat) (info "DIV" []) discovery st;
  st ← add clarity_constants plain_host (live 2 []) (Some 0%nat) (info "DIV" []) discovery st;
  st ← add clarity_constants plain_host (live 3 [4%nat]) (Some 2%nat) (info "P" []) discovery st;
  st ← add clarity_constants plain_host (live 4 []) (Some 2%nat) (info "P" []) discovery st;
  add clarity_constants plain_host (live 5 []) (Some 1%nat) (info "SPAN" [("id", "a")]) discovery st.

(** A is observed again, now under P2 and in front of S. *)
Definition reparented : result State :=
  st ← session;
  update clarity_constants plain_host 8 (live 5 [3%nat; 4%nat]) (Some 2%nat)
         (info "SPAN" [("id", "a")]) ChildListAdd st.

(** The queue is flushed, then one attribute of A changes, or one of X. *)
Definition flushed_session : result State :=
  st ← session;
  match updates clarity_constants st with
  | Ok (_, st') => Ok st'
  | Throw e => Throw e
  end.

Definition edited_A : result State :=
  st ← flushed_session;
  update clarity_constants plain_host 8 (live 5 []) (Some 1%nat)
         (info "SPAN" [("id", "a"); ("title", "t")]) (OtherSource 1) st.

Definition edited_X : result State :=
  st ← flushed_session;
  update clarity_constants plain_host 8 (live 4 []) (Some 2%nat)
         (info "P" [("title", "t")]) (OtherSource 1) st.

(** The records a flush of [r] returns. *)
Definition flush_of (r : result State) : result (list NodeValue * State) :=
  st ← r; updates clarity_constants st.

Definition state_of (r : result State) : State :=
  match r with
  | Ok st => st
  | Throw _ => empty_state
  end.

(** A password field that carries the unmask override. *)
Definition unmasked_password : NodeInfo :=
  info "INPUT" [("type", "password"); ("name", "secret"); ("data-clarity-unmask", "")].

Definition children_of (i : Id) (r : result State) : option (list Id) :=
  match r with
  | Ok st => children <$> values st !! i
  | Throw _ => None
  end.

End Registry.


(** ** The reconstructor ([decode/render.ts]) *)

Module Render.

(** *** The target document

    A node of the target document is known by its identity, a key of the
    heap. The heap holds what the reconstructor reads and writes of a node:
    its kind, attributes, character data, parent and children. *)

Abbreviation Ref := nat (only parsing).

Inductive NodeKind :=
  | DocumentNode
  | DoctypeNode (name publicId systemId : string)
  | TextNode
  | ElementNode (ns : option string) (tagName : string).

Record DomNode := {
  kind : NodeKind;
  attrs : gmap string string;
  text : string;
  parentNode : option Ref;
  childNodes : list Ref
}.

#[global] Instance NodeKind_eq_dec : EqDecision NodeKind.
Proof. solve_decision. Defined.

(** The record of the wire format. *)
Record IDecodedNode := {
  id : Z;
  parent : option Z;
  next : option Z;
  tag : string;
  attributes : option (gmap string string);
  value : option string
}.

(** What [console.warn] received: the two lines of [insert] and the two of
    [setAttributes], with the values they print. *)
Inductive Warning :=
  | WarnInsert (node : Ref) (parent : Ref) (data : IDecodedNode)
  | WarnInsertException (ex : exn)
  | WarnAttributes (node : Ref) (attributes : gmap string string)
  | WarnAttributesException (ex : exn).

(** The module variable [nodes], the target document ([heap], whose node
    [document] is the document itself, and [fresh], the next unused
    identity) and the console. *)
Record State := {
  nodes : gmap Z nat;
  heap : gmap nat DomNode;
  fresh : nat;
  console : list Warning
}.

Definition document : Ref := 0%nat.
Definition svgns : string := "http://www.w3.org/2000/svg".
Definition xlinkns : string := "http://www.w3.org/1999/xlink".

Definition with_nodes (n : gmap Z nat) (st : State) : State :=
  {| nodes := n; heap := heap st; fresh := fresh st; console := console st |}.
Definition with_heap (h : gmap nat DomNode) (st : State) : State :=
  {| nodes := nodes st; heap := h; fresh := fresh st; console := console st |}.
Definition warn (w : Warning) (st : State) : State :=
  {| nodes := nodes st; heap := heap st; fresh := fresh st; console := console st ++ [w] |}.

Definition set_attrs (a : gmap string string) (n : DomNode) : DomNode :=
  {| kind := kind n; attrs := a; text := text n; parentNode := parentNode n;
     childNodes := childNodes n |}.
Definition set_text (t : string) (n : DomNode) : DomNode :=
  {| kind := kind n; attrs := attrs n; text := t; parentNode := parentNode n;
     childNodes := childNodes n |}.
Definition set_parentNode (p : option Ref) (n : DomNode) : DomNode :=
  {| kind := kind n; attrs := attrs n; text := text n; parentNode := p;
     childNodes := childNodes n |}.
Definition set_childNodes (c : list Ref) (n : DomNode) : DomNode :=
  {| kind := kind n; attrs := attrs n; text := text n; parentNode := parentNode n;
     childNodes := c |}.

Definition blank (k : NodeKind) : DomNode :=
  {| kind := k; attrs := ∅; text := ""; parentNode := None; childNodes := [] |}.

(** A reference always denotes a node; an identity the heap does not hold
    reads as a detached text node. *)
Definition node_at (h : gmap nat DomNode) (r : Ref) : DomNode :=
  default (blank TextNode) (h !! r).

Definition is_element (n : DomNode) : bool :=
  match kind n with ElementNode _ _ => true | _ => false end.

Definition alloc (n : DomNode) (st : State) : Ref * State :=
  (fresh st,
   {| nodes := nodes st; heap := <[fresh st := n]> (heap st); fresh := S (fresh st);
      console := console st |}).

(** [node.parentElement]: the parent when it is an element. *)
Definition parentElement (h : gmap nat DomNode) (r : Ref) : option Ref :=
  match parentNode (node_at h r) with
  | Some p => if is_element (node_at h p) then Some p else None
  | None => None
  end.

(** [a] is [b] or an ancestor of [b]; the parent chain of a node is no
    longer than the heap. *)
Fixpoint inclusive_ancestor (fuel : nat) (h : gmap nat DomNode) (a b : Ref) : bool :=
  if decide (a = b) then true
  else match fuel with
       | O => false
       | S fuel' =>
           match parentNode (node_at h b) with
           | Some p => inclusive_ancestor fuel' h a p
           | None => false
           end
       end.

(** Takes [r] out of the child list of its parent. *)
Definition detach (r : Ref) (h : gmap nat DomNode) : gmap nat DomNode :=
  match parentNode (node_at h r) with
  | Some p =>
      alter (set_parentNode None) r
        (alter (λ n, set_childNodes (filter (λ c, c ≠ r) (childNodes n)) n) p h)
  | None => h
  end.

(** The Name production, on ASCII: a letter, [_] or [:], then letters,
    digits, [-], [_], [.] and [:]. *)
Definition name_start (c : ascii) : bool :=
  let n := nat_of_ascii c in
  ((65 <=? n) && (n <=? 90) || (97 <=? n) && (n <=? 122) || (n =? 95) || (n =? 58))%nat.

Definition name_char (c : ascii) : bool :=
  let n := nat_of_ascii c in
  (name_start c || (48 <=? n) && (n <=? 57) || (n =? 45) || (n =? 46))%nat.

Definition valid_name (s : string) : bool :=
  match s with
  | EmptyString => false
  | String c rest => name_start c && forallb name_char (String.list_ascii_of_string rest)
  end.

(** The QName production, on ASCII: a name with no colon, or a prefix and a
    local part around one colon, each of them a name that starts with a
    letter or [_]. *)
Definition part_start (s : string) : bool :=
  match s with
  | EmptyString => false
  | String c _ => name_start c
  end.

Definition valid_qname (s : string) : bool :=
  valid_name s
  && match split ":"%char s with
     | [l] => part_start l
     | [p; l] => part_start p && part_start l
     | _ => false
     end.

(** The prefix of a qualified name: what stands in front of its colon. *)
Definition qname_prefix (s : string) : option string :=
  match split ":"%char s with
  | [p; _] => Some p
  | _ => None
  end.

Definition HierarchyRequestError : exn := DOMException "HierarchyRequestError".
Definition NotFoundError : exn := DOMException "NotFoundError".
Definition InvalidCharacterError : exn := DOMException "InvalidCharacterError".
Definition NamespaceError : exn := DOMException "NamespaceError".

Definition xml_namespace : string := "http://www.w3.org/XML/1998/namespace".
Definition xmlns_namespace : string := "http://www.w3.org/2000/xmlns/".

(** The DOM's validation of a namespace and a qualified name, for a
    namespace that is not [null]: the name is a QName, and the prefixes
    [xml] and [xmlns] go with their own namespaces only. *)
Definition validate (ns qualifiedName : string) : result unit :=
  if negb (valid_qname qualifiedName) then Throw InvalidCharacterError
  else
    let prefix := qname_prefix qualifiedName in
    let is_xmlns := String.eqb qualifiedName "xmlns" || bool_decide (prefix = Some "xmlns") in
    if String.eqb ns "" && bool_decide (is_Some prefix) then Throw NamespaceError
    else if bool_decide (prefix = Some "xml") && negb (String.eqb ns xml_namespace)
    then Throw NamespaceError
    else if is_xmlns && negb (String.eqb ns xmlns_namespace) then Throw NamespaceError
    else if String.eqb ns xmlns_namespace && negb is_xmlns then Throw NamespaceError
    else Ok ().

(** An element of the HTML namespace: one made by [createElement]; the
    target is an HTML document. *)
Definition is_html (n : DomNode) : bool :=
  match kind n with ElementNode None _ => true | _ => false end.

(** [parent.insertBefore(node, next)], with the checks of the DOM's
    pre-insertion validity that a tree of documents, doctypes, elements and
    text nodes can fail. *)
Definition insertBefore (parent node : Ref) (next : option Ref) (h : gmap nat DomNode)
  : result (gmap nat DomNode) :=
  let p := node_at h parent in
  let n := node_at h node in
  if negb (bool_decide (kind p = DocumentNode) || is_element p) then Throw HierarchyRequestError
  else if inclusive_ancestor (size h) h node parent then Throw HierarchyRequestError
  else if match next with
          | Some c => negb (bool_decide (parentNode (node_at h c) = Some parent))
          | None => false
          end then Throw NotFoundError
  else if match kind n, kind p with
          | DocumentNode, _ => true
          | TextNode, DocumentNode => true
          | DoctypeNode _ _ _, ElementNode _ _ => true
          | ElementNode _ _, DocumentNode =>
              existsb (λ c, is_element (node_at h c) && negb (bool_decide (c = node)))
                      (childNodes p)
          | _, _ => false
          end then Throw HierarchyRequestError
  else
    let reference :=
      match next with
      | Some c =>
          if decide (c = node)
          then indexOf node (childNodes p) ≫= (λ i, childNodes p !! S i)
          else Some c
      | None => None
      end in
    let h1 := detach node h in
    let siblings := childNodes (node_at h1 parent) in
    let siblings' :=
      match reference ≫= (λ c, indexOf c siblings) with
      | Some i => splice_insert i node siblings
      | None => siblings ++ [node]
      end in
    Ok (alter (set_parentNode (Some parent)) node
          (alter (set_childNodes siblings') parent h1)).

(** [parent.removeChild(node)] for a child of [parent]. *)
Definition removeChild (node : Ref) (h : gmap nat DomNode) : gmap nat DomNode :=
  detach node h.

(** Attaches a node that has no parent as the last child of [parent]. *)
Definition attach (parent node : Ref) (h : gmap nat DomNode) : gmap nat DomNode :=
  alter (set_parentNode (Some parent)) node
    (alter (λ n, set_childNodes (childNodes n ++ [node]) n) parent h).

(** The attributes of an element are kept by qualified name.

    [el.setAttribute(name, value)]; a node that is no element has no such
    method. The name is checked as it is written, and an element of the
    HTML namespace takes it in lower case. *)
Definition setAttribute (node : Ref) (name value : string) (h : gmap nat DomNode)
  : result (gmap nat DomNode) :=
  if negb (is_element (node_at h node)) then Throw TypeError
  else if negb (valid_name name) then Throw InvalidCharacterError
  else
    let name := if is_html (node_at h node) then toLowerCase name else name in
    Ok (alter (λ n, set_attrs (<[name := value]> (attrs n)) n) node h).

(** [el.setAttributeNS(ns, name, value)]: the name is validated against the
    namespace and kept in the case it is written in. *)
Definition setAttributeNS (ns : string) (node : Ref) (name value : string)
    (h : gmap nat DomNode) : result (gmap nat DomNode) :=
  if negb (is_element (node_at h node)) then Throw TypeError
  else
    _ ← validate ns name;
    Ok (alter (λ n, set_attrs (<[name := value]> (attrs n)) n) node h).

(** [document.createElement(tag)] and [createElementNS(ns, tag)]. *)
Definition dom_createElement (tag : string) (st : State) : result (Ref * State) :=
  if valid_name tag then Ok (alloc (blank (ElementNode None tag)) st)
  else Throw InvalidCharacterError.

Definition dom_createElementNS (ns tag : string) (st : State) : result (Ref * State) :=
  _ ← validate ns tag;
  Ok (alloc (blank (ElementNode (Some ns) tag)) st).

Definition createTextNode (data : string) (st : State) : Ref * State :=
  alloc (set_text data (blank TextNode)) st.

(** [node.nodeValue = v]: the data of a text node; no effect on other
    nodes. [undefined] and [null] are the empty string. *)
Definition set_nodeValue (node : Ref) (v : option string) (h : gmap nat DomNode)
  : gmap nat DomNode :=
  match kind (node_at h node) with
  | TextNode => alter (set_text (default "" v)) node h
  | _ => h
  end.

(** [node.textContent = v]: the children of an element are replaced by one
    text node, or by none when the string is empty. *)
Definition set_textContent (node : Ref) (v : option string) (st : State) : State :=
  let h := heap st in
  match kind (node_at h node) with
  | ElementNode _ _ =>
      let h1 := foldl (λ h c, alter (set_parentNode None) c h) h
                      (childNodes (node_at h node)) in
      let st1 := with_heap (alter (set_childNodes []) node h1) st in
      if decide (default "" v = "") then st1
      else
        let '(t, st2) := createTextNode (default "" v) st1 in
        with_heap (attach node t (heap st2)) st2
  | TextNode => with_heap (alter (set_text (default "" v)) node h) st
  | _ => st
  end.

(** [node.textContent] of an element whose children are text nodes. *)
Definition textContent (node : Ref) (h : gmap nat DomNode) : string :=
  foldr (λ c acc, text (node_at h c) +:+ acc) "" (childNodes (node_at h node)).

(** [doc.documentElement], [doc.head] and [doc.body]. *)
Definition documentElement (h : gmap nat DomNode) : option Ref :=
  snd <$> list_find (λ c, is_element (node_at h c) = true) (childNodes (node_at h document)).

Definition has_tag (tags : list string) (n : DomNode) : bool :=
  match kind n with
  | ElementNode _ t => bool_decide (toUpperCase t ∈ tags)
  | _ => false
  end.

Definition child_with_tag (h : gmap nat DomNode) (tags : list string) (r : Ref) : option Ref :=
  snd <$> list_find (λ c, has_tag tags (node_at h c) = true) (childNodes (node_at h r)).

Definition doc_head (h : gmap nat DomNode) : option Ref :=
  documentElement h ≫= child_with_tag h ["HEAD"].
Definition doc_body (h : gmap nat DomNode) : option Ref :=
  documentElement h ≫= child_with_tag h ["BODY"; "FRAMESET"].

(** *** The functions of [render.ts] *)

Definition reset (st : State) : State := with_nodes ∅ st.

Definition element (nodeId : option Z) (st : State) : option Ref :=
  match nodeId with
  | Some n => if (0 <? n)%Z then nodes st !! n else None
  | None => None
  end.

Definition getNode (i : Z) (st : State) : option Ref := nodes st !! i.

Definition try_catch {A} (body : result A) (handler : exn → result A) : result A :=
  match body with
  | Ok a => Ok a
  | Throw ex => handler ex
  end.

(** [next && next.parentElement !== parent ? null : next]. *)
Definition live_next (h : gmap nat DomNode) (parent : Ref) (next : option Ref) : option Ref :=
  match next with
  | Some c => if decide (parentElement h c ≠ Some parent) then None else Some c
  | None => None
  end.

Definition insert (data : IDecodedNode) (parent : option Ref) (node : Ref)
    (next : option Ref) (st : State) : result State :=
  st1 ← match parent with
         | Some p =>
             let next := live_next (heap st) p next in
             try_catch
               (h ← insertBefore p node next (heap st); Ok (with_heap h st))
               (λ ex, Ok (warn (WarnInsertException ex) (warn (WarnInsert node p data) st)))
         | None =>
             match parentElement (heap st) node with
             | Some _ => Ok (with_heap (removeChild node (heap st)) st)
             | None => Ok st
             end
         end;
  Ok (with_nodes (<[id data := node]> (nodes st1)) st1).

(** One round of the second loop of [setAttributes]. *)
Definition applyAttribute (node : Ref) (attributes : gmap string string)
    (st : State) (kv : string * string) : State :=
  let '(attribute, v) := kv in
  match (if starts_with attribute "xlink:"
         then setAttributeNS xlinkns node attribute v (heap st)
         else setAttribute node attribute v (heap st)) with
  | Ok h => with_heap h st
  | Throw ex => warn (WarnAttributesException ex) (warn (WarnAttributes node attributes) st)
  end.

(** [setAttributes(node, attributes)]. The first loop removes the first
    attribute, by its name, as many times as there are attributes, which
    leaves none ([removeAttribute] finds an attribute of an HTML element by
    the lower case of the name, which is the name unless [setAttributeNS]
    wrote it with a capital); the keys of [attributes] are visited in the
    order of the map. *)
Definition setAttributes (node : Ref) (attributes : option (gmap string string))
    (st : State) : State :=
  let st1 :=
    if is_element (node_at (heap st) node)
    then with_heap (alter (set_attrs ∅) node (heap st)) st
    else st in
  match attributes with
  | Some a => foldl (applyAttribute node a) st1 (map_to_list a)
  | None => st1
  end.

Definition createElement (tag : string) (st : State) : result (Ref * State) :=
  if negb (String.eqb tag "") && starts_with tag "s:"
  then dom_createElementNS svgns tag st
  else dom_createElement tag st.

Definition set_attributes (a : option (gmap string string)) (d : IDecodedNode) : IDecodedNode :=
  {| id := id d; parent := parent d; next := next d; tag := tag d; attributes := a;
     value := value d |}.

(** [attributes[k]] as a string: a missing key prints as [undefined]. *)
Definition attribute_string (a : gmap string string) (k : string) : string :=
  default "undefined" (a !! k).

Section Markup.

(** [typeof XMLSerializer !== "undefined"]. *)
Variable hasXMLSerializer : bool.

(** The branch of the doctype marker: [doc.open()] empties the document,
    [doc.write] of the serialized doctype and [doc.close()] leave the
    doctype and the root, head and body the parser supplies. *)
Definition rebuildDocument (node : IDecodedNode) (st : State) : result State :=
  let h := foldl (λ h c, alter (set_parentNode None) c h) (heap st)
                 (childNodes (node_at (heap st) document)) in
  let st := with_heap (alter (set_childNodes []) document h) st in
  a ← defined (attributes node);
  let name := attribute_string a "name" in
  if negb (valid_name name) then Throw InvalidCharacterError
  else
    let '(doctype, st) :=
      alloc (blank (DoctypeNode name (attribute_string a "publicId")
                                (attribute_string a "systemId"))) st in
    let '(html, st) := alloc (blank (ElementNode None "html")) st in
    let '(head, st) := alloc (blank (ElementNode None "head")) st in
    let '(body, st) := alloc (blank (ElementNode None "body")) st in
    Ok (with_heap (attach html body (attach html head
                     (attach document html (attach document doctype (heap st))))) st).

(** The first creation of the root: the root of a fresh minimal document is
    imported with its head and body, replaces the root of the target, and
    the imported head and body are taken out again. *)
Definition replaceRoot (st : State) : result State :=
  let '(pointer, st) := alloc (blank (ElementNode None "html")) st in
  let '(head, st) := alloc (blank (ElementNode None "head")) st in
  let '(title, st) := alloc (blank (ElementNode None "title")) st in
  let '(body, st) := alloc (blank (ElementNode None "body")) st in
  let h := attach pointer body (attach head title (attach pointer head (heap st))) in
  old ← defined (documentElement h);
  let h := alter (set_parentNode (Some document)) pointer
             (alter (set_parentNode None) old
                (alter (λ n, set_childNodes
                               ((λ c, if decide (c = old) then pointer else c) <$> childNodes n) n)
                       document h)) in
  let h := match doc_head h with Some r => removeChild r h | None => h end in
  let h := match doc_body h with Some r => removeChild r h | None => h end in
  Ok (with_heap h st).

(** The [default] branch of the switch, which the [STYLE] case falls into. *)
Definition markup_default (node : IDecodedNode) (parent next : option Ref) (st : State)
  : result State :=
  '(domElement, st) ←
    match element (Some (id node)) st with
    | Some e => Ok (e, st)
    | None => createElement (tag node) st
    end;
  let node := set_attributes (Some (<["data-id" := pretty (id node)]>
                                      (default ∅ (attributes node)))) node in
  let st := setAttributes domElement (attributes node) st in
  insert node parent domElement next st.

(** The statements of the [STYLE] case. *)
Definition markup_style (node : IDecodedNode) (parent next : option Ref) (st : State)
  : result State :=
  '(styleElement, st) ←
    match element (Some (id node)) st with
    | Some e => Ok (e, st)
    | None => dom_createElement (tag node) st
    end;
  let st := setAttributes styleElement (attributes node) st in
  let st := set_textContent styleElement (value node) st in
  insert node parent styleElement next st.

(** One round of the loop of [markup]. *)
Definition markup_one (node : IDecodedNode) (st : State) : result State :=
  let parent := element (parent node) st in
  let next := element (next node) st in
  if String.eqb (tag node) "*D" then
    if hasXMLSerializer then rebuildDocument node st else Ok st
  else if String.eqb (tag node) "*T" then
    let '(textElement, st) :=
      match element (Some (id node)) st with
      | Some e => (e, st)
      | None => createTextNode "null" st
      end in
    let st := with_heap (set_nodeValue textElement (value node) (heap st)) st in
    insert node parent textElement next st
  else if String.eqb (tag node) "HTML" then
    st ← match element (Some (id node)) st with
          | Some _ => Ok st
          | None => replaceRoot st
          end;
    root ← defined (documentElement (heap st));
    let st := setAttributes root (attributes node) st in
    Ok (with_nodes (<[id node := root]> (nodes st)) st)
  else if String.eqb (tag node) "HEAD" then
    '(headElement, node, st) ←
      match element (Some (id node)) st with
      | Some e => Ok (e, node, st)
      | None =>
          '(headElement, st) ← dom_createElement (tag node) st;
          '(base, st) ← dom_createElement "base" st;
          a ← defined (attributes node);
          h ← setAttribute base "href" (attribute_string a "*B") (heap st);
          let st := with_heap (attach headElement base h) st in
          Ok (headElement, set_attributes (Some (delete "*B" a)) node, st)
      end;
    let st := setAttributes headElement (attributes node) st in
    insert node parent headElement next st
  else if String.eqb (tag node) "STYLE" then
    st ← markup_style node parent next st;
    (* no [break]: control falls into the default branch *)
    markup_default node parent next st
  else markup_default node parent next st.

(** [markup(data, iframe)]: the records in order; an exception that leaves
    one round ends the loop. *)
Definition markup (data : list IDecodedNode) (st : State) : result State :=
  for_each markup_one data st.

End Markup.

(** A tag that [createElement] makes an element of: a qualified name of the
    SVG namespace behind the prefix [s:], a name otherwise. *)
Definition creatable (tag : string) : bool :=
  if negb (String.eqb tag "") && starts_with tag "s:"
  then match validate svgns tag with Ok _ => true | Throw _ => false end
  else valid_name tag.

(** A record whose branch ends in [insert] and whose node can be made: a
    text, a head with its attributes, or a tag that [createElement] accepts
    and that is none of the markers. *)
Definition inserting_record (node : IDecodedNode) : Prop :=
  tag node = "*T"
  ∨ (tag node = "HEAD" ∧ is_Some (attributes node))
  ∨ ((tag node ∉ ["*D"; "*T"; "HTML"; "HEAD"]) ∧ creatable (tag node) = true).

(** [st'] has a node for every id that [st] has one for, and its log starts
    with the log of [st]. *)
Definition grows (st st' : State) : Prop :=
  (∀ i, is_Some (nodes st !! i) → is_Some (nodes st' !! i))
  ∧ console st `prefix_of` console st'.

(** *** A concrete replay

    The target starts as the blank document of a frame: a root with an empty
    head and body. *)

Definition blank_document : State :=
  {| nodes := ∅;
     heap := attach 1 3 (attach 1 2 (attach document 1
               (<[3%nat := blank (ElementNode None "body")]>
                (<[2%nat := blank (ElementNode None "head")]>
                 (<[1%nat := blank (ElementNode None "html")]>
                  (<[document := blank DocumentNode]> ∅))))));
     fresh := 4;
     console := [] |}.

Definition record (i : Z) (p n : option Z) (t : string) (a : list (string * string))
    (v : option string) : IDecodedNode :=
  {| id := i; parent := p; next := n; tag := t; attributes := Some (list_to_map a);
     value := v |}.

Definition root_record : IDecodedNode := record 1 None None "HTML" [("lang", "en")] None.
Definition head_record : IDecodedNode :=
  record 2 (Some 1) None "HEAD" [("*B", "https://example.org/")] None.
Definition style_record : IDecodedNode :=
  record 3 (Some 2) None "STYLE" [("type", "text/css")] (Some "p { margin: 0 }").

Definition style_stream : list IDecodedNode := [root_record; head_record; style_record].

(** A body with a division in it, a record that moves the body under its own
    division, and a paragraph that follows. *)
Definition body_record : IDecodedNode := record 4 (Some 1) None "BODY" [] None.
Definition div_record : IDecodedNode := record 5 (Some 4) None "DIV" [] None.
Definition cyclic_record : IDecodedNode := record 4 (Some 5) None "BODY" [] None.
Definition paragraph_record : IDecodedNode := record 6 (Some 4) None "P" [] None.

Definition cyclic_prefix : list IDecodedNode := [root_record; body_record; div_record].

Definition replay (stream : list IDecodedNode) : State :=
  match markup true stream blank_document with
  | Ok st => st
  | Throw _ => blank_document
  end.

(** What the replay of a stream leaves of the node with id [i]: its
    attributes, text content, parent and children. *)
Definition replayed (stream : list IDecodedNode) (i : Z)
  : option (gmap string string * string * option Ref * list Ref) :=
  match markup true stream blank_document with
  | Ok st =>
      (λ r, let n := node_at (heap st) r in
            (attrs n, textContent r (heap st), parentNode n, childNodes n))
        <$> nodes st !! i
  | Throw _ => None
  end.

End Render.


(** ** The registry, in parts

    Well-formed registries, the relations between a registry and what an
    operation makes of it, and the steps [add] and [update] are made of. *)

Module RegistryMore.
Import Registry.

(** *** Well-formed registries *)

(** The fields of a record that [position], [updateSelector] and [metadata]
    leave alone: they write the position, the selector and the box model
    flag. *)
Definition observed (v : NodeValue)
  : Id * option Id * option Id * list Id * NodeInfo * option string * bool * bool :=
  (id v, parent v, next v, children v, data v, region v,
   active (metadata v), masked (metadata v)).

Definition cosmetic (f : NodeValue → NodeValue) : Prop := ∀ v, observed (f v) = observed v.

(** Every node that has an id is stored under it, with a record. *)
Definition ids_registered (st : State) : Prop :=
  ∀ n i, idMap st !! n = Some i → nodes st !! i = Some n ∧ is_Some (values st !! i).

(** The counter is above every id in use. *)
Definition ids_below_index (st : State) : Prop :=
  ∀ i, is_Some (values st !! i) → (i < index st)%positive.

(** A record is stored under its own id. *)
Definition keyed (st : State) : Prop :=
  ∀ i v, values st !! i = Some v → id v = i.

Definition well_formed (st : State) : Prop :=
  ids_registered st ∧ ids_below_index st ∧ keyed st
  ∧ parents_registered st ∧ children_registered st.

(** [st'] has the records of [st], each with its id, with the parent it had,
    none, or, for the moved node [i], another registered one, and with no
    child that it did not have, [i] apart; the id counter, the id map and the
    node table are the same. *)
Definition evolves (i : option Id) (st st' : State) : Prop :=
  index st' = index st ∧ idMap st' = idMap st ∧ nodes st' = nodes st
  ∧ (∀ j, is_Some (values st !! j) → is_Some (values st' !! j))
  ∧ ∀ j v', values st' !! j = Some v' →
      ∃ v, values st !! j = Some v ∧ id v' = id v
           ∧ (parent v' = parent v ∨ parent v' = None
              ∨ (i = Some j ∧ ∃ pid, parent v' = Some pid ∧ is_Some (values st !! pid)))
           ∧ (∀ c, c ∈ children v' → c ∈ children v ∨ i = Some c).

(** *** The parts of [update] *)

Definition all_fields : list Field := [FTag; FPath; FAttributes; FLayout; FStyle; FValue].

(** Whether the loop over the keys of the new data finds a difference. *)
Definition data_changed (old new : NodeInfo) : bool :=
  existsb (λ field, present new field && diff old new field) all_fields.

(** The stored data after that loop: a key of the new data replaces the
    stored one, a key that the new data do not have is kept. *)
Definition merged (old new : NodeInfo) : NodeInfo :=
  {| tag := tag new;
     path := match path new with Some p => Some p | None => path old end;
     attributes := match attributes new with Some a => Some a | None => attributes old end;
     layout := match layout new with Some l => Some l | None => layout old end;
     style := match style new with Some s => Some s | None => style old end;
     value := match value new with Some v => Some v | None => value old end |}.

(** The records of [st'] and [st] agree in what [proj] reads of them. *)
Definition agree {A} (proj : NodeValue → A) (st st' : State) : Prop :=
  ∀ j, proj <$> values st' !! j = proj <$> values st !! j.

(** [assign] for a key that the new data may not have. *)
Definition assign_if (d new : NodeInfo) (field : Field) : NodeInfo :=
  if present new field then assign d new field else d.

(** After a run of [remove] from the ids [roots], everything below them is
    queued, and what was queued still is. *)
Definition queued_after (roots : list Id) (st st' : State) : Prop :=
  (∀ c d, c ∈ roots → descendant st c d → d ∈ updateMap st')
  ∧ (∀ j, j ∈ updateMap st → j ∈ updateMap st').

(** The label of the [n]-th element that the region [key] has matched; [len]
    is the number of elements of the current match. *)
Definition region_label (key : string) (len n : nat) : string :=
  if (1 <? len)%nat then key +:+ "." +:+ pretty n else key.

(** The tags whose URLs [metadata] tracks. *)
Definition media : list string := ["VIDEO"; "AUDIO"; "LINK"].

Section Parts.

Variable K : Constants.
Variable H : Host.

(** The first part of [add], up to the record being written: the id of
    the node, the id of its parent, and the state. *)
Definition prepare_add (node : LiveNode) (parent : option Node) (data : NodeInfo)
    (st : State) : Id * option Id * State :=
  let '(i, st) := assignId (handle node) st in
  let parentId := lookupId parent st in
  let nextId := getNextId (nextSiblings node) st in
  let region := regionMap st !! handle node in
  let '(st, region, masked) :=
    match parentId with
    | Some pid =>
        match values st !! pid with
        | Some parentValue =>
            (modify pid (push i) st,
             match region with None => Registry.region parentValue | Some _ => region end,
             Registry.masked (metadata parentValue))
        | None => (st, region, true)
        end
    | None => (st, region, true)
    end in
  let st := discoverShadow node st in
  let masked := mask K data masked in
  let st :=
    match attributes data ≫= (.!! CLARITY_REGION_ATTRIBUTE K) with
    | Some r => with_regionMap (<[handle node := r]> (regionMap st)) st
    | None => st
    end in
  let st := with_nodes (<[i := handle node]> (nodes st)) st in
  let st :=
    with_values
      (<[i := {| id := i; parent := parentId; next := nextId; children := [];
                 position := None; data := data; selector := "";
                 region := region;
                 metadata := {| active := true; boxmodel := false; masked := masked |} |}]>
         (values st)) st in
  (i, parentId, st).

(** The move of the record under its new parent, or its removal when the
    new parent is [null]. *)
Definition relink (fuel : nat) (node : LiveNode) (i : Id) (parentId nextId : option Id)
    (source : Source) (st : State) : result State :=
  match parentId with
  | Some pid =>
      _ ← defined (values st !! pid);
      let st :=
        match nextId with
        | Some n =>
            modify pid
              (λ v, set_children (splice_insert (Pos.to_nat n + 1) i (children v)) v) st
        | None => modify pid (push i) st
        end in
      pv ← defined (values st !! pid);
      Ok (modify i
            (set_region
               (match regionMap st !! handle node with
                | Some r => Some r
                | None => region pv
                end)) st)
  | None => remove H fuel i source st
  end.

(** The removal of the id from the child list of the old parent. *)
Definition unlink (i : Id) (oldParentId : option Id) (st : State) : result State :=
  match oldParentId with
  | Some old =>
      ov ← defined (values st !! old);
      match indexOf i (children ov) with
      | Some nodeIndex =>
          Ok (modify old (λ v, set_children (splice_remove nodeIndex (children v)) v) st)
      | None => Ok st
      end
  | None => Ok st
  end.

(** The end of [update]: the shadow root, the data, the selector, the
    metadata and the queue. *)
Definition finish_update (node : LiveNode) (i : Id) (data : NodeInfo) (parentId : option Id)
    (source : Source) (acc : bool * State) : result State :=
  let '(changed, st) := acc in
  '(changed, st) ← for_each (update_field i data) all_fields (changed, discoverShadow node st);
  st ← updateSelector K H i st;
  st ← track_metadata K H (tag data) i parentId st;
  Ok (track H i source changed st).

End Parts.

Definition ids_registeredb (st : State) : bool :=
  forallb (λ ni : nat * positive,
             bool_decide (nodes st !! ni.2 = Some ni.1) && has_key ni.2 (values st))
          (map_to_list (idMap st)).

Definition ids_below_indexb (st : State) : bool :=
  forallb (λ iv : positive * NodeValue, bool_decide (iv.1 < index st)%positive)
          (map_to_list (values st)).

Definition keyedb (st : State) : bool :=
  forallb (λ iv : positive * NodeValue, bool_decide (id iv.2 = iv.1))
          (map_to_list (values st)).

Definition well_formedb (st : State) : bool :=
  ids_registeredb st && ids_below_indexb st && keyedb st
  && parents_registeredb st && children_registeredb st.

End RegistryMore.


(** ** The element state provider, in parts *)

Module ElementMore.
Import Element.

(** The property names that the attribute map of an element answers itself,
    or that its prototypes answer: its own members and those of every
    object. *)
Definition NamedNodeMap_members : list string :=
  ["length"; "item"; "getNamedItem"; "getNamedItemNS"; "setNamedItem"; "setNamedItemNS";
   "removeNamedItem"; "removeNamedItemNS"; "constructor"; "hasOwnProperty";
   "isPrototypeOf"; "propertyIsEnumerable"; "toLocaleString"; "toString"; "valueOf";
   "__proto__"; "__defineGetter__"; "__defineSetter__"; "__lookupGetter__";
   "__lookupSetter__"].

Definition is_digit (c : ascii) : bool :=
  let n := nat_of_ascii c in ((48 <=? n) && (n <=? 57))%nat.

(** A name that [element.attributes[name]] answers with the attribute of
    that name: no string of digits, which reads as an index, no member of
    the map, and no capital in it. *)
Definition plain_name (k : string) : bool :=
  negb (forallb is_digit (String.list_ascii_of_string k))
  && negb (isin k NamedNodeMap_members)
  && String.eqb (toLowerCase k) k.

(** A mask that keeps the length of the text. *)
Definition stars (s : string) : string := string_map (λ _, "*"%char) s.

(** A text field with a placeholder and a title, which are on the mask list,
    and with a value. *)
Definition name_field : LiveElement :=
  {| tagName := "INPUT";
     el_attributes := [("type", "text"); ("placeholder", "Your name"); ("title", "Name")];
     boundingRect := None;
     computed := {| cs_color := "rgb(0, 0, 0)";
                    cs_backgroundColor := "transparent";
                    cs_backgroundImage := "none";
                    cs_overflowX := "visible";
                    cs_overflowY := "visible";
                    cs_visibility := "visible" |};
     scrollLeft := 0%Q;
     scrollTop := 0%Q;
     el_value := Some "Ada" |}.

End ElementMore.


(** ** The reconstructor, in parts *)

Module RenderMore.
Import Render.

(** Two documents hold the same nodes with the same kinds, attributes and
    character data; the links between the nodes may differ. *)
Definition same_content (h h' : gmap nat DomNode) : Prop :=
  ∀ r, (is_Some (h' !! r) ↔ is_Some (h !! r))
       ∧ kind (node_at h' r) = kind (node_at h r)
       ∧ attrs (node_at h' r) = attrs (node_at h r)
       ∧ text (node_at h' r) = text (node_at h r).

(** A function on nodes that changes links only. *)
Definition relinks (f : DomNode → DomNode) : Prop :=
  ∀ n, kind (f n) = kind n ∧ attrs (f n) = attrs n ∧ text (f n) = text n.

(** The tags [markup] has a case of its own for. *)
Definition markers : list string := ["*D"; "*T"; "HTML"; "HEAD"; "STYLE"].

(** The name under which [setAttributes] stores the attribute [k] of a
    record on the element [n]: [setAttribute] lowers the case on an element
    of the HTML namespace, [setAttributeNS], which takes the names behind
    [xlink:], keeps it. *)
Definition attribute_name (n : DomNode) (k : string) : string :=
  if is_html n && negb (starts_with k "xlink:") then toLowerCase k else k.

(** A name that the call [setAttributes] makes for it accepts. *)
Definition settable (k : string) : bool :=
  if starts_with k "xlink:"
  then match validate xlinkns k with Ok _ => true | Throw _ => false end
  else valid_name k.

(** The first loop of [setAttributes] removes every attribute: on an HTML
    element no name holds a capital. *)
Definition removable (n : DomNode) : Prop :=
  is_html n = true → ∀ k, is_Some (attrs n !! k) → toLowerCase k = k.

(** No two names of the map are stored under the same name. *)
Definition distinct_names (n : DomNode) (a : gmap string string) : Prop :=
  ∀ k1 k2, is_Some (a !! k1) → is_Some (a !! k2) →
           attribute_name n k1 = attribute_name n k2 → k1 = k2.

(** The element the default branch works on: the one registered for the id
    of the record, or a new one of its tag. *)
Definition namespace_of (tag : string) : option string :=
  if negb (String.eqb tag "") && starts_with tag "s:" then Some svgns else None.

Definition target (node : IDecodedNode) (st : State) : DomNode :=
  match element (Some (id node)) st with
  | Some e => node_at (heap st) e
  | None => blank (ElementNode (namespace_of (tag node)) (tag node))
  end.

Definition is_ascii (s : string) : Prop :=
  Forall (λ c, (nat_of_ascii c < 128)%nat) (String.list_ascii_of_string s).

(** A text node under the body of the blank document, a record that names a
    sibling which is not under its parent, one with a capital in the name of
    an attribute, and a record with no tag. *)
Definition with_text : State :=
  let '(t, st) := createTextNode "a" blank_document in
  with_nodes (<[7 := t]> (<[3 := 3%nat]> (<[2 := 2%nat]> (nodes st))))
             (with_heap (attach 3 t (heap st)) st).

Definition span_record : IDecodedNode := record 8 (Some 2) (Some 7) "SPAN" [("class", "c")] None.
Definition box_record : IDecodedNode :=
  record 8 (Some 2) (Some 7) "DIV" [("viewBox", "0 0 1 1")] None.
Definition text_record : IDecodedNode := record 9 (Some 3) None "*T" [] (Some "b").
Definition nameless_record : IDecodedNode := record 10 (Some 3) None "" [] None.

End RenderMore.


(** * Properties *)

(** ** Counters *)

Module MetricsFacts.
Import Metrics.

Lemma increment_lookup_fresh key arg st :
  tracker st !! key = None →
  tracker (increment key arg st) !! key
  = Some {| updated := true; counter := default 1 arg + default 1 arg |}.
Proof.
  intros Hnone. unfold increment. cbn [tracker].
  destruct (decide (is_Some (tracker st !! key))) as [[v Hv]|_]; [congruence|].
  rewrite !lookup_alter_eq, lookup_insert_eq. reflexivity.
Qed.

Lemma increment_lookup_present key arg st v :
  tracker st !! key = Some v →
  tracker (increment key arg st) !! key
  = Some {| updated := true; counter := counter v + default 1 arg |}.
Proof.
  intros Hv. unfold increment. cbn [tracker].
  destruct (decide (is_Some (tracker st !! key))) as [_|Hn].
  - rewrite !lookup_alter_eq, Hv. reflexivity.
  - exfalso. apply Hn. eauto.
Qed.

Lemma increment_lookup_other key key' arg st :
  key ≠ key' →
  tracker (increment key arg st) !! key' = tracker st !! key'.
Proof.
  intros Hne. unfold increment. cbn [tracker].
  rewrite !lookup_alter_ne by done.
  destruct (decide _); [done|]. by rewrite lookup_insert_ne.
Qed.

(** C9. A key that the tracker does not hold yet is initialised with [n]
    and then incremented by [n] in the same call, so one [increment(key, n)]
    leaves [2 * n]; a key the tracker holds already grows by exactly [n]. *)
Theorem increment_fresh_key_counts_twice (key : Counter) (n : Z) (st : State) :
  (tracker st !! key = None → read key (increment key (Some n) st) = Some (2 * n))
  ∧ (∀ v, tracker st !! key = Some v →
          read key (increment key (Some n) st) = Some (counter v + n)).
Proof.
  unfold read. split.
  - intros Hnone. rewrite (increment_lookup_fresh _ _ _ Hnone). cbn. f_equal. lia.
  - intros v Hv. rewrite (increment_lookup_present _ _ _ _ Hv). reflexivity.
Qed.

Lemma increment_fresh_key_counts_twice_witness :
  let st0 := {| tracker := ∅; summary := ∅ |} in
  let st1 := increment 3%nat (Some 5) st0 in
  read 3%nat st1 = Some 10 ∧ read 3%nat (increment 3%nat (Some 5) st1) = Some 15.
Proof.
  split.
  - apply (proj1 (increment_fresh_key_counts_twice 3%nat 5 {| tracker := ∅; summary := ∅ |})).
    reflexivity.
  - apply (proj2 (increment_fresh_key_counts_twice 3%nat 5
                    (increment 3%nat (Some 5) {| tracker := ∅; summary := ∅ |}))
                 {| updated := true; counter := 10 |}).
    vm_compute. reflexivity.
Defined.

(** The default argument: [increment(key)] on a fresh key leaves 2. *)
Lemma increment_default_fresh (key : Counter) (st : State) :
  tracker st !! key = None → read key (increment key None st) = Some 2.
Proof.
  intros Hnone. unfold read. rewrite (increment_lookup_fresh _ _ _ Hnone). reflexivity.
Qed.

End MetricsFacts.

(** ** Element capture *)

Module ElementFacts.
Import Element.

Lemma has_key_set_if (b : bool) (k k' v : string) (m : gmap string string) :
  k ≠ k' → has_key k (set_if b k' v m) = has_key k m.
Proof.
  intros Hne. unfold has_key, set_if. destruct b; [|done].
  apply bool_decide_ext. by rewrite lookup_insert_ne.
Qed.

(** Whether the style snapshot records a horizontal overflow depends on the
    computed horizontal overflow alone. *)
Lemma getStyles_overflowX (st : State) (element : LiveElement) (s : gmap string string) :
  (getStyles st element).1 = Some s →
  has_key Styles_OverflowX s
  = isin (cs_overflowX (computed element)) ["auto"; "scroll"; "hidden"].
Proof.
  unfold getStyles. cbv zeta. cbn [fst]. case_match; [|done]. intros [= <-].
  rewrite !has_key_set_if by done.
  destruct (isin (cs_overflowX (computed element)) _) eqn:Hx.
  - unfold set_if at 1. apply bool_decide_eq_true. rewrite lookup_insert_eq. eauto.
  - unfold set_if at 1. rewrite has_key_set_if by done. apply bool_decide_eq_false.
    rewrite lookup_empty. by intros [? ?].
Qed.

Section Capture.

Variables Tags_Script Tags_Meta Tags_Ignore : string.
Variable createGenericLayoutState : LiveElement → string → IElementLayoutState.
Variable mask : string → string.

(** What the code does: for an element that is captured, has a layout
    rectangle and a style snapshot, the scroll offsets are captured exactly
    when the computed horizontal overflow is one of auto, scroll and
    hidden. *)
Lemma scroll_captured_iff_horizontal (w : Window) (st : State) (element : LiveElement)
    (info : INodeInfo) (l : ILayoutRectangle) :
  String.eqb (tagName element) Tags_Script || String.eqb (tagName element) Tags_Meta = false →
  is_Some (style (createElementLayoutState Tags_Script Tags_Meta Tags_Ignore
                    createGenericLayoutState mask w st element info).1) →
  layout (createElementLayoutState Tags_Script Tags_Meta Tags_Ignore
            createGenericLayoutState mask w st element info).1 = Some l →
  is_Some (scrollX l)
  ↔ isin (cs_overflowX (computed element)) ["auto"; "scroll"; "hidden"] = true.
Proof.
  intros Htag. unfold createElementLayoutState. cbv zeta. rewrite Htag.
  destruct (getLayout w element) as [l0|] eqn:Hl.
  - destruct (getStyles st element) as [sty st1] eqn:Hs. cbn.
    intros [s ->]. pose proof (getStyles_overflowX st element s) as Hx.
    rewrite Hs in Hx. specialize (Hx eq_refl). rewrite Hx.
    unfold getLayout in Hl. destruct (boundingRect element); [|done].
    injection Hl as <-.
    destruct (isin _ _); cbn; intros [= <-]; cbn; split; intros; eauto; try done.
  - cbn. intros [? ?]. done.
Qed.

End Capture.

(** C5 at an element that scrolls vertically only: it has a layout rectangle
    and a style snapshot that records the vertical overflow, and its scroll
    offsets are not captured. *)
Theorem vertical_overflow_scroll_not_captured :
  (λ s, (s !! Styles_OverflowY, s !! Styles_OverflowX)) <$> style (capture vertical_scroller)
  = Some (Some "scroll", None)
  ∧ (λ l, (scrollX l, scrollY l)) <$> layout (capture vertical_scroller)
    = Some (None, None).
Proof. split; vm_compute; reflexivity. Qed.

End ElementFacts.

(** ** The node registry *)

Module RegistryFacts.
Import Registry.

#[local] Arguments modify : simpl never.
#[local] Arguments with_values : simpl never.

Lemma lookup_modify (i j : positive) (f : NodeValue → NodeValue) (st : State) :
  values (modify i f st) !! j
  = if decide (i = j) then f <$> values st !! j else values st !! j.
Proof. unfold modify, with_values. cbn. rewrite lookup_alter. case_decide; by subst. Qed.

Section Facts.

Variable K : Constants.
Variable H : Host.

(** *** Masking *)

Lemma has_key_true `{Countable A} {V} (k : A) (o : gmap A V) :
  has_key k o = true ↔ is_Some (o !! k).
Proof. unfold has_key. apply bool_decide_eq_true. Qed.

(** C3. When the attribute map holds the unmask override, [mask] answers
    [false] whatever the tag, the type and name attributes, a mask override
    and the inherited flag are: the override is the last assignment. *)
Theorem unmask_override_wins (data : NodeInfo) (attrs : gmap string string) (inherited : bool) :
  attributes data = Some attrs →
  is_Some (attrs !! UNMASK_ATTRIBUTE K) →
  mask K data inherited = false.
Proof.
  intros Ha Hu. unfold mask. rewrite Ha.
  apply has_key_true in Hu. rewrite Hu. reflexivity.
Qed.

(** *** The flush *)

Lemma with_values_id (st : State) : with_values (values st) st = st.
Proof. by destruct st. Qed.

Lemma with_values_modify (vs : gmap positive NodeValue) i f (st : State) :
  with_values vs (modify i f st) = with_values vs st.
Proof. reflexivity. Qed.

Lemma flush_path_ext (q : list positive) (st st' : State) (v v' : NodeValue) :
  parent v = parent v' →
  attributes (data v) = attributes (data v') →
  selector v = selector v' →
  (∀ pid, selector <$> values st !! pid = selector <$> values st' !! pid) →
  flush_path K q st v = flush_path K q st' v'.
Proof.
  intros Hp Ha Hs Hv. unfold flush_path, carries_id. rewrite <- Hp, <- Ha, <- Hs.
  destruct (parent v) as [pid|]; [|done].
  case_match; [done|]. specialize (Hv pid).
  destruct (values st !! pid), (values st' !! pid); cbn in *; simplify_eq; congruence.
Qed.

Lemma flush_path_step (q : list positive) (st : State) (i : positive) (p : option string)
    (v : NodeValue) :
  flush_path K q (modify i (with_path p) st) v = flush_path K q st v.
Proof.
  apply flush_path_ext; try done. intros pid. rewrite lookup_modify.
  case_decide; [|done]. by destruct (values st !! pid).
Qed.

Lemma flush_loop (q l : list positive) : ∀ (out out' : list positive) (st st' : State),
  for_each (updates_step K q) l (out, st) = Ok (out', st') →
  out' = out ++ filter (λ i, is_Some (values st !! i)) l
  ∧ st' = with_values (values st') st
  ∧ ∀ j, flushed K q l st st' j.
Proof.
  induction l as [|i l IH]; intros out out' st st' Hrun; cbn in Hrun.
  - injection Hrun as <- <-. rewrite app_nil_r, with_values_id. repeat split.
    intros j. unfold flushed. destruct (values st !! j); [|done].
    rewrite decide_False; [done|]. apply not_elem_of_nil.
  - unfold updates_step at 1 in Hrun.
    destruct (values st !! i) as [v|] eqn:Hi.
    + destruct (flush_path K q st v) as [p|e] eqn:Hp; cbn in Hrun; [|done].
      apply IH in Hrun as (-> & Hframe & Hj). split; [|split].
      * rewrite filter_cons_True by (rewrite Hi; eauto).
        rewrite <- app_assoc. cbn. f_equal. f_equal.
        apply list_filter_iff. intros j. rewrite lookup_modify.
        case_decide; [|done]. subst. rewrite Hi. cbn. split; eauto.
      * rewrite Hframe at 1. apply with_values_modify.
      * intros j. specialize (Hj j). unfold flushed in *.
        rewrite lookup_modify in Hj. destruct (decide (i = j)) as [<-|Hne].
        -- rewrite Hi in *. cbn in Hj. rewrite decide_True by apply list_elem_of_here.
           exists p. split; [done|]. case_decide as Hin.
           ++ destruct Hj as (p' & Hp' & ->). rewrite flush_path_step in Hp'.
              rewrite (flush_path_ext q st st (with_path p v) v) in Hp' by done.
              rewrite Hp in Hp'. by injection Hp' as <-.
           ++ done.
        -- destruct (values st !! j) as [w|]; [|done].
           rewrite flush_path_step in Hj.
           destruct (decide (j ∈ l)) as [Hin|Hnin].
           ++ rewrite decide_True by (by apply list_elem_of_further). done.
           ++ rewrite decide_False; [done|].
              intros [?|?]%elem_of_cons; by simplify_eq.
    + apply IH in Hrun as (-> & Hframe & Hj). split; [|split; [done|]].
      * rewrite filter_cons_False; [done|]. rewrite Hi. by intros [? ?].
      * intros j. specialize (Hj j). unfold flushed in *.
        destruct (values st !! j) as [w|] eqn:Hw; [|done].
        destruct (decide (j ∈ l)) as [Hin|Hnin].
        -- rewrite decide_True by (by apply list_elem_of_further). done.
        -- rewrite decide_False; [done|].
           intros [?|?]%elem_of_cons; by simplify_eq.
Qed.

Lemma flush_path_defined (q : list positive) (st : State) (i : positive) (v : NodeValue) :
  parents_registered st → values st !! i = Some v → ∃ p, flush_path K q st v = Ok p.
Proof.
  intros Hwf Hv. unfold flush_path. destruct (parent v) as [pid|] eqn:Hp; [|eauto].
  case_match; [eauto|]. destruct (Hwf i v pid Hv Hp) as [pv ->]. cbn. eauto.
Qed.

Lemma parents_registered_with_path (st : State) (i : positive) (p : option string) :
  parents_registered st → parents_registered (modify i (with_path p) st).
Proof.
  intros Hwf j v pid. rewrite !lookup_modify. intros Hv Hp.
  assert (∃ w, values st !! j = Some w ∧ parent w = Some pid) as (w & Hw & Hpw).
  { case_decide; [|eauto]. destruct (values st !! j) as [w|]; [|done].
    injection Hv as <-. eauto. }
  destruct (Hwf j w pid Hw Hpw) as [pv Hpv].
  rewrite Hpv. destruct (decide (i = pid)); cbn; eauto.
Qed.

Lemma flush_loop_runs (q l : list positive) : ∀ (out : list positive) (st : State),
  parents_registered st →
  ∃ out' st', for_each (updates_step K q) l (out, st) = Ok (out', st').
Proof.
  induction l as [|i l IH]; intros out st Hwf; cbn; [eauto|].
  unfold updates_step at 1. destruct (values st !! i) as [v|] eqn:Hi.
  - destruct (flush_path_defined q st i v Hwf Hi) as [p ->]. cbn.
    apply IH. by apply parents_registered_with_path.
  - cbn. by apply IH.
Qed.

(** C6. In a registry in which every parent a record names is registered,
    the flush returns, leaves the queue empty, and a second flush right after
    it returns the empty list and changes nothing. *)
Theorem flush_twice_is_empty (st : State) :
  parents_registered st →
  ∃ out st', updates K st = Ok (out, st')
             ∧ updateMap st' = []
             ∧ updates K st' = Ok ([], st').
Proof.
  intros Hwf. unfold updates at 1.
  destruct (flush_loop_runs (updateMap st) (updateMap st) [] st Hwf) as (ids & st1 & ->).
  eexists _, _. split; [reflexivity|]. split; reflexivity.
Qed.

(** C2, as amended. For a record [r] that a flush returns: its path is
    null when it has no parent, when [r] itself carries the id attribute, or
    when its selector is empty. Otherwise the path is null when the parent is
    pending and its id is below the length of the queue, and it is the
    selector of the parent when the parent is not pending and its id is not
    below the length of the queue. *)
Theorem flush_path_by_design (st st' : State) (out : list NodeValue) (r : NodeValue) :
  updates K st = Ok (out, st') →
  r ∈ out →
  ((parent r = None ∨ carries_id K r = true ∨ selector r = "") → path (data r) = Some None)
  ∧ (∀ pid, parent r = Some pid → carries_id K r = false → selector r ≠ "" →
       (pid ∈ updateMap st → in_array pid (updateMap st) = true →
        path (data r) = Some None)
       ∧ (pid ∉ updateMap st → in_array pid (updateMap st) = false →
          ∃ pv, values st !! pid = Some pv ∧ path (data r) = Some (Some (selector pv)))).
Proof.
  unfold updates. intros Hrun Hr.
  destruct (for_each _ _ _) as [[ids st1]|e] eqn:Hloop; [|done].
  injection Hrun as <- <-.
  apply flush_loop in Hloop as (-> & _ & Hj).
  apply list_elem_of_omap in Hr as (i & Hi & Hri). cbn in Hi.
  apply list_elem_of_filter in Hi as [[v Hv] Hi].
  specialize (Hj i). unfold flushed in Hj. rewrite Hv, decide_True in Hj by done.
  destruct Hj as (p & Hp & Hst1). rewrite Hst1 in Hri. injection Hri as <-.
  change (carries_id K (with_path p v)) with (carries_id K v).
  change (parent (with_path p v)) with (parent v).
  change (selector (with_path p v)) with (selector v).
  change (path (data (with_path p v))) with (Some p).
  unfold flush_path in Hp. cbv zeta in Hp.
  split.
  - intros Hnull. destruct (parent v) as [pid|]; [|by injection Hp as <-].
    destruct Hnull as [?|[Hid|Hsel]]; [done| |].
    + rewrite Hid, orb_true_r in Hp. by injection Hp as <-.
    + rewrite Hsel, orb_true_r in Hp. by injection Hp as <-.
  - intros pid Hpid Hid Hsel. rewrite Hpid, Hid in Hp.
    assert ((String.length (selector v) =? 0)%nat = false) as Hlen.
    { apply Nat.eqb_neq. destruct (selector v); [done|]. cbn. lia. }
    rewrite Hlen, !orb_false_r in Hp. split.
    + intros _ Hin. rewrite Hin in Hp. by injection Hp as <-.
    + intros _ Hin. rewrite Hin in Hp.
      destruct (values st !! pid) as [pv|]; [|done]. cbn in Hp. injection Hp as <-. eauto.
Qed.
(** *** Removal *)

Lemma kept_refl st : kept st st.
Proof. unfold kept. split_and!; [done..|]. intros j. reflexivity. Qed.

Lemma kept_trans st1 st2 st3 : kept st1 st2 → kept st2 st3 → kept st1 st3.
Proof.
  intros (?&?&?&Hh1) (?&?&?&Hh2). unfold kept. split_and!; [congruence..|].
  intros j. etrans; [apply Hh1|apply Hh2].
Qed.

Lemma kept_modify i f st : kept st (modify i f st).
Proof. unfold kept. split_and!; [done..|]. intros j. reflexivity. Qed.

Lemma kept_track i source changed st : kept st (track H i source changed st).
Proof.
  unfold track. repeat split.
  - destruct (devtools H); repeat case_match; done.
  - destruct (devtools H); repeat case_match; done.
  - destruct (devtools H); repeat case_match; done.
  - intros j. unfold history.
    assert (∀ u, changes (with_updateMap u st) = changes st) as Hu by done.
    destruct (devtools H); [|repeat case_match; done].
    cbn. destruct (decide (i = j)) as [<-|Hne].
    + rewrite lookup_insert_eq. cbn. repeat case_match; rewrite ?Hu; by apply prefix_app_r.
    + rewrite lookup_insert_ne by done. repeat case_match; by rewrite ?Hu.
Qed.

Lemma values_track i source changed st : values (track H i source changed st) = values st.
Proof. unfold track. destruct (devtools H); repeat case_match; done. Qed.

Lemma depth_bounded_shrinks n st st' x :
  shrinks st st' → depth_bounded n (values st) x → depth_bounded n (values st') x.
Proof.
  intros Hs. revert x. induction n as [|n IH]; intros x; [done|].
  cbn. intros (v & Hv & Hc). destruct (Hs x v Hv) as (v' & Hv' & [Heq|Heq]).
  - exists v'. split; [done|]. rewrite Heq. eapply Forall_impl; [exact Hc|]. apply IH.
  - exists v'. split; [done|]. rewrite Heq. constructor.
Qed.

Lemma child_of_shrinks st st' a b :
  (∀ j, values st' !! j = values st !! j ∨ deactivated st' j) →
  child_of st' a b → child_of st a b.
Proof.
  intros Hs (v & Hv & Hb). destruct (Hs a) as [Heq|(w & Hw & _ & Hnil)].
  - exists v. by rewrite <- Heq.
  - rewrite Hv in Hw. injection Hw as <-. rewrite Hnil in Hb. by apply elem_of_nil in Hb.
Qed.

Lemma descendant_shrinks st st' a b :
  (∀ j, values st' !! j = values st !! j ∨ deactivated st' j) →
  descendant st' a b → descendant st a b.
Proof.
  intros Hs. induction 1 as [|a c b Hac _ IH]; [apply rtc_refl|].
  eapply rtc_l; [|exact IH]. by eapply child_of_shrinks.
Qed.

(** A path of [st] survives in [st'] unless it runs into a node whose whole
    subtree has been deactivated. *)
Lemma descendant_survives st st' a b :
  (∀ j, values st' !! j = values st !! j ∨ ∀ z, descendant st j z → deactivated st' z) →
  descendant st a b → descendant st' a b ∨ deactivated st' b.
Proof.
  intros Hs. induction 1 as [a|a c b Hac Hcb IH]; [left; apply rtc_refl|].
  destruct (Hs a) as [Heq|Hall].
  - destruct IH as [IH|IH]; [|by right]. left. eapply rtc_l; [|exact IH].
    destruct Hac as (v & Hv & Hc). exists v. by rewrite Heq.
  - right. apply Hall. by eapply rtc_l.
Qed.

Lemma deactivated_set_children i st d :
  deactivated st d → deactivated (modify i (set_children []) st) d.
Proof.
  intros (v & Hv & Ha & Hc). unfold deactivated. rewrite lookup_modify.
  case_decide; subst; rewrite Hv; cbn; eauto.
Qed.

Lemma removed_unchanged_or_deactivated roots st st' j :
  removed roots st st' → values st' !! j = values st !! j ∨ deactivated st' j.
Proof. intros (HA & HB & _). destruct (HB j) as [?|(c & ? & ?)]; eauto. Qed.

Lemma removed_shrinks roots st st' : removed roots st st' → shrinks st st'.
Proof.
  intros Hr j v Hv. destruct (removed_unchanged_or_deactivated roots st st' j Hr)
    as [Heq|(w & Hw & _ & Hnil)].
  - exists v. rewrite Heq. eauto.
  - exists w. eauto.
Qed.

Lemma removed_keeps_deactivated roots st st' d :
  removed roots st st' → deactivated st d → deactivated st' d.
Proof.
  intros (HA & HB & _) Hd. destruct (HB d) as [Heq|(c & Hc & Hcd)]; [|eauto].
  destruct Hd as (v & Hv & ?). exists v. by rewrite Heq.
Qed.

Lemma remove_loop (n : nat) (source : Source) :
  (∀ i st, depth_bounded n (values st) i →
           ∃ st', remove H n i source st = Ok st' ∧ removed [i] st st') →
  ∀ cs st, Forall (depth_bounded n (values st)) cs →
           ∃ st', for_each (λ child, remove H n child source) cs st = Ok st'
                  ∧ removed cs st st'.
Proof.
  intros Hrem. induction cs as [|c cs IH]; intros st Hcs; cbn.
  - exists st. split; [done|]. split; [|split; [by left|apply kept_refl]].
    intros c d Hc. by apply elem_of_nil in Hc.
  - apply Forall_cons in Hcs as [Hc Hcs].
    destruct (Hrem c st Hc) as (s1 & -> & Hr1). cbn.
    pose proof (removed_shrinks _ _ _ Hr1) as Hsh.
    destruct (IH s1) as (s2 & -> & Hr2).
    { eapply Forall_impl; [exact Hcs|]. intros x. by apply depth_bounded_shrinks. }
    exists s2. split; [done|].
    pose proof Hr1 as (HA1 & HB1 & HK1). pose proof Hr2 as (HA2 & HB2 & HK2).
    split; [|split].
    + intros c0 d [->|Hc0]%elem_of_cons Hd.
      * eapply removed_keeps_deactivated; [exact Hr2|]. eapply HA1; [|exact Hd].
        apply list_elem_of_here.
      * destruct (descendant_survives st s1 c0 d) as [Hd1|Hd1]; [|exact Hd| |].
        -- intros j. destruct (HB1 j) as [?|(c' & ->%list_elem_of_singleton & Hcj)]; [by left|].
           right. intros z Hz. eapply HA1; [apply list_elem_of_here|].
           eapply rtc_trans; [exact Hcj|exact Hz].
        -- by eapply HA2.
        -- by eapply removed_keeps_deactivated.
    + intros j. destruct (HB2 j) as [Heq|(c' & Hc' & Hd')].
      * rewrite Heq. destruct (HB1 j) as [?|(c' & ->%list_elem_of_singleton & Hcj)]; [by left|].
        right. exists c. split; [apply list_elem_of_here|done].
      * right. exists c'. split; [by apply list_elem_of_further|].
        eapply descendant_shrinks; [|exact Hd'].
        intros x. by eapply removed_unchanged_or_deactivated.
    + by eapply kept_trans.
Qed.

Lemma child_of_same_children st st' a b :
  (∀ j, children <$> values st' !! j = children <$> values st !! j) →
  child_of st a b → child_of st' a b.
Proof.
  intros Hs (v & Hv & Hb). specialize (Hs a). rewrite Hv in Hs.
  destruct (values st' !! a) as [w|] eqn:Hw; [|done].
  exists w. split; [done|]. cbn in Hs. by injection Hs as ->.
Qed.

Lemma descendant_same_children st st' a b :
  (∀ j, children <$> values st' !! j = children <$> values st !! j) →
  descendant st a b → descendant st' a b.
Proof.
  intros Hs. induction 1 as [|a c b Hac _ IH]; [apply rtc_refl|].
  eapply rtc_l; [|exact IH]. by eapply child_of_same_children.
Qed.

Lemma lookup_detached i source st j :
  values (detached H i source st) !! j
  = if decide (i = j)
    then (λ v, set_parent None (set_metadata (set_active false (metadata v)) v))
           <$> values st !! j
    else values st !! j.
Proof.
  unfold detached. rewrite values_track, !lookup_modify.
  case_decide; [|done]. by destruct (values st !! j).
Qed.

Lemma children_detached i source st j :
  children <$> values (detached H i source st) !! j = children <$> values st !! j.
Proof.
  rewrite lookup_detached. case_decide; [|done]. by destruct (values st !! j).
Qed.

Lemma kept_detached i source st : kept st (detached H i source st).
Proof.
  unfold detached. eapply kept_trans; [|apply kept_track].
  eapply kept_trans; apply kept_modify.
Qed.

Lemma remove_spec (n : nat) (source : Source) : ∀ i st,
  depth_bounded n (values st) i →
  ∃ st', remove H n i source st = Ok st' ∧ removed [i] st st'.
Proof.
  induction n as [|n IH]; intros i st; [done|].
  intros (v & Hv & Hc). cbn [remove]. rewrite Hv. cbn.
  fold (detached H i source st).
  pose proof (children_detached i source st) as Hsame.
  destruct (remove_loop n source IH (children v) (detached H i source st)) as (st4 & -> & Hr).
  { eapply Forall_impl; [exact Hc|]. intros x. apply depth_bounded_shrinks.
    intros j w Hw. specialize (Hsame j). rewrite Hw in Hsame.
    destruct (values (detached H i source st) !! j) as [w'|]; [|done].
    exists w'. split; [done|]. left. cbn in Hsame. by injection Hsame. }
  cbn. eexists. split; [reflexivity|].
  pose proof Hr as (HA & HB & HK).
  assert (deactivated (modify i (set_children []) st4) i) as Hi.
  { destruct (HB i) as [Heq|(c & Hc' & Hd)].
    - unfold deactivated. rewrite lookup_modify, decide_True by done.
      rewrite Heq, lookup_detached, decide_True, Hv by done. cbn. eauto.
    - apply deactivated_set_children. by eapply HA. }
  split; [|split].
  - intros c d ->%list_elem_of_singleton Hd.
    apply rtc_inv in Hd as [<-|(c' & (w & Hw & Hc') & Hd)]; [done|].
    rewrite Hv in Hw. injection Hw as <-.
    apply deactivated_set_children. eapply HA; [exact Hc'|].
    eapply descendant_same_children; [|exact Hd]. apply children_detached.
  - intros j. destruct (decide (i = j)) as [<-|Hne].
    { right. exists i. split; [apply list_elem_of_here|apply rtc_refl]. }
    rewrite lookup_modify, decide_False by done.
    destruct (HB j) as [Heq|(c & Hc' & Hd)].
    + left. by rewrite Heq, lookup_detached, decide_False.
    + right. exists i. split; [apply list_elem_of_here|].
      eapply rtc_l; [exists v; split; [exact Hv|exact Hc']|].
      eapply descendant_same_children; [|exact Hd].
      intros x. symmetry. apply children_detached.
  - eapply kept_trans; [apply kept_detached|].
    eapply kept_trans; [exact HK|apply kept_modify].
Qed.

(** C7. When the child lists under [i] are registered and at most [fuel]
    deep, [remove] returns, and then [i] and every id reached from it through
    child lists is deactivated with an empty child list; the history of every
    id is kept (it is a prefix of the new one), every registered id stays
    registered, and the id counter and the id map are unchanged. *)
Theorem remove_deactivates_subtree (fuel : nat) (i : positive) (source : Source) (st : State) :
  depth_bounded fuel (values st) i →
  ∃ st', remove H fuel i source st = Ok st'
         ∧ (∀ d, descendant st i d → deactivated st' d)
         ∧ (∀ j, history j st `prefix_of` history j st')
         ∧ (∀ j, is_Some (values st !! j) → is_Some (values st' !! j))
         ∧ index st' = index st ∧ idMap st' = idMap st.
Proof.
  intros Hwf. destruct (remove_spec fuel source i st Hwf) as (st' & Hrun & HA & HB & HK).
  exists st'. split; [done|]. destruct HK as (Hidx & Hid & _ & Hh).
  split_and!; try done.
  - intros d. apply HA, list_elem_of_here.
  - intros j Hj. destruct (HB j) as [->|(c & Hc & Hd)]; [done|].
    destruct (HA c j Hc Hd) as (w & -> & _). eauto.
Qed.
(** *** First observation *)

Lemma same_masks_refl st : same_masks st st.
Proof. by intros j. Qed.

Lemma same_masks_trans st1 st2 st3 :
  same_masks st1 st2 → same_masks st2 st3 → same_masks st1 st3.
Proof. intros H1 H2 j. by rewrite H2, H1. Qed.

Lemma same_masks_modify i f st :
  (∀ v, masked (metadata (f v)) = masked (metadata v)) → same_masks st (modify i f st).
Proof.
  intros Hf j. unfold masked_at. rewrite lookup_modify.
  case_decide; [|done]. destruct (values st !! j); cbn; [|done]. by rewrite Hf.
Qed.

Lemma same_masks_values st st' : values st' = values st → same_masks st st'.
Proof. intros Hv j. unfold masked_at. by rewrite Hv. Qed.

Lemma same_masks_registered st st' j :
  same_masks st st' → is_Some (values st !! j) → is_Some (values st' !! j).
Proof.
  intros Hs [v Hv]. specialize (Hs j). unfold masked_at in Hs. rewrite Hv in Hs.
  destruct (values st' !! j); [eauto|done].
Qed.

Lemma indexOf_lt {A} `{EqDecision A} (x : A) (l : list A) (n : nat) :
  indexOf x l = Some n → (n < length l)%nat.
Proof.
  unfold indexOf. destruct (list_find _ l) as [[k y]|] eqn:Hf; [|done].
  intros [= <-]. apply list_find_Some in Hf as (Hk & _). by eapply lookup_lt_Some.
Qed.

Lemma position_of_ok (parent : option positive) (i : positive) (st : State) :
  children_registered st →
  is_Some (values st !! i) →
  (∀ pid, parent = Some pid → is_Some (values st !! pid)) →
  ∃ st', position_of K parent i st = Ok st' ∧ same_masks st st'.
Proof.
  intros Hwf [child Hchild] Hparent. unfold position_of. rewrite Hchild. cbn.
  destruct parent as [pid|]; [|eauto using same_masks_refl].
  destruct (is_position_tag _ || _); [|eauto using same_masks_refl].
  destruct (Hparent pid eq_refl) as [p Hp].
  set (st1 := modify i (set_position (Some 1%nat)) st).
  assert (same_masks st st1) as Hs1 by (by apply same_masks_modify).
  assert (∃ p1, values st1 !! pid = Some p1 ∧ children p1 = children p) as (p1 & Hp1 & Hc1).
  { unfold st1. rewrite lookup_modify. case_decide; rewrite Hp; cbn; eauto. }
  rewrite Hp1. cbn. destruct (indexOf (id child) (children p1)) as [[|idx]|] eqn:Hidx;
    [eauto..| |eauto].
  apply indexOf_lt in Hidx.
  destruct (lookup_lt_is_Some_2 (children p1) idx) as [c Hc]; [lia|].
  rewrite Hc. cbn.
  assert (is_Some (values st1 !! c)) as [sibling ->].
  { eapply same_masks_registered; [exact Hs1|]. eapply Hwf; [exact Hp|].
    rewrite <- Hc1. by eapply list_elem_of_lookup_2. }
  cbn. case_match; [|eauto].
  eexists. split; [reflexivity|].
  eapply same_masks_trans; [exact Hs1|]. by apply same_masks_modify.
Qed.

Lemma updateSelector_ok (i : positive) (st : State) :
  children_registered st →
  is_Some (values st !! i) →
  ∃ st', updateSelector K H i st = Ok st' ∧ same_masks st st'.
Proof.
  intros Hwf [value Hvalue]. unfold updateSelector. rewrite Hvalue. cbn.
  destruct (position_of_ok
              (match parent value with
               | Some pid => if has_key pid (values st) then Some pid else None
               | None => None
               end) i st Hwf) as (st1 & -> & Hs1); [eauto| |].
  { intros pid. destruct (parent value) as [q|]; [|done].
    destruct (has_key q (values st)) eqn:Hq; [|done].
    intros [= <-]. by apply bool_decide_eq_true in Hq. }
  cbn. destruct (same_masks_registered st st1 i Hs1) as [value1 ->]; [eauto|]. cbn.
  eexists. split; [reflexivity|].
  eapply same_masks_trans; [exact Hs1|].
  eapply same_masks_trans; [|by apply same_masks_modify].
  case_match; [|apply same_masks_refl]. by apply same_masks_values.
Qed.

Lemma track_metadata_ok (tag : string) (i : positive) (parentId : option positive)
    (st : State) :
  is_Some (values st !! i) →
  ∃ st', track_metadata K H tag i parentId st = Ok st' ∧ same_masks st st'.
Proof.
  intros [value Hvalue]. unfold track_metadata.
  destruct parentId; [|eauto using same_masks_refl]. rewrite Hvalue. cbn.
  eexists. split; [reflexivity|].
  assert (∀ s, same_masks s (modify i (λ v, set_metadata (set_boxmodel true (metadata v)) v) s))
    as Hbox by (intros s; by apply same_masks_modify).
  destruct (bool_decide _).
  - case_match; [eapply same_masks_trans; [|apply Hbox]|]; by apply same_masks_values.
  - destruct (String.eqb tag "IFRAME"); [destruct (config_lean H)|].
    + case_match; [apply Hbox|apply same_masks_refl].
    + case_match; [eapply same_masks_trans; [|apply Hbox]|]; apply Hbox.
    + case_match; [apply Hbox|apply same_masks_refl].
Qed.

Lemma values_assignId (n : nat) (st : State) : values (assignId n st).2 = values st.
Proof. unfold assignId. by destruct (idMap st !! n). Qed.

Lemma values_discoverShadow (node : LiveNode) (st : State) :
  values (discoverShadow node st) = values st.
Proof. unfold discoverShadow. repeat case_match; done. Qed.

(** Registering [i] with no children, after it was pushed on a child list,
    keeps every child registered. *)
Lemma children_registered_insert (st st' : State) (i : positive) (v : NodeValue)
    (f : NodeValue → NodeValue) (pid : option positive) :
  children_registered st →
  children v = [] →
  (∀ w c, c ∈ children (f w) → c ∈ children w ∨ c = i) →
  values st' = <[i := v]> (from_option (λ p, alter f p (values st)) (values st) pid) →
  children_registered st'.
Proof.
  intros Hwf Hv Hf Hst' j w c. rewrite Hst'.
  assert (∀ x, is_Some (values st !! x) →
               is_Some (<[i := v]> (from_option (λ p, alter f p (values st)) (values st) pid) !! x))
    as Hdom.
  { intros x Hx. destruct (decide (i = x)) as [<-|Hne].
    - rewrite lookup_insert_eq. eauto.
    - rewrite lookup_insert_ne by done. destruct pid as [p|]; cbn; [|done].
      by apply lookup_alter_is_Some. }
  destruct (decide (i = j)) as [<-|Hne].
  - rewrite lookup_insert_eq. intros [= <-]. rewrite Hv. by intros ?%elem_of_nil.
  - rewrite lookup_insert_ne by done. intros Hw Hc.
    assert (∃ w0, values st !! j = Some w0 ∧ (c ∈ children w0 ∨ c = i)) as (w0 & Hw0 & [Hc0| ->]).
    { destruct pid as [p|]; cbn in Hw; [|eauto].
      apply lookup_alter_Some in Hw as [(<- & w0 & Hw0 & ->)|(_ & Hw)]; eauto. }
    + apply Hdom. by eapply Hwf.
    + rewrite lookup_insert_eq. eauto.
Qed.

(** The end of [add], from the state in which [values[id]] has just been
    written. *)
Lemma add_registers (i : positive) (newv : NodeValue) (tag : string)
    (parentId pushed : option positive) (source : Source) (st0 st6 : State) :
  children_registered st0 →
  children newv = [] →
  values st6
  = <[i := newv]> (from_option (λ p, alter (push i) p (values st0)) (values st0) pushed) →
  ∃ st', (st ← updateSelector K H i st6;
          st ← track_metadata K H tag i parentId st;
          Ok (track H i source true st)) = Ok st'
         ∧ masked_at st' i = Some (masked (metadata newv)).
Proof.
  intros Hwf Hnil Hv6.
  assert (children_registered st6) as Hwf6.
  { eapply (children_registered_insert st0 st6 i newv (push i) pushed); [done|done| |done].
    intros w c. unfold push. cbn. rewrite elem_of_app, list_elem_of_singleton. tauto. }
  assert (masked_at st6 i = Some (masked (metadata newv))) as Hm6.
  { unfold masked_at. by rewrite Hv6, lookup_insert_eq. }
  assert (is_Some (values st6 !! i)) as Hi6 by (rewrite Hv6, lookup_insert_eq; eauto).
  destruct (updateSelector_ok i st6 Hwf6 Hi6) as (st7 & -> & Hs7). cbn.
  destruct (track_metadata_ok tag i parentId st7) as (st8 & -> & Hs8).
  { by eapply same_masks_registered. }
  cbn. eexists. split; [reflexivity|].
  unfold masked_at. rewrite values_track. fold (masked_at st8 i). by rewrite Hs8, Hs7.
Qed.

(** C10. In a registry whose child lists hold registered ids, [add]
    returns and stores for the node the flag that [mask] computes from a
    default: [true] when the parent is [null], has no id or is not
    registered, and the flag of the parent's record when it is registered. *)
Theorem add_masked_default (node : LiveNode) (parent : option nat) (data : NodeInfo)
    (source : Source) (st : State) :
  children_registered st →
  ∃ st', add K H node parent data source st = Ok st'
         ∧ (parentValue_of node parent st = None →
            masked_at st' (assignId (handle node) st).1 = Some (mask K data true))
         ∧ (∀ parentValue, parentValue_of node parent st = Some parentValue →
            masked_at st' (assignId (handle node) st).1
            = Some (mask K data (masked (metadata parentValue)))).
Proof.
  intros Hwf. unfold add, parentValue_of.
  pose proof (values_assignId (handle node) st) as Hv1.
  destruct (assignId (handle node) st) as [i st1]. cbn [fst snd] in *.
  destruct (lookupId parent st1) as [pid|] eqn:Hpid;
    [destruct (values st1 !! pid) as [pv|] eqn:Hpv|]; cbn [mbind option_bind];
    cbv beta iota zeta.
  - match goal with
    | |- ∃ st', updateSelector K H i ?s ≫= _ = _ ∧ _ =>
        match s with
        | context [<[i := ?v]> _] =>
            destruct (add_registers i v (tag data) (Some pid) (Some pid) source st s Hwf)
              as (st' & Hrun & Hm)
        end
    end.
    3:{ exists st'. split; [exact Hrun|]. rewrite Hm. cbn. rewrite Hpv.
        split; [done|]. by intros ? [= <-]. }
    + reflexivity.
    + cbn. rewrite <- Hv1. repeat case_match; cbn; by rewrite ?values_discoverShadow.
  - match goal with
    | |- ∃ st', updateSelector K H i ?s ≫= _ = _ ∧ _ =>
        match s with
        | context [<[i := ?v]> _] =>
            destruct (add_registers i v (tag data) (Some pid) None source st s Hwf)
              as (st' & Hrun & Hm)
        end
    end.
    3:{ exists st'. split; [exact Hrun|]. rewrite Hm. cbn. rewrite Hpv.
        split; [done|]. by intros ? [=]. }
    + reflexivity.
    + cbn. rewrite <- Hv1. repeat case_match; cbn; by rewrite ?values_discoverShadow.
  - match goal with
    | |- ∃ st', updateSelector K H i ?s ≫= _ = _ ∧ _ =>
        match s with
        | context [<[i := ?v]> _] =>
            destruct (add_registers i v (tag data) None None source st s Hwf)
              as (st' & Hrun & Hm)
        end
    end.
    3:{ exists st'. split; [exact Hrun|]. rewrite Hm. cbn. split; [done|]. by intros ? [=]. }
    + reflexivity.
    + cbn. rewrite <- Hv1. repeat case_match; cbn; by rewrite ?values_discoverShadow.
Qed.
End Facts.

(** More fuel than the depth of the child lists is as good. *)
Lemma depth_bounded_mono (n m : nat) (vs : gmap positive NodeValue) : ∀ i,
  (n ≤ m)%nat → depth_bounded n vs i → depth_bounded m vs i.
Proof.
  revert m. induction n as [|n IH]; intros m i Hle; [done|].
  destruct m as [|m]; [lia|]. cbn. intros (v & Hv & Hc).
  exists v. split; [done|]. eapply Forall_impl; [exact Hc|].
  intros c. apply IH. lia.
Qed.

(** [splice(start, 0, x)] puts [x] at [start], or at the end when [start] is
    past it. *)
Lemma splice_insert_lookup {A} (start : nat) (x : A) (l : list A) :
  splice_insert start x l !! (start `min` length l)%nat = Some x.
Proof.
  unfold splice_insert. rewrite lookup_app_r; rewrite length_take; [|lia].
  by rewrite Nat.sub_diag.
Qed.

(** *** The shape checks are sound *)

Lemma parents_registeredb_sound (st : State) :
  parents_registeredb st = true → parents_registered st.
Proof.
  unfold parents_registeredb. rewrite forallb_forall. intros Hb i v pid Hv Hp.
  specialize (Hb (i, v)). cbn in Hb. rewrite Hp in Hb.
  apply has_key_true, Hb, list_elem_of_In. by apply elem_of_map_to_list.
Qed.

Lemma children_registeredb_sound (st : State) :
  children_registeredb st = true → children_registered st.
Proof.
  unfold children_registeredb. rewrite forallb_forall. intros Hb i v c Hv Hc.
  specialize (Hb (i, v)). cbn in Hb. rewrite forallb_forall in Hb.
  apply has_key_true, Hb; [|by apply list_elem_of_In].
  apply list_elem_of_In. by apply elem_of_map_to_list.
Qed.

Lemma depth_boundedb_sound (n : nat) (vs : gmap positive NodeValue) : ∀ i,
  depth_boundedb n vs i = true → depth_bounded n vs i.
Proof.
  induction n as [|n IH]; intros i; cbn; [done|].
  destruct (vs !! i) as [v|]; [|done]. rewrite forallb_forall. intros Hb.
  exists v. split; [done|]. apply Forall_forall. intros c Hc.
  apply IH, Hb. by apply list_elem_of_In.
Qed.


(** *** The concrete session *)

(** C3, witnessed by a password field that carries the override, under a
    masked parent. *)
Lemma unmask_override_wins_witness :
  mask clarity_constants unmasked_password true = false.
Proof.
  apply (unmask_override_wins clarity_constants unmasked_password
           (list_to_map [("type", "password"); ("name", "secret");
                         ("data-clarity-unmask", "")]) true).
  - reflexivity.
  - vm_compute. eauto.
Defined.

(** C6, witnessed by the flush of the six records of the session. *)
Lemma flush_twice_is_empty_witness :
  ∃ out st', updates clarity_constants (state_of session) = Ok (out, st')
             ∧ updateMap st' = []
             ∧ updates clarity_constants st' = Ok ([], st').
Proof.
  apply (flush_twice_is_empty clarity_constants (state_of session)).
  apply parents_registeredb_sound. vm_compute. reflexivity.
Defined.

(** C2 as the specification states it fails on the record of A: A carries
    an id attribute, its parent is not pending and carries none, and the
    flush leaves the path of A null, not the selector of the parent. *)
Lemma flush_path_as_stated_fails :
  ¬ (∀ (st st' : State) (out : list NodeValue) (r pv : NodeValue) (pid : positive),
       updates clarity_constants st = Ok (out, st') →
       r ∈ out →
       parent r = Some pid →
       values st !! pid = Some pv →
       path (data r)
       = Some (if bool_decide (pid ∈ updateMap st) || carries_id clarity_constants pv
               then None else Some (selector pv))).
Proof.
  intros Hclaim.
  eassert (updates clarity_constants (state_of edited_A) = Ok (_, _)) as Hrun
    by (vm_compute; reflexivity).
  eassert (values (state_of edited_A) !! 2%positive = Some _) as Hpv
    by (vm_compute; reflexivity).
  match type of Hrun with
  | _ = Ok ([?r], _) =>
      pose proof (Hclaim _ _ _ r _ 2%positive Hrun (list_elem_of_here _ _) eq_refl Hpv)
        as Hpath
  end.
  revert Hpath. vm_compute. discriminate.
Qed.

(** C2 as amended, witnessed by the record of X: its parent is neither
    pending nor below the length of the queue, and the path is the selector
    of the parent. *)
Lemma flush_path_by_design_witness :
  ∃ r pv, r ∈ (match flush_of edited_X with Ok (out, _) => out | Throw _ => [] end)
          ∧ values (state_of edited_X) !! 3%positive = Some pv
          ∧ path (data r) = Some (Some (selector pv)).
Proof.
  eassert (updates clarity_constants (state_of edited_X) = Ok (_, _)) as Hrun
    by (vm_compute; reflexivity).
  assert (updateMap (state_of edited_X) = [5%positive]) as Hqueue
    by (vm_compute; reflexivity).
  match type of Hrun with
  | _ = Ok ([?r], ?st') =>
      destruct (flush_path_by_design clarity_constants _ _ _ r Hrun (list_elem_of_here _ _))
        as [_ Hdesign];
      destruct (Hdesign 3%positive) as [_ Hfree];
        [reflexivity|vm_compute; reflexivity|discriminate|];
      destruct Hfree as (pv & Hpv & Hpath);
        [rewrite Hqueue; by intros [?|?%elem_of_nil]%elem_of_cons
        |rewrite Hqueue; reflexivity|];
      exists r, pv;
      assert (flush_of edited_X = Ok ([r], st')) as -> by (vm_compute; reflexivity)
  end.
  split; [apply list_elem_of_here|]. split; [exact Hpv|exact Hpath].
Defined.

(** C7, witnessed by the removal of the container P2 of the session, which
    has the children S and X. *)
Lemma remove_deactivates_subtree_witness :
  ∃ st', remove plain_host 3 3%positive discovery (state_of session) = Ok st'
         ∧ (∀ d, descendant (state_of session) 3%positive d → deactivated st' d)
         ∧ (∀ j, history j (state_of session) `prefix_of` history j st')
         ∧ (∀ j, is_Some (values (state_of session) !! j) → is_Some (values st' !! j))
         ∧ index st' = index (state_of session) ∧ idMap st' = idMap (state_of session).
Proof.
  apply (remove_deactivates_subtree plain_host 3 3%positive discovery (state_of session)).
  apply depth_boundedb_sound. vm_compute. reflexivity.
Defined.

(** C10, witnessed by the first node of a session, which has no parent, and
    by a node observed under the registered root. *)
Lemma add_masked_default_witness :
  (∃ st', add clarity_constants plain_host (live 0 []) None (info "HTML" []) discovery
              empty_state = Ok st'
          ∧ masked_at st' 1%positive = Some true)
  ∧ (∃ st', add clarity_constants plain_host (live 9 []) (Some 0%nat) (info "P" []) discovery
                (state_of session) = Ok st'
            ∧ masked_at st' 7%positive = masked_at (state_of session) 1%positive).
Proof.
  split.
  - destruct (add_masked_default clarity_constants plain_host (live 0 []) None
                (info "HTML" []) discovery empty_state) as (st' & Hrun & Hnone & _).
    { apply children_registeredb_sound. vm_compute. reflexivity. }
    exists st'. split; [exact Hrun|]. apply Hnone. vm_compute. reflexivity.
  - destruct (add_masked_default clarity_constants plain_host (live 9 []) (Some 0%nat)
                (info "P" []) discovery (state_of session)) as (st' & Hrun & _ & Hsome).
    { apply children_registeredb_sound. vm_compute. reflexivity. }
    exists st'. split; [exact Hrun|].
    assert ((assignId (handle (live 9 [])) (state_of session)).1 = 7%positive) as Hid
      by (vm_compute; reflexivity).
    rewrite Hid in Hsome.
    eassert (parentValue_of (live 9 []) (Some 0%nat) (state_of session) = Some _) as Hpv
      by (vm_compute; reflexivity).
    rewrite (Hsome _ Hpv). vm_compute. reflexivity.
Defined.

(** C1 on the session: S has position 0 in the child list of P2, and A,
    observed again under P2 with S as its next sibling, leaves the child
    list of P1 and lands at position 2 of the list of P2, behind X: the
    index handed to [splice] is the id of S plus one, not its position. *)
Theorem reparent_lands_at_id_offset :
  children_of 3 session = Some [4; 5]%positive
  ∧ children_of 2 session = Some [6%positive]
  ∧ children_of 3 reparented = Some [4; 5; 6]%positive
  ∧ children_of 2 reparented = Some [].
Proof. split; [|split; [|split]]; vm_compute; reflexivity. Qed.

End RegistryFacts.

(** ** The reconstructor *)

Module RenderFacts.
Import Render.

#[local] Arguments insert : simpl never.
#[local] Arguments element : simpl never.
#[local] Arguments createTextNode : simpl never.
#[local] Arguments createElement : simpl never.
#[local] Arguments setAttributes : simpl never.
#[local] Arguments set_textContent : simpl never.
#[local] Arguments markup_default : simpl never.
#[local] Arguments markup_style : simpl never.

(** [insert] returns whatever [insertBefore] does, and registers the node. *)
Lemma insert_returns (data : IDecodedNode) (parent : option nat) (node : nat)
    (next : option nat) (st : State) :
  ∃ st', insert data parent node next st = Ok st'
         ∧ nodes st' = <[id data := node]> (nodes st).
Proof.
  unfold insert. destruct parent as [p|].
  - destruct (insertBefore p node (live_next (heap st) p next) (heap st)) as [h|ex];
      cbn; eexists; split; reflexivity.
  - destruct (parentElement (heap st) node); cbn; eexists; split; reflexivity.
Qed.

(** A failed insertion leaves the document as it is, logs the node, the
    parent and the record, then the exception, and registers the node. *)
Lemma insert_failure (data : IDecodedNode) (p node : nat) (next : option nat)
    (st : State) (ex : exn) :
  insertBefore p node (live_next (heap st) p next) (heap st) = Throw ex →
  insert data (Some p) node next st
  = Ok (with_nodes (<[id data := node]> (nodes st))
          (warn (WarnInsertException ex) (warn (WarnInsert node p data) st))).
Proof. intros Hfail. unfold insert. rewrite Hfail. reflexivity. Qed.

Lemma grows_refl (st : State) : grows st st.
Proof. by split. Qed.

Lemma grows_trans (st1 st2 st3 : State) : grows st1 st2 → grows st2 st3 → grows st1 st3.
Proof.
  intros [Hn1 Hc1] [Hn2 Hc2]. split; [by eauto|]. by etrans.
Qed.

(** A state with the same nodes by id and the same log. *)
Lemma grows_same (st st' : State) :
  nodes st' = nodes st → console st' = console st → grows st st'.
Proof. intros Hn Hc. split; [by rewrite Hn|by rewrite Hc]. Qed.

Lemma grows_warn (w : Warning) (st : State) : grows st (warn w st).
Proof. split; [done|]. by apply prefix_app_r. Qed.

Lemma grows_insert (data : IDecodedNode) (parent : option nat) (node : nat)
    (next : option nat) (st st' : State) :
  insert data parent node next st = Ok st' → grows st st'.
Proof.
  assert (∀ m : gmap Z nat, ∀ i, is_Some (m !! i) → is_Some (<[id data := node]> m !! i))
    as Hreg.
  { intros m i Hi. destruct (decide (i = id data)) as [->|Hne].
    - rewrite lookup_insert_eq. eauto.
    - by rewrite lookup_insert_ne. }
  unfold insert. destruct parent as [p|].
  - destruct (insertBefore p node (live_next (heap st) p next) (heap st)) as [h|ex];
      cbn; intros [= <-]; (split; [exact (Hreg _)|]); cbn; [done|].
    by apply prefix_app_r, prefix_app_r.
  - destruct (parentElement (heap st) node); cbn; intros [= <-];
      (split; [exact (Hreg _)|]); done.
Qed.

Lemma grows_applyAttributes (node : nat) (a : gmap string string)
    (l : list (string * string)) :
  ∀ st, grows st (foldl (applyAttribute node a) st l).
Proof.
  induction l as [|[k v] l IH]; intros st; [apply grows_refl|]. cbn [foldl].
  eapply grows_trans; [|apply IH]. unfold applyAttribute.
  destruct (if starts_with k "xlink:" then _ else _) as [h|ex].
  - by apply grows_same.
  - eapply grows_trans; apply grows_warn.
Qed.

Lemma grows_setAttributes (node : nat) (attributes : option (gmap string string))
    (st : State) :
  grows st (setAttributes node attributes st).
Proof.
  unfold setAttributes.
  assert (grows st (if is_element (node_at (heap st) node)
                    then with_heap (alter (set_attrs ∅) node (heap st)) st else st)) as H1.
  { destruct (is_element _); [by apply grows_same|apply grows_refl]. }
  destruct attributes as [a|]; [|exact H1].
  eapply grows_trans; [exact H1|apply grows_applyAttributes].
Qed.

Lemma grows_set_textContent (node : nat) (v : option string) (st : State) :
  grows st (set_textContent node v st).
Proof.
  unfold set_textContent. destruct (kind (node_at (heap st) node));
    try apply grows_refl; try (by apply grows_same).
  destruct (decide (default "" v = "")); by apply grows_same.
Qed.

Lemma createElement_returns (tag : string) (st : State) :
  creatable tag = true →
  ∃ r st', createElement tag st = Ok (r, st') ∧ grows st st'.
Proof.
  unfold creatable, createElement, dom_createElementNS, dom_createElement.
  destruct (negb (String.eqb tag "") && starts_with tag "s:").
  - destruct (validate svgns tag) as [[]|ex]; [|discriminate]. intros _. cbn.
    eexists _, _. split; [reflexivity|]. by apply grows_same.
  - intros ->. eexists _, _. split; [reflexivity|]. by apply grows_same.
Qed.

(** The default branch ends in a call of [insert] for the record. *)
Lemma markup_default_inserts (node : IDecodedNode) (parent next : option nat) (st : State) :
  creatable (tag node) = true →
  ∃ data e pre,
    markup_default node parent next st = insert data parent e next pre
    ∧ id data = id node ∧ grows st pre.
Proof.
  intros Hvalid. unfold markup_default.
  destruct (element (Some (id node)) st) as [e|]; cbn [mbind result_bind].
  - eexists _, e, _. split; [reflexivity|]. split; [reflexivity|].
    apply grows_setAttributes.
  - destruct (createElement_returns (tag node) st Hvalid) as (r & st1 & -> & Hg).
    cbn [mbind result_bind]. eexists _, r, _. split; [reflexivity|]. split; [reflexivity|].
    eapply grows_trans; [exact Hg|apply grows_setAttributes].
Qed.

(** So do the statements of the [STYLE] case. *)
Lemma markup_style_inserts (node : IDecodedNode) (parent next : option nat) (st : State) :
  valid_name (tag node) = true →
  ∃ e pre, markup_style node parent next st = insert node parent e next pre ∧ grows st pre.
Proof.
  intros Hvalid. unfold markup_style, dom_createElement. rewrite Hvalid.
  destruct (element (Some (id node)) st) as [e|]; cbn [mbind result_bind alloc];
    eexists _, _; (split; [reflexivity|]);
    (eapply grows_trans; [|apply grows_set_textContent]);
    (eapply grows_trans; [|apply grows_setAttributes]);
    by apply grows_same.
Qed.

Lemma not_marker (tag : string) (markers : list string) (m : string) :
  tag ∉ markers → m ∈ markers → String.eqb tag m = false.
Proof. intros Hnot Hin. apply String.eqb_neq. by intros ->. Qed.

(** The branch of a record that inserts ends in a call of [insert] for the
    record, with the parent and the next sibling that the ids of the record
    name at the start of the round. *)
Lemma markup_one_inserts (hasXMLSerializer : bool) (node : IDecodedNode) (st : State) :
  inserting_record node →
  ∃ data e pre,
    markup_one hasXMLSerializer node st
    = insert data (element (parent node) st) e (element (next node) st) pre
    ∧ id data = id node ∧ grows st pre.
Proof.
  intros [Htext|[[Hhead [a Ha]]|[Hnot Hvalid]]]; unfold markup_one.
  - rewrite Htext. cbn [String.eqb Ascii.eqb Bool.eqb].
    destruct (element (Some (id node)) st) as [e|];
      [|unfold createTextNode, alloc]; eexists _, _, _;
      (split; [reflexivity|]); (split; [reflexivity|]); by apply grows_same.
  - rewrite Hhead. cbn [String.eqb Ascii.eqb Bool.eqb].
    destruct (element (Some (id node)) st) as [e|].
    + cbn [mbind result_bind]. eexists _, _, _. split; [reflexivity|].
      split; [reflexivity|]. apply grows_setAttributes.
    + rewrite Ha. unfold dom_createElement.
      change (valid_name "HEAD") with true. change (valid_name "base") with true.
      cbn [mbind result_bind alloc defined]. unfold setAttribute.
      unfold node_at at 1 2. cbn [heap fresh]. rewrite lookup_insert_eq.
      change (valid_name "href") with true. cbn [default is_element is_html kind blank negb].
      cbn [mbind result_bind].
      eexists _, _, _. split; [reflexivity|]. split; [reflexivity|].
      eapply grows_trans; [|apply grows_setAttributes]. by apply grows_same.
  - rewrite !(not_marker _ _ _ Hnot) by (repeat constructor).
    destruct (String.eqb (tag node) "STYLE") eqn:Hstyle.
    + apply String.eqb_eq in Hstyle.
      destruct (markup_style_inserts node (element (parent node) st) (element (next node) st)
                  st) as (e1 & pre1 & -> & Hg1); [by rewrite Hstyle|].
      destruct (insert_returns node (element (parent node) st) e1 (element (next node) st)
                  pre1) as (st1 & Hrun1 & _).
      rewrite Hrun1. cbn [mbind result_bind].
      destruct (markup_default_inserts node (element (parent node) st)
                  (element (next node) st) st1 Hvalid) as (data & e & pre & -> & Hid & Hg).
      exists data, e, pre. split; [reflexivity|]. split; [exact Hid|].
      eapply grows_trans; [exact Hg1|]. eapply grows_trans; [|exact Hg].
      by eapply grows_insert.
    + by apply markup_default_inserts.
Qed.

(** A record that inserts is processed to its end, whatever [insertBefore]
    does: its node is registered. *)
Lemma markup_one_returns (hasXMLSerializer : bool) (node : IDecodedNode) (st : State) :
  inserting_record node →
  ∃ data e pre st',
    markup_one hasXMLSerializer node st = Ok st'
    ∧ insert data (element (parent node) st) e (element (next node) st) pre = Ok st'
    ∧ id data = id node
    ∧ grows st pre
    ∧ grows st st'
    ∧ getNode (id node) st' = Some e.
Proof.
  intros Hrec.
  destruct (markup_one_inserts hasXMLSerializer node st Hrec) as (data & e & pre & Hone & Hid & Hg).
  destruct (insert_returns data (element (parent node) st) e (element (next node) st) pre)
    as (st' & Hrun & Hnodes).
  exists data, e, pre, st'. rewrite Hone. split; [exact Hrun|]. split; [exact Hrun|].
  split; [exact Hid|]. split; [exact Hg|]. split.
  - eapply grows_trans; [exact Hg|]. by eapply grows_insert.
  - unfold getNode. rewrite Hnodes, Hid. apply lookup_insert_eq.
Qed.

(** A stream of records that insert is processed to its end. *)
Lemma markup_returns (hasXMLSerializer : bool) (stream : list IDecodedNode) :
  ∀ st, Forall inserting_record stream →
        ∃ st', markup hasXMLSerializer stream st = Ok st'
               ∧ grows st st'
               ∧ ∀ node, node ∈ stream → is_Some (getNode (id node) st').
Proof.
  induction stream as [|node rest IH]; intros st Hall.
  - exists st. split; [reflexivity|]. split; [apply grows_refl|].
    intros node Hin. by apply elem_of_nil in Hin.
  - apply Forall_cons in Hall as [Hrec Hall].
    destruct (markup_one_returns hasXMLSerializer node st Hrec)
      as (data & e & pre & st1 & Hone & _ & _ & _ & Hg1 & Hget).
    destruct (IH st1 Hall) as (st' & Hrun & Hg & Hin).
    exists st'. split; [unfold markup in *; cbn [for_each]; by rewrite Hone|].
    split; [by eapply grows_trans|].
    intros x [->|Hx]%elem_of_cons; [|by apply Hin].
    apply (proj1 Hg). unfold getNode in Hget. rewrite Hget. eauto.
Qed.

(** The [STYLE] case runs its own statements and then those of the default
    branch, with the same parent and next sibling. *)
Lemma style_case_falls_through (hasXMLSerializer : bool) (node : IDecodedNode) (st : State) :
  tag node = "STYLE" →
  markup_one hasXMLSerializer node st
  = (st1 ← markup_style node (element (parent node) st) (element (next node) st) st;
     markup_default node (element (parent node) st) (element (next node) st) st1).
Proof. intros Htag. unfold markup_one. rewrite Htag. reflexivity. Qed.

(** C8. An exception of [insertBefore] does not leave [insert]: the two
    lines are logged with the node, the parent and the record, the node is
    registered, and [insert] returns. The branch of a record that inserts
    ends in that call of [insert], for the node of the record and under the
    parent and next sibling that the record names, and so returns with the
    node registered under the id of the record and nothing of the log lost;
    when the insertion fails, the round adds the two lines and the
    registration to the state it made the call in, and nothing else. The
    loop goes on with the records after it. So a stream of such records is
    processed to its end whichever insertions fail: the node of every record
    is registered. *)
Theorem insertion_failure_is_isolated :
  (∀ (data : IDecodedNode) (p node : nat) (next : option nat) (st : State) (ex : exn),
     insertBefore p node (live_next (heap st) p next) (heap st) = Throw ex →
     insert data (Some p) node next st
     = Ok (with_nodes (<[id data := node]> (nodes st))
             (warn (WarnInsertException ex) (warn (WarnInsert node p data) st))))
  ∧ (∀ (data : IDecodedNode) (parent : option nat) (node : nat) (next : option nat)
       (st : State),
       ∃ st', insert data parent node next st = Ok st')
  ∧ (∀ (hasXMLSerializer : bool) (node : IDecodedNode) (st : State),
       inserting_record node →
       ∃ data e pre st',
         markup_one hasXMLSerializer node st = Ok st'
         ∧ insert data (element (parent node) st) e (element (next node) st) pre = Ok st'
         ∧ id data = id node
         ∧ grows st pre
         ∧ getNode (id node) st' = Some e
         ∧ (∀ p ex, element (parent node) st = Some p →
                    insertBefore p e (live_next (heap pre) p (element (next node) st))
                                 (heap pre) = Throw ex →
                    st' = with_nodes (<[id node := e]> (nodes pre))
                            (warn (WarnInsertException ex) (warn (WarnInsert e p data) pre)))
         ∧ ∀ rest, markup hasXMLSerializer (node :: rest) st
                   = markup hasXMLSerializer rest st')
  ∧ (∀ (hasXMLSerializer : bool) (stream : list IDecodedNode) (st : State),
       Forall inserting_record stream →
       ∃ st', markup hasXMLSerializer stream st = Ok st'
              ∧ grows st st'
              ∧ ∀ node, node ∈ stream → is_Some (getNode (id node) st')).
Proof.
  split; [exact insert_failure|]. split; [|split].
  - intros data parent node next st.
    destruct (insert_returns data parent node next st) as (st' & Hrun & _). eauto.
  - intros b node st Hrec.
    destruct (markup_one_returns b node st Hrec)
      as (data & e & pre & st' & Hone & Hrun & Hid & Hg & _ & Hget).
    exists data, e, pre, st'. split_and!; try done.
    + intros p ex Hp Hfail. rewrite Hp, (insert_failure _ _ _ _ _ _ Hfail) in Hrun.
      injection Hrun as <-. by rewrite Hid.
    + intros rest. unfold markup. cbn [for_each]. by rewrite Hone.
  - intros b stream st Hall. by apply markup_returns.
Qed.

Lemma cyclic_stream_inserts : Forall inserting_record [cyclic_record; paragraph_record].
Proof.
  assert (∀ t : string, t ∈ ["*D"; "*T"; "HTML"; "HEAD"] → t ≠ "BODY" ∧ t ≠ "P") as Hno.
  { intros t Hin. repeat (apply elem_of_cons in Hin as [->|Hin]; [by split|]).
    by apply elem_of_nil in Hin. }
  constructor; [|constructor; [|constructor]];
    unfold inserting_record; right; right; (split; [|reflexivity]).
  - intros Hin. by destruct (Hno _ Hin) as [? _].
  - intros Hin. by destruct (Hno _ Hin) as [_ ?].
Qed.

Lemma cyclic_insertion_fails :
  insertBefore 9%nat 8%nat (live_next (heap (replay cyclic_prefix)) 9%nat None)
               (heap (replay cyclic_prefix))
  = Throw HierarchyRequestError.
Proof. vm_compute. reflexivity. Qed.

(** C8, witnessed by the record that moves the body under its own
    division: [insertBefore] refuses the cycle, [insert] logs it and
    returns, and the paragraph that follows is processed. *)
Lemma insertion_failure_is_isolated_witness :
  insert cyclic_record (Some 9%nat) 8%nat None (replay cyclic_prefix)
  = Ok (with_nodes (<[4%Z := 8%nat]> (nodes (replay cyclic_prefix)))
          (warn (WarnInsertException HierarchyRequestError)
             (warn (WarnInsert 8%nat 9%nat cyclic_record) (replay cyclic_prefix))))
  ∧ ∃ st', markup true [cyclic_record; paragraph_record] (replay cyclic_prefix) = Ok st'
           ∧ is_Some (getNode 4 st') ∧ is_Some (getNode 6 st').
Proof.
  split.
  - exact (proj1 insertion_failure_is_isolated cyclic_record 9%nat 8%nat None
             (replay cyclic_prefix) HierarchyRequestError cyclic_insertion_fails).
  - pose proof (proj2 (proj2 (proj2 insertion_failure_is_isolated)) true
                  [cyclic_record; paragraph_record] (replay cyclic_prefix)
                  cyclic_stream_inserts) as H.
    destruct H as (st' & Hrun & _ & Hall).
    exists st'. split; [exact Hrun|]. split.
    + apply (Hall cyclic_record). apply list_elem_of_here.
    + apply (Hall paragraph_record). apply list_elem_of_further, list_elem_of_here.
Defined.

(** The replay of the whole stream: the cycle is logged once, the body stays
    under the root, and the paragraph is inserted into the body. *)
Lemma cyclic_record_is_skipped :
  console (replay (cyclic_prefix ++ [cyclic_record; paragraph_record]))
  = [WarnInsert 8%nat 9%nat (set_attributes (Some {["data-id" := "4"]}) cyclic_record);
     WarnInsertException HierarchyRequestError]
  ∧ parentNode (node_at (heap (replay (cyclic_prefix ++ [cyclic_record; paragraph_record])))
                        8%nat) = Some 4%nat
  ∧ nodes (replay (cyclic_prefix ++ [cyclic_record; paragraph_record])) !! 6%Z = Some 10%nat
  ∧ parentNode (node_at (heap (replay (cyclic_prefix ++ [cyclic_record; paragraph_record])))
                        10%nat) = Some 8%nat.
Proof. split; [|split; [|split]]; vm_compute; reflexivity. Qed.

(** C4 on a style record with the one attribute [type]: the element ends
    with the attribute [data-id] besides it, so its attribute set is not the
    map the record came with; the text content is the value of the
    record. *)
Theorem style_record_receives_debug_id :
  (λ r, r.1.1.1 !! "data-id") <$> replayed style_stream 3 = Some (Some "3")
  ∧ (λ r, r.1.1.1 !! "type") <$> replayed style_stream 3 = Some (Some "text/css")
  ∧ (λ r, r.1.1.2) <$> replayed style_stream 3 = Some "p { margin: 0 }"
  ∧ (λ r, r.1.1.1) <$> replayed style_stream 3 ≠ attributes style_record.
Proof.
  split; [|split; [|split]]; [vm_compute; reflexivity..|].
  intros Heq. apply (f_equal (λ o, o ≫= (.!! "data-id"))) in Heq.
  revert Heq. vm_compute. discriminate.
Qed.

End RenderFacts.


(** * Laws of the operations *)

(** ** Counters *)

Module MetricsLaws.
Import Metrics MetricsFacts.

(** The loop of [summarize] over a list of entries with distinct keys. *)
Lemma summarize_fold (l : list (nat * CounterValue)) (st : State) :
  NoDup l.*1 →
  ∀ key,
    let st' := foldr (λ kv s, summarize_key kv.1 kv.2 s) st l in
    let entry := (list_to_map l : gmap nat CounterValue) !! key in
    tracker st' !! key
    = match entry with
      | Some v => if updated v then Some (set_updated false v) else tracker st !! key
      | None => tracker st !! key
      end
    ∧ summary st' !! key
      = match entry with
        | Some v => if updated v then Some (counter v) else summary st !! key
        | None => summary st !! key
        end.
Proof.
  induction l as [|[k v] l IH]; intros Hnd key; cbn.
  - rewrite lookup_empty. done.
  - apply NoDup_cons in Hnd as [Hk Hnd]. specialize (IH Hnd).
    cbv zeta in IH. unfold summarize_key at 1 3.
    destruct (decide (k = key)) as [<-|Hne].
    + rewrite lookup_insert_eq. destruct (IH k) as [Ht Hs]. cbn in Hk.
      rewrite (not_elem_of_list_to_map_1 _ _ Hk) in Ht, Hs.
      destruct (updated v); cbn; by rewrite ?lookup_insert_eq.
    + rewrite lookup_insert_ne by done. destruct (IH key) as [Ht Hs].
      destruct (updated v); cbn; by rewrite ?lookup_insert_ne.
Qed.

Lemma set_updated_false (v : CounterValue) :
  (if updated v then Some (set_updated false v) else Some v) = Some (set_updated false v).
Proof. by destruct v as [[] ?]. Qed.

Lemma summarize_lookup (st : State) (key : nat) :
  tracker (summarize st).2 !! key = set_updated false <$> tracker st !! key
  ∧ (summarize st).1 !! key
    = match tracker st !! key with
      | Some v => if updated v then Some (counter v) else summary st !! key
      | None => summary st !! key
      end
  ∧ summary (summarize st).2 = (summarize st).1.
Proof.
  unfold summarize. cbn [fst snd].
  destruct (summarize_fold (map_to_list (tracker st)) st
              (NoDup_fst_map_to_list _) key) as [Ht Hs].
  rewrite list_to_map_to_list in Ht, Hs. split; [|split; [exact Hs|done]].
  etrans; [exact Ht|]. clear Ht Hs.
  destruct (tracker st !! key) as [v|]; [|done].
  cbn. rewrite <- set_updated_false. by destruct (updated v).
Qed.

(** [summarize] publishes the counter of every key that was incremented since
    the last call, keeps the earlier entry of every other key, and clears the
    [updated] flag of every counter. *)
Theorem summarize_publishes_updated (st : State) (key : Counter) :
  (summarize st).1 !! key
  = match tracker st !! key with
    | Some v => if updated v then Some (counter v) else summary st !! key
    | None => summary st !! key
    end
  ∧ tracker (summarize st).2 !! key = set_updated false <$> tracker st !! key
  ∧ summary (summarize st).2 = (summarize st).1.
Proof. unfold Counter in *. destruct (summarize_lookup st key) as (? & ? & ?). done. Qed.

Lemma state_eq (s1 s2 : State) :
  tracker s1 = tracker s2 → summary s1 = summary s2 → s1 = s2.
Proof. destruct s1, s2. cbn. by intros -> ->. Qed.

(** A second [summarize] with no [increment] in between returns the same
    summary and leaves the tracker as it is. *)
Theorem summarize_twice (st : State) :
  summarize (summarize st).2 = ((summarize st).1, (summarize st).2).
Proof.
  set (st1 := (summarize st).2).
  assert (∀ key : nat, from_option updated false (tracker st1 !! key) = false) as Hclear.
  { intros key. unfold st1. destruct (summarize_lookup st key) as (-> & _).
    by destruct (tracker st !! key). }
  assert ((summarize st1).2 = st1) as Hst.
  { apply state_eq.
    - apply map_eq. intros key. destruct (summarize_lookup st1 key) as (-> & _).
      specialize (Hclear key). destruct (tracker st1 !! key) as [[u c]|]; [|done].
      cbn in *. by subst.
    -      apply map_eq. intros key. destruct (summarize_lookup st1 key) as (_ & Hs & ->).
      rewrite Hs. specialize (Hclear key).
      destruct (tracker st1 !! key) as [[u c]|]; [|done]. cbn in *. by subst. }
  destruct (summarize st1) as [out st2] eqn:Hrun. cbn in Hst. subst st2. f_equal.
  destruct (summarize_lookup st 1%nat) as (_ & _ & <-). fold st1.
  pose proof (summarize_lookup st1 1%nat) as (_ & _ & Hs). rewrite Hrun in Hs. done.
Qed.

(** Every [increment] shows in the next summary: the entry of the key is the
    counter the tracker holds for it. *)
Theorem increment_shows_in_summary (key : Counter) (arg : option Z) (st : State) :
  (summarize (increment key arg st)).1 !! key
  = Some (match tracker st !! key with
          | Some v => counter v + default 1 arg
          | None => default 1 arg + default 1 arg
          end).
Proof.
  unfold Counter in *.
  destruct (summarize_lookup (increment key arg st) key) as (_ & -> & _).
  destruct (tracker st !! key) as [v|] eqn:Hv.
  - by rewrite (increment_lookup_present _ _ _ _ Hv).
  - by rewrite (increment_lookup_fresh _ _ _ Hv).
Qed.

End MetricsLaws.


(** ** The element state provider *)

Module ElementLaws.
Import Element ElementMore ElementFacts.

Lemma lookup_set_if_eq (b : bool) (k v : string) (m : gmap string string) :
  set_if b k v m !! k = if b then Some v else m !! k.
Proof. unfold set_if. destruct b; [|done]. by rewrite lookup_insert_eq. Qed.

Lemma lookup_set_if_ne (b : bool) (k k' v : string) (m : gmap string string) :
  k ≠ k' → set_if b k v m !! k' = m !! k'.
Proof. intros Hne. unfold set_if. destruct b; [|done]. by rewrite lookup_insert_ne. Qed.

(** The entries of the snapshot, key by key. *)
Lemma getStyles_recorded (st : State) (element : LiveElement) :
  let c := computed element in
  let dc := defaultColor (getStyles st element).2 in
  let recorded (k : string) := (getStyles st element).1 ≫= (.!! k) in
  recorded Styles_Visibility
  = (if isin (cs_visibility c) ["hidden"; "collapse"] then Some (cs_visibility c) else None)
  ∧ recorded Styles_OverflowX
    = (if isin (cs_overflowX c) ["auto"; "scroll"; "hidden"] then Some (cs_overflowX c) else None)
  ∧ recorded Styles_OverflowY
    = (if isin (cs_overflowY c) ["auto"; "scroll"; "hidden"] then Some (cs_overflowY c) else None)
  ∧ recorded Styles_BackgroundImage
    = (if String.eqb (cs_backgroundImage c) "none" then None else Some (cs_backgroundImage c))
  ∧ recorded Styles_BackgroundColor
    = (if isin (cs_backgroundColor c) ["rgba(0, 0, 0, 0)"; "transparent"]
       then None else Some (cs_backgroundColor c))
  ∧ recorded Styles_Color
    = (if String.eqb (cs_color c) dc then None else Some (cs_color c))
  ∧ (∀ k, k ∉ [Styles_Visibility; Styles_OverflowX; Styles_OverflowY;
               Styles_BackgroundImage; Styles_BackgroundColor; Styles_Color] →
          recorded k = None)
  ∧ (getStyles st element).1 ≠ Some ∅.
Proof.
  cbv zeta. unfold getStyles. cbv zeta. cbn [fst snd defaultColor].
  set (dc := if (String.length (defaultColor st) =? 0)%nat then _ else _).
  set (s6 := set_if _ Styles_Color _ _).
  assert (∀ k, (if (0 <? size s6)%nat then Some s6 else None) ≫= (.!! k) = s6 !! k) as Hrec.
  { intros k. destruct (0 <? size s6)%nat eqn:Hsize; [done|]. cbn.
    apply Nat.ltb_ge in Hsize. assert (size s6 = 0%nat) as Hz by lia.
    apply map_size_empty_iff in Hz. by rewrite Hz, lookup_empty. }
  rewrite !Hrec. unfold s6.
  split_and!;
    [repeat ((rewrite lookup_set_if_ne by done) || rewrite lookup_set_if_eq);
     rewrite ?lookup_empty; try done..| |].
  - by destruct (String.eqb (cs_backgroundImage _) _).
  - by destruct (isin (cs_backgroundColor _) _).
  - by destruct (String.eqb (cs_color _) _).
  - intros k Hk. rewrite Hrec. unfold s6.
    rewrite !lookup_set_if_ne, lookup_empty; [done|..];
      intros <-; apply Hk; repeat constructor.
  - fold s6. intros Heq. destruct (0 <? size s6)%nat eqn:Hsize; [|discriminate].
    injection Heq as Hs. rewrite Hs, map_size_empty in Hsize. done.
Qed.

(** What the snapshot of [getStyles] holds: the visibility when the element
    is hidden or collapsed, each overflow when it is auto, scroll or hidden,
    the background image unless it is none, the background colour unless it
    is transparent, and the colour unless it is the default colour; nothing
    else, and [null] when that leaves nothing. *)
Theorem style_snapshot_contents (st : State) (element : LiveElement) :
  let c := computed element in
  let dc := defaultColor (getStyles st element).2 in
  let recorded (k : string) := (getStyles st element).1 ≫= (.!! k) in
  recorded Styles_Visibility
  = (if isin (cs_visibility c) ["hidden"; "collapse"] then Some (cs_visibility c) else None)
  ∧ recorded Styles_OverflowX
    = (if isin (cs_overflowX c) ["auto"; "scroll"; "hidden"] then Some (cs_overflowX c) else None)
  ∧ recorded Styles_OverflowY
    = (if isin (cs_overflowY c) ["auto"; "scroll"; "hidden"] then Some (cs_overflowY c) else None)
  ∧ recorded Styles_BackgroundImage
    = (if String.eqb (cs_backgroundImage c) "none" then None else Some (cs_backgroundImage c))
  ∧ recorded Styles_BackgroundColor
    = (if isin (cs_backgroundColor c) ["rgba(0, 0, 0, 0)"; "transparent"]
       then None else Some (cs_backgroundColor c))
  ∧ recorded Styles_Color
    = (if String.eqb (cs_color c) dc then None else Some (cs_color c))
  ∧ (∀ k, k ∉ [Styles_Visibility; Styles_OverflowX; Styles_OverflowY;
               Styles_BackgroundImage; Styles_BackgroundColor; Styles_Color] →
          recorded k = None)
  ∧ (getStyles st element).1 ≠ Some ∅.
Proof. exact (getStyles_recorded st element). Qed.


(** The default colour is the colour of the first element styled after a
    reset, whose own colour is therefore never recorded; once set, the
    default stays. *)
Theorem default_color_is_first_seen (st : State) (element : LiveElement) :
  (defaultColor st = "" →
   defaultColor (getStyles st element).2 = cs_color (computed element)
   ∧ (getStyles st element).1 ≫= (.!! Styles_Color) = None)
  ∧ (defaultColor st ≠ "" →
     defaultColor (getStyles st element).2 = defaultColor st)
  ∧ attributeMaskList (getStyles st element).2 = attributeMaskList st.
Proof.
  pose proof (getStyles_recorded st element) as (_ & _ & _ & _ & _ & Hcolor & _).
  cbv zeta in Hcolor. split; [|split; [|done]].
  - intros Hempty.
    assert (defaultColor (getStyles st element).2 = cs_color (computed element)) as Hdc.
    { unfold getStyles. cbv zeta. cbn. by rewrite Hempty. }
    split; [done|]. rewrite Hcolor, Hdc, String.eqb_refl. done.
  - intros Hset. unfold getStyles. cbv zeta. cbn.
    destruct (defaultColor st); [done|]. done.
Qed.

Section Capture.

Variables Tags_Script Tags_Meta Tags_Ignore : string.
Variable createGenericLayoutState : LiveElement → string → IElementLayoutState.
Variable mask : string → string.

Lemma foldl_insert_lookup (g : string → string) (l : list (string * string)) :
  ∀ (acc : gmap string string) (k : string),
    foldl (λ m (kv : string * string), <[kv.1 := g kv.1]> m) acc l !! k
    = if decide (k ∈ l.*1) then Some (g k) else acc !! k.
Proof.
  induction l as [|[k0 v0] l IH]; intros acc k; cbn.
  - rewrite decide_False; [done|]. apply not_elem_of_nil.
  - rewrite IH. destruct (decide (k ∈ l.*1)) as [Hin|Hnin].
    + rewrite decide_True; [done|]. by apply list_elem_of_further.
    + destruct (decide (k0 = k)) as [->|Hne].
      * rewrite lookup_insert_eq, decide_True; [done|]. apply list_elem_of_here.
      * rewrite lookup_insert_ne by done. rewrite decide_False; [done|].
        intros [?|?]%elem_of_cons; by simplify_eq.
Qed.

Lemma getAttributes_lookup (st : State) (element : LiveElement) (info : INodeInfo)
    (k : string) :
  getAttributes mask st element info !! k
  = if decide (k ∈ (el_attributes element).*1)
    then Some (getAttributeValue mask st element info k) else None.
Proof.
  unfold getAttributes.
  rewrite (foldl_insert_lookup (getAttributeValue mask st element info)).
  by rewrite lookup_empty.
Qed.

(** An element that is not ignored, and whose attribute names the attribute
    map answers with the attribute of that name, is captured with one entry
    for each of its attribute names and no other; the value of an attribute
    on the mask list and the [value] of the element go through [mask] unless
    the node is unmasked. *)
Theorem capture_masks_sensitive (w : Window) (st : State) (element : LiveElement)
    (info : INodeInfo) :
  String.eqb (tagName element) Tags_Script || String.eqb (tagName element) Tags_Meta = false →
  Forall (λ kv, plain_name kv.1 = true) (el_attributes element) →
  let state := (createElementLayoutState Tags_Script Tags_Meta Tags_Ignore
                  createGenericLayoutState mask w st element info).1 in
  (∃ a, attributes state = Some a
        ∧ ∀ k, a !! k
               = if decide (k ∈ (el_attributes element).*1)
                 then Some (if isin k (attributeMaskList st) && negb (unmask info)
                            then mask (attr_value element k)
                            else attr_value element k)
                 else None)
  ∧ (∀ v, el_value element = Some v →
          value state = Some (if unmask info then v else mask v)).
Proof.
  intros Htag _. cbv zeta. unfold createElementLayoutState. cbv zeta. rewrite Htag.
  destruct (match getLayout w element with
            | Some _ => getStyles st element
            | None => (None, st)
            end) as [sty st1]. cbn [fst attributes value]. split.
  - eexists. split; [reflexivity|]. intros k. apply getAttributes_lookup.
  - intros v ->. reflexivity.
Qed.

End Capture.

Lemma name_field_plain : Forall (λ kv, plain_name kv.1 = true) (el_attributes name_field).
Proof. repeat (constructor; [vm_compute; reflexivity|]). constructor. Qed.

Lemma capture_masks_sensitive_witness :
  ∃ a, attributes (createElementLayoutState "SCRIPT" "META" "*IGNORE*" generic_state stars
                     plain_window fresh_state name_field {| unmask := false |}).1 = Some a
       ∧ a !! "type" = Some "text"
       ∧ a !! "placeholder" = Some "*********"
       ∧ a !! "title" = Some "****"
       ∧ a !! "value" = None
       ∧ value (createElementLayoutState "SCRIPT" "META" "*IGNORE*" generic_state stars
                  plain_window fresh_state name_field {| unmask := false |}).1
         = Some "***".
Proof.
  pose proof (capture_masks_sensitive "SCRIPT" "META" "*IGNORE*" generic_state stars
                plain_window fresh_state name_field {| unmask := false |} eq_refl
                name_field_plain) as H.
  cbv zeta in H. destruct H as [(a & Ha & Hlookup) Hvalue].
  exists a. split; [exact Ha|]. rewrite !Hlookup.
  split; [vm_compute; reflexivity|]. split; [vm_compute; reflexivity|].
  split; [vm_compute; reflexivity|]. split; [vm_compute; reflexivity|].
  exact (Hvalue "Ada" eq_refl).
Defined.

End ElementLaws.


(** ** The node registry *)

Module RegistryLaws.
Import Registry RegistryMore RegistryFacts.

#[local] Arguments modify : simpl never.
#[local] Arguments with_values : simpl never.
#[local] Arguments finish_update : simpl never.
#[local] Arguments relink : simpl never.
#[local] Arguments unlink : simpl never.

(** *** Steps that rewrite one record *)

Lemma modify_id (i : positive) (f : NodeValue → NodeValue) (st : State) :
  (∀ v, f v = v) → modify i f st = st.
Proof.
  intros Hf. unfold modify. rewrite alter_id by (intros; apply Hf). apply with_values_id.
Qed.

Lemma modify_modify (i : positive) (f g : NodeValue → NodeValue) (st : State) :
  modify i f (modify i g st) = modify i (f ∘ g) st.
Proof. unfold modify, with_values. cbn. by rewrite alter_alter_eq. Qed.

Lemma cosmetic_id : cosmetic (λ v, v).
Proof. done. Qed.

Lemma cosmetic_compose (f g : NodeValue → NodeValue) :
  cosmetic f → cosmetic g → cosmetic (f ∘ g).
Proof. intros Hf Hg v. cbn. by rewrite Hf, Hg. Qed.

Lemma cosmetic_set_position (p : option nat) : cosmetic (set_position p).
Proof. done. Qed.

Lemma cosmetic_set_selector (s : string) : cosmetic (set_selector s).
Proof. done. Qed.

Lemma cosmetic_set_boxmodel (b : bool) :
  cosmetic (λ v, set_metadata (set_boxmodel b (metadata v)) v).
Proof. done. Qed.

Section Laws.

Variable K : Constants.
Variable H : Host.

Lemma position_of_cosmetic (parent : option positive) (i : positive) (st st' : State) :
  position_of K parent i st = Ok st' → ∃ f, cosmetic f ∧ st' = modify i f st.
Proof.
  unfold position_of. destruct (values st !! i) as [child|]; [|done]. cbn.
  assert (∃ f, cosmetic f ∧ st = modify i f st) as Hsame.
  { exists (λ v, v). split; [done|]. by rewrite modify_id. }
  destruct parent as [pid|]; [|by intros [= <-]].
  destruct (is_position_tag _ || _); [|by intros [= <-]].
  destruct (values (modify i (set_position (Some 1%nat)) st) !! pid) as [p|]; [|done]. cbn.
  assert (∃ f, cosmetic f ∧ modify i (set_position (Some 1%nat)) st = modify i f st) as Hone.
  { exists (set_position (Some 1%nat)). done. }
  destruct (indexOf (id child) (children p)) as [[|idx]|]; [by intros [= <-]| |by intros [= <-]].
  destruct (children p !! idx ≫= _) as [sibling|]; [|done]. cbn.
  destruct (String.eqb _ _); intros [= <-]; [|done].
  rewrite modify_modify. eexists. split; [|reflexivity].
  apply cosmetic_compose; done.
Qed.

Lemma updateSelector_cosmetic (i : positive) (st st' : State) :
  updateSelector K H i st = Ok st' →
  ∃ f s, cosmetic f ∧ st' = with_selectorMap s (modify i f st).
Proof.
  unfold updateSelector. destruct (values st !! i) as [value|]; [|done]. cbn.
  destruct (position_of K _ i st) as [st1|] eqn:Hpos; [|done]. cbn.
  apply position_of_cosmetic in Hpos as (f & Hf & ->).
  destruct (values (modify i f st) !! i) as [value1|]; [|done]. cbn.
  intros [= <-].
  match goal with
  | |- ∃ f' s, _ ∧ modify i (set_selector ?c) ?s2 = _ =>
      exists (set_selector c ∘ f), (selectorMap s2)
  end.
  split; [by apply cosmetic_compose|].
  rewrite <- modify_modify. by destruct (_ && _).
Qed.

Lemma track_metadata_cosmetic (tag : string) (i : positive) (parentId : option positive)
    (st st' : State) :
  track_metadata K H tag i parentId st = Ok st' →
  ∃ f m, cosmetic f ∧ st' = with_urlMap m (modify i f st).
Proof.
  set (shape := λ s : State, ∃ f m, cosmetic f ∧ s = with_urlMap m (modify i f st)).
  assert (∀ m, shape (with_urlMap m st)) as Hbase.
  { intros m. exists (λ v, v), m. split; [done|]. by rewrite modify_id. }
  assert (shape st) as Hself.
  { replace st with (with_urlMap (urlMap st) st) by (by destruct st). apply Hbase. }
  assert (∀ g s, cosmetic g → shape s → shape (modify i g s)) as Hstep.
  { intros g s Hg (f & m & Hf & ->). exists (g ∘ f), m.
    split; [by apply cosmetic_compose|]. by rewrite <- modify_modify. }
  unfold track_metadata. destruct parentId; [|by intros [= <-]].
  destruct (values st !! i) as [value|]; [|done]. cbn. intros [= <-].
  repeat case_match; repeat (apply Hstep; [done|]); first [apply Hbase|apply Hself].
Qed.


(** *** What [add] writes *)

Lemma values_modify (i : positive) (f : NodeValue → NodeValue) (st : State) :
  values (modify i f st) = alter f i (values st).
Proof. reflexivity. Qed.

Lemma values_with_values (vs : gmap positive NodeValue) (st : State) :
  values (with_values vs st) = vs.
Proof. reflexivity. Qed.

Lemma assignId_shape (n : nat) (st : State) :
  ∃ m x, (assignId n st).2 = with_idMap m (with_index x st).
Proof.
  unfold assignId. destruct (idMap st !! n); cbn; [|eauto].
  exists (idMap st), (index st). by destruct st.
Qed.

Lemma discoverShadow_shape (node : LiveNode) (st : State) :
  ∃ l, discoverShadow node st = with_scheduled l st.
Proof.
  assert (st = with_scheduled (scheduled st) st) as Hsame by (by destruct st).
  unfold discoverShadow, discoverTree. repeat case_match; eauto.
Qed.

Lemma updateMap_track (i : positive) (source : Source) (changed : bool) (st : State) :
  updateMap (track H i source changed st)
  = match indexOf i (updateMap st) with
    | Some uIndex =>
        if decide (source = ChildListAdd)
        then splice_remove uIndex (updateMap st) ++ [i]
        else updateMap st
    | None => if changed then updateMap st ++ [i] else updateMap st
    end.
Proof. unfold track. destruct (devtools H); repeat case_match; done. Qed.

Lemma indexOf_None {A} `{EqDecision A} (x : A) (l : list A) :
  indexOf x l = None ↔ x ∉ l.
Proof.
  unfold indexOf. destruct (list_find _ l) as [[k y]|] eqn:Hf; cbn.
  - apply list_find_Some in Hf as (Hk & -> & _). split; [done|].
    intros Hnin. exfalso. apply Hnin. by eapply list_elem_of_lookup_2.
  - split; [|done]. intros _ Hin. eapply list_find_None in Hf.
    by eapply Forall_forall in Hf.
Qed.

Lemma indexOf_Some {A} `{EqDecision A} (x : A) (l : list A) (n : nat) :
  indexOf x l = Some n ↔ l !! n = Some x ∧ x ∉ take n l.
Proof.
  unfold indexOf. split.
  - destruct (list_find _ l) as [[k y]|] eqn:Hf; [|done]. intros [= <-].
    apply list_find_Some in Hf as (Hk & -> & Hbefore). split; [done|].
    intros (j & Hj)%list_elem_of_lookup_1.
    apply lookup_take_Some in Hj as [Hj Hlt]. by eapply Hbefore.
  - intros [Hn Hnin].
    assert (list_find (λ y, y = x) l = Some (n, x)) as ->; [|done].
    apply list_find_Some. split; [done|]. split; [done|].
    intros j y Hj Hlt ->. apply Hnin. eapply list_elem_of_lookup_2.
    apply lookup_take_Some. eauto.
Qed.

(** [track(id, source)] with [changed] left to its default queues the id and
    drops no other. *)
Lemma track_queues (i : positive) (source : Source) (st : State) :
  i ∈ updateMap (track H i source true st)
  ∧ ∀ j, j ∈ updateMap st → j ∈ updateMap (track H i source true st).
Proof.
  rewrite updateMap_track.
  destruct (indexOf i (updateMap st)) as [u|] eqn:Hu.
  - apply indexOf_Some in Hu as [Hu Hnin].
    destruct (decide (source = ChildListAdd)).
    + split; [apply elem_of_app; right; apply list_elem_of_here|].
      intros j Hj. apply elem_of_app.
      destruct (decide (j = i)) as [->|Hne]; [right; apply list_elem_of_here|].
      left. unfold splice_remove.
      rewrite <- (take_drop_middle _ _ _ Hu) in Hj.
      apply elem_of_app in Hj as [Hj|[->|Hj]%elem_of_cons]; [|done|];
        apply elem_of_app; eauto.
    + split; [by eapply list_elem_of_lookup_2|done].
  - split; [apply elem_of_app; right; apply list_elem_of_here|].
    intros j Hj. apply elem_of_app. by left.
Qed.

Lemma add_tail (i : positive) (tag : string) (parentId : option positive) (source : Source)
    (st6 st' : State) :
  (st ← updateSelector K H i st6;
   st ← track_metadata K H tag i parentId st;
   Ok (track H i source true st)) = Ok st' →
  ∃ f, cosmetic f
       ∧ values st' = alter f i (values st6)
       ∧ index st' = index st6 ∧ idMap st' = idMap st6 ∧ nodes st' = nodes st6
       ∧ regionMap st' = regionMap st6 ∧ regionTracker st' = regionTracker st6
       ∧ scheduled st' = scheduled st6
       ∧ i ∈ updateMap st'
       ∧ ∀ j, j ∈ updateMap st6 → j ∈ updateMap st'.
Proof.
  destruct (updateSelector K H i st6) as [st7|] eqn:H7; [|done]. cbn.
  destruct (track_metadata K H tag i parentId st7) as [st8|] eqn:H8; [|done]. cbn.
  intros [= <-].
  apply updateSelector_cosmetic in H7 as (f1 & s & Hf1 & ->).
  apply track_metadata_cosmetic in H8 as (f2 & m & Hf2 & ->).
  exists (f2 ∘ f1). split; [by apply cosmetic_compose|].
  rewrite values_track.
  pose proof (track_queues i source
                (with_urlMap m (modify i f2 (with_selectorMap s (modify i f1 st6)))))
    as [Hin Hmono].
  pose proof (kept_track H i source true
                (with_urlMap m (modify i f2 (with_selectorMap s (modify i f1 st6)))))
    as (Hindex & HidMap & Hnodes & _).
  split_and!; try done.
  - cbn. rewrite values_modify. cbn. rewrite values_modify. by rewrite alter_alter_eq.
  - unfold track. destruct (devtools H); repeat case_match; done.
  - unfold track. destruct (devtools H); repeat case_match; done.
  - unfold track. destruct (devtools H); repeat case_match; done.
Qed.

(** What a call of [add] that returns has written: the record of the node
    under its id, the id at the end of the child list of the parent's
    record, the node in the node table, and the id in the queue. *)
Lemma add_spec (node : LiveNode) (parent : option nat) (data : NodeInfo) (source : Source)
    (st st' : State) :
  add K H node parent data source st = Ok st' →
  let i := (assignId (handle node) st).1 in
  let st1 := (assignId (handle node) st).2 in
  let parentId := lookupId parent st1 in
  ∃ v, values st'
       = <[i := v]> (match parentId with
                     | Some pid => alter (push i) pid (values st)
                     | None => values st
                     end)
       ∧ id v = i ∧ Registry.parent v = parentId
       ∧ next v = getNextId (nextSiblings node) st1
       ∧ children v = [] ∧ Registry.data v = data ∧ active (metadata v) = true
       ∧ index st' = index st1 ∧ idMap st' = idMap st1
       ∧ nodes st' = <[i := handle node]> (nodes st)
       ∧ i ∈ updateMap st'
       ∧ ∀ j, j ∈ updateMap st → j ∈ updateMap st'.
Proof.
  unfold add. cbv zeta.
  pose proof (values_assignId (handle node) st) as Hv1.
  destruct (assignId_shape (handle node) st) as (m1 & x1 & Hst1).
  destruct (assignId (handle node) st) as [i st1]. cbn [fst snd] in *.
  assert (nodes st1 = nodes st ∧ updateMap st1 = updateMap st) as [Hn1 Hu1] by (by subst st1).
  clear Hst1.
  assert (∀ (s5 : State) (newv : NodeValue),
            (st ← updateSelector K H i (with_values (<[i := newv]> (values s5)) s5);
             st ← track_metadata K H (tag data) i (Registry.parent newv) st;
             Ok (track H i source true st)) = Ok st' →
            nodes s5 = <[i := handle node]> (nodes st) → updateMap s5 = updateMap st →
            index s5 = index st1 → idMap s5 = idMap st1 →
            children newv = [] → id newv = i → active (metadata newv) = true →
            ∃ v, values st' = <[i := v]> (values s5)
                 ∧ id v = i ∧ Registry.parent v = Registry.parent newv
                 ∧ next v = next newv
                 ∧ children v = [] ∧ Registry.data v = Registry.data newv
                 ∧ active (metadata v) = true
                 ∧ index st' = index st1 ∧ idMap st' = idMap st1
                 ∧ nodes st' = <[i := handle node]> (nodes st)
                 ∧ i ∈ updateMap st'
                 ∧ ∀ j, j ∈ updateMap st → j ∈ updateMap st') as Htail.
  { intros s5 newv Hrun Hnp Hup Hip Hmp Hc Hid Hact.
    apply add_tail in Hrun
      as (f & Hf & Hvalues & Hindex & HidMap & Hnodes & _ & _ & _ & Hin & Hmono).
    rewrite values_with_values, alter_insert_eq in Hvalues.
    unfold with_values in Hindex, HidMap, Hnodes, Hmono.
    cbn in Hindex, HidMap, Hnodes, Hmono.
    pose proof (Hf newv) as Hobs. unfold observed in Hobs. simplify_eq.
    exists (f newv). split_and!; try done; try congruence.
    intros j Hj. apply Hmono. by rewrite Hup. }
  assert (∀ s, let s4 := match attributes data ≫= (.!! CLARITY_REGION_ATTRIBUTE K) with
                         | Some reg =>
                             with_regionMap
                               (<[handle node := reg]> (regionMap (discoverShadow node s)))
                               (discoverShadow node s)
                         | None => discoverShadow node s
                         end in
               values s4 = values s ∧ nodes s4 = nodes s
               ∧ updateMap s4 = updateMap s ∧ index s4 = index s
               ∧ idMap s4 = idMap s) as Hr.
  { intros s. cbv zeta. destruct (discoverShadow_shape node s) as [l ->]. by case_match. }
  cbv zeta in Hr.
  destruct (lookupId parent st1) as [pid|] eqn:Hpid;
    [destruct (values st1 !! pid) as [pv|] eqn:Hpv|]; cbv beta iota zeta; intros Hrun.
  - destruct (Hr (modify pid (push i) st1)) as (Hr1 & Hr2 & Hr3 & Hr4 & Hr5).
    eapply Htail in Hrun;
      [|first [reflexivity
              |cbn [nodes updateMap index idMap with_nodes];
               rewrite ?Hr2, ?Hr3, ?Hr4, ?Hr5; unfold modify, with_values; cbn;
               congruence]..].
    cbn in Hrun. by rewrite Hr1, values_modify, Hv1 in Hrun.
  - destruct (Hr st1) as (Hr1 & Hr2 & Hr3 & Hr4 & Hr5).
    eapply Htail in Hrun;
      [|first [reflexivity
              |cbn [nodes updateMap index idMap with_nodes];
               rewrite ?Hr2, ?Hr3, ?Hr4, ?Hr5; unfold modify, with_values; cbn;
               congruence]..].
    cbn in Hrun. rewrite alter_id' by (by rewrite <- Hv1). by rewrite Hr1, Hv1 in Hrun.
  - destruct (Hr st1) as (Hr1 & Hr2 & Hr3 & Hr4 & Hr5).
    eapply Htail in Hrun;
      [|first [reflexivity
              |cbn [nodes updateMap index idMap with_nodes];
               rewrite ?Hr2, ?Hr3, ?Hr4, ?Hr5; unfold modify, with_values; cbn;
               congruence]..].
    cbn in Hrun. by rewrite Hr1, Hv1 in Hrun.
Qed.


(** [add] returns in a registry whose child lists hold registered ids. *)
Lemma add_runs (node : LiveNode) (parent : option nat) (data : NodeInfo) (source : Source)
    (st : State) :
  children_registered st → ∃ st', add K H node parent data source st = Ok st'.
Proof.
  intros Hwf. unfold add.
  pose proof (values_assignId (handle node) st) as Hv1.
  destruct (assignId (handle node) st) as [i st1]. cbn [fst snd] in *.
  destruct (lookupId parent st1) as [pid|] eqn:Hpid;
    [destruct (values st1 !! pid) as [pv|] eqn:Hpv|]; cbv beta iota zeta.
  - match goal with
    | |- ∃ st', updateSelector K H i ?s ≫= _ = _ =>
        match s with
        | context [<[i := ?v]> _] =>
            destruct (add_registers K H i v (tag data) (Some pid) (Some pid) source st s Hwf)
              as (st' & Hrun & _)
        end
    end; [reflexivity| |by exists st'].
    cbn. rewrite <- Hv1. repeat case_match; cbn; by rewrite ?values_discoverShadow.
  - match goal with
    | |- ∃ st', updateSelector K H i ?s ≫= _ = _ =>
        match s with
        | context [<[i := ?v]> _] =>
            destruct (add_registers K H i v (tag data) (Some pid) None source st s Hwf)
              as (st' & Hrun & _)
        end
    end; [reflexivity| |by exists st'].
    cbn. rewrite <- Hv1. repeat case_match; cbn; by rewrite ?values_discoverShadow.
  - match goal with
    | |- ∃ st', updateSelector K H i ?s ≫= _ = _ =>
        match s with
        | context [<[i := ?v]> _] =>
            destruct (add_registers K H i v (tag data) None None source st s Hwf)
              as (st' & Hrun & _)
        end
    end; [reflexivity| |by exists st'].
    cbn. rewrite <- Hv1. repeat case_match; cbn; by rewrite ?values_discoverShadow.
Qed.

Lemma assignId_spec (n : nat) (st : State) :
  idMap (assignId n st).2 !! n = Some (assignId n st).1
  ∧ (∀ m, m ≠ n → idMap (assignId n st).2 !! m = idMap st !! m)
  ∧ ((idMap st !! n = Some (assignId n st).1 ∧ index (assignId n st).2 = index st)
     ∨ (idMap st !! n = None ∧ (assignId n st).1 = index st
        ∧ index (assignId n st).2 = (index st + 1)%positive)).
Proof.
  unfold assignId. destruct (idMap st !! n) as [i|] eqn:Hn; cbn.
  - eauto.
  - rewrite lookup_insert_eq. split; [done|]. split; [|eauto].
    intros m Hm. by rewrite lookup_insert_ne.
Qed.

Lemma getNextId_idMap (siblings : list nat) (st st' : State) :
  idMap st' = idMap st → getNextId siblings st' = getNextId siblings st.
Proof.
  intros Hid. induction siblings as [|s rest IH]; [done|]. cbn. by rewrite Hid, IH.
Qed.

(** A node that was added is found again: by its id, and its id by the
    node; the record holds the data that were passed, the id the parent node
    has, the id of the first following sibling that has one, no children yet
    and the active flag; and the id is queued for the next flush. *)
Theorem add_then_lookup (node : LiveNode) (parent : option nat) (data : NodeInfo)
    (source : Source) (st : State) :
  children_registered st →
  ∃ st' v, add K H node parent data source st = Ok st'
           ∧ lookupId (Some (handle node)) st' = Some (id v)
           ∧ getNode (id v) st' = Some (handle node)
           ∧ has (handle node) st' = true
           ∧ get (handle node) st' = Some v
           ∧ getValue (id v) st' = Some v
           ∧ Registry.data v = data
           ∧ Registry.parent v = lookupId parent st'
           ∧ next v = getNextId (nextSiblings node) st'
           ∧ children v = []
           ∧ active (metadata v) = true
           ∧ id v ∈ updateMap st'.
Proof.
  intros Hwf. destruct (add_runs node parent data source st Hwf) as [st' Hrun].
  destruct (add_spec node parent data source st st' Hrun)
    as (v & Hvalues & Hid & Hparent & Hnext & Hchildren & Hdata & Hactive & Hindex & HidMap
        & Hnodes & Hin & _).
  destruct (assignId_spec (handle node) st) as (Hassigned & _ & _).
  exists st', v. rewrite Hid.
  assert (lookupId (Some (handle node)) st' = Some (assignId (handle node) st).1) as Hlookup.
  { cbn. by rewrite HidMap. }
  assert (values st' !! (assignId (handle node) st).1 = Some v) as Hv.
  { by rewrite Hvalues, lookup_insert_eq. }
  split_and!; try done.
  - unfold getNode. by rewrite Hnodes, lookup_insert_eq.
  - unfold has. rewrite Hlookup. apply has_key_true. rewrite Hnodes, lookup_insert_eq. eauto.
  - unfold get. rewrite Hlookup. exact Hv.
  - rewrite Hparent. unfold lookupId. by rewrite HidMap.
  - rewrite Hnext. symmetry. by apply getNextId_idMap.
Qed.

(** [add] writes two records: the one of the node, and the one of the
    parent, which gets the id of the node at the end of its child list. *)
Theorem add_appends_to_parent (node : LiveNode) (parent : option nat) (data : NodeInfo)
    (source : Source) (st : State) (pid : positive) (pv : NodeValue) :
  children_registered st →
  lookupId parent (assignId (handle node) st).2 = Some pid →
  values st !! pid = Some pv →
  pid ≠ (assignId (handle node) st).1 →
  ∃ st', add K H node parent data source st = Ok st'
         ∧ values st' !! pid
           = Some (set_children (children pv ++ [(assignId (handle node) st).1]) pv)
         ∧ ∀ j, j ≠ (assignId (handle node) st).1 → j ≠ pid →
                values st' !! j = values st !! j.
Proof.
  intros Hwf Hpid Hpv Hne. destruct (add_runs node parent data source st Hwf) as [st' Hrun].
  destruct (add_spec node parent data source st st' Hrun) as (v & Hvalues & _).
  cbv zeta in Hvalues. rewrite Hpid in Hvalues.
  exists st'. split; [done|]. rewrite Hvalues. split.
  - rewrite lookup_insert_ne, lookup_alter_eq, Hpv by done. reflexivity.
  - intros j Hj Hjp. by rewrite lookup_insert_ne, lookup_alter_ne.
Qed.

(** *** Well-formed registries stay well-formed *)

Lemma well_formed_reset (st : State) : well_formed (reset st).
Proof.
  unfold well_formed, ids_registered, ids_below_index, keyed, parents_registered,
    children_registered. cbn. split_and!; intros *; rewrite ?lookup_empty; done.
Qed.

Lemma add_well_formed (node : LiveNode) (parent : option nat) (data : NodeInfo)
    (source : Source) (st st' : State) :
  well_formed st → add K H node parent data source st = Ok st' → well_formed st'.
Proof.
  intros (Hids & Hbelow & Hkeyed & Hparents & Hchildren) Hrun.
  destruct (add_spec node parent data source st st' Hrun)
    as (v & Hvalues & Hid & Hparent & _ & Hnil & _ & _ & Hindex & HidMap & Hnodes & _).
  cbv zeta in *.
  destruct (assignId_spec (handle node) st) as (Hassigned & Hothers & Hcase).
  set (i := (assignId (handle node) st).1) in *.
  set (st1 := (assignId (handle node) st).2) in *.
  set (pushed := match lookupId parent st1 with
                 | Some pid => alter (push i) pid (values st)
                 | None => values st
                 end) in *.
  assert (∀ j w, pushed !! j = Some w →
                 ∃ w0, values st !! j = Some w0 ∧ id w = id w0
                       ∧ Registry.parent w = Registry.parent w0
                       ∧ ∀ c, c ∈ children w → c ∈ children w0 ∨ c = i) as Hpushed.
  { intros j w. unfold pushed. destruct (lookupId parent st1) as [pid|]; [|by eauto 10].
    intros [(<- & w0 & Hw0 & ->)|(_ & Hw)]%lookup_alter_Some; [|by eauto 10].
    exists w0. split_and!; try done. intros c. unfold push. cbn.
    rewrite elem_of_app, list_elem_of_singleton. tauto. }
  assert (∀ j, is_Some (values st !! j) → is_Some (values st' !! j)) as Hgrow.
  { intros j Hj. rewrite Hvalues. destruct (decide (i = j)) as [<-|Hne].
    - rewrite lookup_insert_eq. eauto.
    - rewrite lookup_insert_ne by done. unfold pushed.
      destruct (lookupId parent st1); [by apply lookup_alter_is_Some|done]. }
  assert (is_Some (values st' !! i)) as Hi by (rewrite Hvalues, lookup_insert_eq; eauto).
  assert ((index st ≤ index st1)%positive ∧ (i < index st1)%positive) as [Hle Hlt].
  { destruct Hcase as [[Hknown ->]|(Hnew & Hfresh & ->)].
    - split; [lia|]. apply Hbelow. by eapply Hids.
    - rewrite Hfresh. lia. }
  assert (∀ n j, n ≠ handle node → idMap st !! n = Some j → j ≠ i) as Hdistinct.
  { intros n j Hn Hj ->. destruct (Hids n i Hj) as [Hnode Hreg].
    destruct Hcase as [[Hknown _]|(_ & Hfresh & _)].
    - destruct (Hids _ _ Hknown) as [Hnode' _]. congruence.
    - apply Hbelow in Hreg. fold i in Hfresh. lia. }
  assert (ids_registered st') as Hids'.
  { intros n j. rewrite HidMap. destruct (decide (n = handle node)) as [->|Hn].
    - rewrite Hassigned. intros [= <-]. split; [|done]. by rewrite Hnodes, lookup_insert_eq.
    - rewrite Hothers by done. intros Hj. destruct (Hids n j Hj) as [Hnode Hreg].
      split; [|by apply Hgrow]. rewrite Hnodes, lookup_insert_ne; [done|].
      intros Heq. by eapply Hdistinct. }
  split_and!; [done|..].
  - intros j. rewrite Hindex, Hvalues. destruct (decide (i = j)) as [<-|Hne]; [done|].
    rewrite lookup_insert_ne by done. intros [w Hw].
    destruct (Hpushed j w Hw) as (w0 & Hw0 & _). specialize (Hbelow j). 
    assert (j < index st)%positive by eauto. lia.
  - intros j w. rewrite Hvalues. destruct (decide (i = j)) as [<-|Hne].
    + rewrite lookup_insert_eq. by intros [= <-].
    + rewrite lookup_insert_ne by done. intros Hw.
      destruct (Hpushed j w Hw) as (w0 & Hw0 & -> & _). by eapply Hkeyed.
  - intros j w p. rewrite Hvalues. destruct (decide (i = j)) as [<-|Hne].
    + rewrite lookup_insert_eq. intros [= <-]. rewrite Hparent.
      destruct parent as [pn|]; [|done]. cbn. rewrite <- HidMap. intros Hp.
      rewrite <- Hvalues. by eapply Hids'.
    + rewrite lookup_insert_ne by done. intros Hw.
      destruct (Hpushed j w Hw) as (w0 & Hw0 & _ & -> & _). intros Hp.
      rewrite <- Hvalues. apply Hgrow. by eapply Hparents.
  - intros j w c. rewrite Hvalues. destruct (decide (i = j)) as [<-|Hne].
    + rewrite lookup_insert_eq. intros [= <-]. rewrite Hnil. by intros ?%elem_of_nil.
    + rewrite lookup_insert_ne by done. intros Hw Hc.
      destruct (Hpushed j w Hw) as (w0 & Hw0 & _ & _ & Hcs). rewrite <- Hvalues.
      destruct (Hcs c Hc) as [Hc0| ->]; [|done]. apply Hgrow. by eapply Hchildren.
Qed.

(** [add] keeps a registry well-formed: every node that has an id is stored
    under it with a record, so no two nodes share an id; the counter is
    above every id in use; a record is stored under its own id; and the
    parent and the children that a record names are registered. *)
Theorem add_keeps_well_formed (node : LiveNode) (parent : option nat) (data : NodeInfo)
    (source : Source) (st : State) :
  well_formed st →
  ∃ st', add K H node parent data source st = Ok st'
         ∧ well_formed st'
         ∧ ∀ n m j, lookupId (Some n) st' = Some j → lookupId (Some m) st' = Some j → n = m.
Proof.
  intros Hwf. destruct (add_runs node parent data source st) as [st' Hrun]; [apply Hwf|].
  exists st'. split; [done|].
  pose proof (add_well_formed node parent data source st st' Hwf Hrun) as Hwf'.
  split; [done|]. intros n m j Hn Hm. destruct Hwf' as (Hids & _).
  destruct (Hids n j Hn) as [Hnode _]. destruct (Hids m j Hm) as [Hnode' _]. congruence.
Qed.

(** *** The next sibling, the mask and the comparison of observations *)

(** [getNextId] answers the id of the first following sibling that has one,
    and [null] when none has. *)
Theorem getNextId_first_with_id (siblings : list nat) (st : State) :
  match getNextId siblings st with
  | Some i => ∃ before s after,
                siblings = before ++ s :: after
                ∧ Forall (λ x, lookupId (Some x) st = None) before
                ∧ lookupId (Some s) st = Some i
  | None => Forall (λ x, lookupId (Some x) st = None) siblings
  end.
Proof.
  induction siblings as [|s rest IH]; cbn; [done|].
  destruct (idMap st !! s) as [i|] eqn:Hs.
  - exists [], s, rest. done.
  - destruct (getNextId rest st) as [i|].
    + destruct IH as (before & s' & after & -> & Hbefore & Hs').
      exists (s :: before), s', after. split; [done|]. split; [|done].
      constructor; done.
    + constructor; done.
Qed.

Lemma blacklist_fold (value : string) (names : list string) (m : bool) :
  foldl (λ (masked : bool) name, if contains value name then true else masked) m names
  = m || existsb (contains value) names.
Proof.
  revert m. induction names as [|name names IH]; intros m; cbn.
  - by rewrite orb_false_r.
  - rewrite IH. by destruct (contains value name), m.
Qed.

(** The decision of [mask], by priority: the unmask override, the mask
    override, a blacklisted type, the inherited flag, and last, for an input
    that is not masked yet, a blacklisted word in its name. Without an
    attribute map the inherited flag is the answer. *)
Theorem mask_decision (data : NodeInfo) (inherited : bool) :
  mask K data inherited
  = match attributes data with
    | None => inherited
    | Some a =>
        if has_key (UNMASK_ATTRIBUTE K) a then false
        else if has_key (MASK_ATTRIBUTE K) a then true
        else if has_key (TYPE_ATTRIBUTE K) a
                && bool_decide (default "" (a !! TYPE_ATTRIBUTE K) ∈ BLACKLIST_TYPES) then true
        else if inherited then true
        else String.eqb (toUpperCase (tag data)) (TAG_INPUT K)
             && has_key (NAME_ATTRIBUTE K) a
             && existsb (contains (toLowerCase (default "" (a !! NAME_ATTRIBUTE K))))
                        BLACKLIST_NAMES
    end.
Proof.
  unfold mask. destruct (attributes data) as [a|]; [|done]. cbv zeta.
  rewrite blacklist_fold.
  destruct (has_key (UNMASK_ATTRIBUTE K) a); [done|].
  destruct (has_key (MASK_ATTRIBUTE K) a); [done|].
  destruct (has_key (TYPE_ATTRIBUTE K) a
            && bool_decide (default "" (a !! TYPE_ATTRIBUTE K) ∈ BLACKLIST_TYPES)); [done|].
  destruct inherited; cbn [negb andb]; [done|].
  by destruct (String.eqb _ (TAG_INPUT K)), (has_key (NAME_ATTRIBUTE K) a).
Qed.

Lemma diff_object_false `{EqDecision V} (a b : gmap string V) :
  diff_object a b = false ↔ a = b.
Proof.
  unfold diff_object. split.
  - intros [Ha Hb]%orb_false_elim. apply map_eq. intros key.
    assert (∀ (m m' : gmap string V),
              existsb (λ k, bool_decide (m !! k ≠ m' !! k)) (map_to_list m).*1 = false →
              is_Some (m !! key) → m !! key = m' !! key) as Hkey.
    { intros m m' Hex [x Hx].
      destruct (decide (m !! key = m' !! key)) as [|Hne]; [done|].
      assert (existsb (λ k, bool_decide (m !! k ≠ m' !! k)) (map_to_list m).*1 = true)
        as Htrue; [|congruence].
      apply existsb_exists. exists key. split; [|by apply bool_decide_eq_true].
      apply list_elem_of_In, list_elem_of_fmap. exists (key, x).
      split; [done|]. by apply elem_of_map_to_list. }
    destruct (a !! key) as [x|] eqn:Hx.
    + rewrite <- Hx. apply Hkey; [done|]. rewrite Hx. eauto.
    + destruct (b !! key) as [y|] eqn:Hy; [|done].
      rewrite <- Hx, <- Hy. symmetry. apply Hkey; [done|]. rewrite Hy. eauto.
  - intros ->. apply orb_false_intro.
    + destruct (existsb _ _) eqn:Hex; [|done].
      apply existsb_exists in Hex as (k & _ & Hk). by apply bool_decide_eq_true in Hk.
    + destruct (existsb _ _) eqn:Hex; [|done].
      apply existsb_exists in Hex as (k & _ & Hk). by apply bool_decide_eq_true in Hk.
Qed.

Lemma diff_optional_object_false `{EqDecision V} (a b : option (gmap string V)) :
  diff_optional_object a b = false ↔ a = b.
Proof.
  destruct a as [ma|], b as [mb|]; cbn; try done.
  rewrite diff_object_false. split; [by intros ->|by intros [= ->]].
Qed.

Lemma diff_false (a b : NodeInfo) (field : Field) :
  diff a b field = false
  ↔ match field with
    | FTag => tag a = tag b
    | FPath => path a = path b
    | FAttributes => attributes a = attributes b
    | FLayout => layout a = layout b
    | FStyle => style a = style b
    | FValue => value a = value b
    end.
Proof.
  destruct field; cbn; rewrite ?diff_optional_object_false; try done;
    rewrite bool_decide_eq_false; split; try (by intros ->%dec_stable); by intros -> ?.
Qed.

(** [diff] finds a change in some field exactly when the two observations
    differ: a field compared key by key, in both directions, differs exactly
    when the two maps do. *)
Theorem diff_finds_every_change (a b : NodeInfo) :
  (∀ field, diff a b field = false) ↔ a = b.
Proof.
  split.
  - intros Hall.
    pose proof (proj1 (diff_false a b FTag) (Hall _)).
    pose proof (proj1 (diff_false a b FPath) (Hall _)).
    pose proof (proj1 (diff_false a b FAttributes) (Hall _)).
    pose proof (proj1 (diff_false a b FLayout) (Hall _)).
    pose proof (proj1 (diff_false a b FStyle) (Hall _)).
    pose proof (proj1 (diff_false a b FValue) (Hall _)).
    destruct a, b. cbn in *. by subst.
  - intros -> field. apply diff_false. by destruct field.
Qed.

(** *** The queue *)

Lemma filter_all {A} (P : A → Prop) `{∀ x, Decision (P x)} (l : list A) :
  Forall P l → filter P l = l.
Proof.
  induction 1 as [|x l Hx _ IH]; [done|]. by rewrite filter_cons_True, IH.
Qed.

Lemma filter_none {A} (P : A → Prop) `{∀ x, Decision (P x)} (l : list A) :
  Forall (λ x, ¬ P x) l → filter P l = [].
Proof.
  induction 1 as [|x l Hx _ IH]; [done|]. by rewrite filter_cons_False, IH.
Qed.

Lemma splice_remove_NoDup {A} `{EqDecision A} (x : A) (l : list A) (n : nat) :
  NoDup l → l !! n = Some x → splice_remove n l = filter (λ y, y ≠ x) l.
Proof.
  intros Hnd Hn. unfold splice_remove.
  rewrite <- (take_drop_middle _ _ _ Hn) in Hnd at 1.
  apply NoDup_app in Hnd as (_ & Hdisj & [Hx _]%NoDup_cons).
  rewrite <- (take_drop_middle _ _ _ Hn) at 3.
  rewrite filter_app, filter_cons_False by (by intros ?).
  rewrite !filter_all; [done|..]; apply Forall_forall.
  - intros y Hy ->. done.
  - intros y Hy ->. eapply Hdisj; [exact Hy|]. apply list_elem_of_here.
Qed.

(** [track] keeps the queue free of duplicates. An id that is not queued is
    put at the end when the node changed; one that is queued stays where it
    is, unless the source is the addition to a child list, which moves it to
    the end. The records are not touched. *)
Theorem track_orders_queue (i : positive) (source : Source) (changed : bool) (st : State) :
  NoDup (updateMap st) →
  NoDup (updateMap (track H i source changed st))
  ∧ (i ∉ updateMap st →
     updateMap (track H i source changed st)
     = if changed then updateMap st ++ [i] else updateMap st)
  ∧ (i ∈ updateMap st →
     updateMap (track H i source changed st)
     = if decide (source = ChildListAdd)
       then filter (λ j, j ≠ i) (updateMap st) ++ [i]
       else updateMap st)
  ∧ values (track H i source changed st) = values st.
Proof.
  intros Hnd. rewrite updateMap_track, values_track.
  destruct (indexOf i (updateMap st)) as [u|] eqn:Hu.
  - apply indexOf_Some in Hu as [Hu _].
    assert (i ∈ updateMap st) as Hin by (by eapply list_elem_of_lookup_2).
    rewrite (splice_remove_NoDup i _ _ Hnd Hu).
    split_and!; [|done|done|done].
    destruct (decide _); [|done]. apply NoDup_app. split_and!.
    + by apply NoDup_filter.
    + intros j [Hj _]%list_elem_of_filter ->%list_elem_of_singleton. done.
    + apply NoDup_singleton.
  - apply indexOf_None in Hu. split_and!; [|done|done|done].
    destruct changed; [|done]. apply NoDup_app. split_and!; [done| |apply NoDup_singleton].
    intros j Hj ->%list_elem_of_singleton. done.
Qed.

(** *** The flush, record by record *)

Lemma Forall2_omap {A B} (f : A → option B) (P : A → B → Prop) (l : list A) :
  (∀ x, x ∈ l → ∃ y, f x = Some y ∧ P x y) → Forall2 P l (omap f l).
Proof.
  induction l as [|x l IH]; intros Hall; cbn; [constructor|].
  destruct (Hall x) as (y & -> & Hy); [apply list_elem_of_here|].
  constructor; [done|]. apply IH. intros z Hz. apply Hall. by apply list_elem_of_further.
Qed.

(** The flush returns one record for each queued id that is registered, in
    the order of the queue: the stored record with its path rewritten.
    Records that were not queued are left as they are, and nothing else of
    the registry changes but the queue, which is emptied. *)
Theorem flush_returns_queue_in_order (st st' : State) (out : list NodeValue) :
  updates K st = Ok (out, st') →
  Forall2 (λ i r, ∃ v p, values st !! i = Some v
                         ∧ flush_path K (updateMap st) st v = Ok p
                         ∧ r = with_path p v
                         ∧ values st' !! i = Some r)
          (filter (λ i, is_Some (values st !! i)) (updateMap st)) out
  ∧ (∀ j, j ∉ updateMap st → values st' !! j = values st !! j)
  ∧ st' = with_updateMap [] (with_values (values st') st).
Proof.
  unfold updates. intros Hrun.
  destruct (for_each _ _ _) as [[ids st1]|e] eqn:Hloop; [|done].
  injection Hrun as <- <-.
  apply flush_loop in Hloop as (-> & Hframe & Hj). cbn [app].
  split; [|split].
  - apply Forall2_omap. intros i [[v Hv] Hi]%list_elem_of_filter.
    specialize (Hj i). unfold flushed in Hj. rewrite Hv, decide_True in Hj by done.
    destruct Hj as (p & Hp & Hst1). exists (with_path p v). split; [done|].
    exists v, p. done.
  - intros j Hnin. cbn. specialize (Hj j). unfold flushed in Hj.
    destruct (values st !! j) as [v|]; [|done]. by rewrite decide_False in Hj.
  - rewrite Hframe at 1. reflexivity.
Qed.

(** *** Steps that keep a registry well-formed *)

Lemma evolves_refl (i : option positive) (st : State) : evolves i st st.
Proof.
  unfold evolves. split_and!; try done. intros j v Hv. exists v. split_and!; eauto.
Qed.

Lemma evolves_trans (i : option positive) (st1 st2 st3 : State) :
  evolves i st1 st2 → evolves i st2 st3 → evolves i st1 st3.
Proof.
  intros (Hx1 & Hm1 & Hn1 & Hg1 & Hv1) (Hx2 & Hm2 & Hn2 & Hg2 & Hv2).
  unfold evolves. split_and!; try congruence; [eauto|].
  intros j v3 H3. destruct (Hv2 j v3 H3) as (v2 & H2 & Hid2 & Hp2 & Hc2).
  destruct (Hv1 j v2 H2) as (v1 & H1 & Hid1 & Hp1 & Hc1).
  exists v1. split_and!; [done|congruence| |].
  - destruct Hp2 as [Hp2|[Hp2|(-> & pid & Hp2 & [pv Hpid])]]; [|by eauto|].
    + rewrite Hp2. destruct Hp1 as [?|[?|?]]; eauto.
    + right. right. split; [done|]. exists pid. split; [done|].
      destruct (Hv1 pid pv Hpid) as (pv1 & -> & _). eauto.
  - intros c Hc. destruct (Hc2 c Hc) as [Hc'|]; [|by right]. eauto.
Qed.

Lemma evolves_values (i : option positive) (st st' : State) :
  values st' = values st → index st' = index st → idMap st' = idMap st →
  nodes st' = nodes st → evolves i st st'.
Proof.
  intros Hv Hx Hm Hn. unfold evolves. rewrite Hv. split_and!; try done.
  intros j v Hj. exists v. split_and!; eauto.
Qed.

Lemma evolves_modify (i : option positive) (j : positive) (f : NodeValue → NodeValue)
    (st : State) :
  (∀ v, id (f v) = id v) →
  (∀ v, values st !! j = Some v →
        Registry.parent (f v) = Registry.parent v ∨ Registry.parent (f v) = None
        ∨ (i = Some j ∧ ∃ pid, Registry.parent (f v) = Some pid ∧ is_Some (values st !! pid))) →
  (∀ v c, c ∈ children (f v) → c ∈ children v ∨ i = Some c) →
  evolves i st (modify j f st).
Proof.
  intros Hid Hparent Hchildren. unfold evolves. split_and!; try done.
  - intros x Hx. rewrite lookup_modify. case_decide; [|done]. subst.
    destruct Hx as [v ->]. cbn. eauto.
  - intros x v'. rewrite lookup_modify. case_decide as Hx.
    + subst x. destruct (values st !! j) as [v|] eqn:Hv; [|done]. intros [= <-].
      exists v. split_and!; eauto.
    + intros Hv. exists v'. split_and!; eauto.
Qed.

Lemma evolves_track (x : option positive) (i : positive) (source : Source) (changed : bool)
    (st : State) :
  evolves x st (track H i source changed st).
Proof.
  destruct (kept_track H i source changed st) as (? & ? & ? & _).
  apply evolves_values; try done. apply values_track.
Qed.

Lemma evolves_cosmetic (x : option positive) (i : positive) (f : NodeValue → NodeValue)
    (st : State) :
  cosmetic f → evolves x st (modify i f st).
Proof.
  intros Hf. apply evolves_modify.
  - intros v. specialize (Hf v). unfold observed in Hf. by simplify_eq.
  - intros v _. left. specialize (Hf v). unfold observed in Hf. by simplify_eq.
  - intros v c Hc. left. specialize (Hf v). unfold observed in Hf. simplify_eq. congruence.
Qed.

Lemma updateSelector_evolves (x : option positive) (i : positive) (st st' : State) :
  updateSelector K H i st = Ok st' → evolves x st st'.
Proof.
  intros (f & s & Hf & ->)%updateSelector_cosmetic.
  eapply evolves_trans; [by apply (evolves_cosmetic x i f)|]. by apply evolves_values.
Qed.

Lemma track_metadata_evolves (x : option positive) (i : positive) (tag : string)
    (parentId : option positive) (st st' : State) :
  track_metadata K H tag i parentId st = Ok st' → evolves x st st'.
Proof.
  intros (f & m & Hf & ->)%track_metadata_cosmetic.
  eapply evolves_trans; [by apply (evolves_cosmetic x i f)|]. by apply evolves_values.
Qed.

Lemma well_formed_evolves (i : option positive) (st st' : State) :
  well_formed st → (∀ x, i = Some x → is_Some (values st !! x)) → evolves i st st' →
  well_formed st'.
Proof.
  intros (Hids & Hbelow & Hkeyed & Hparents & Hchildren) Hi (Hx & Hm & Hn & Hgrow & Hv).
  unfold well_formed. split_and!.
  - intros n j. rewrite Hm, Hn. intros Hj. destruct (Hids n j Hj). eauto.
  - intros j [v' Hj]. rewrite Hx. destruct (Hv j v' Hj) as (v & Hv' & _). eauto.
  - intros j v' Hj. destruct (Hv j v' Hj) as (v & Hv' & -> & _). eauto.
  - intros j v' pid Hj Hp. destruct (Hv j v' Hj) as (v & Hv' & _ & Hparent & _).
    destruct Hparent as [Heq|[Heq|(_ & pid' & Heq & Hreg)]].
    + rewrite Heq in Hp. apply Hgrow. by eapply Hparents.
    + congruence.
    + rewrite Heq in Hp. injection Hp as ->. by apply Hgrow.
  - intros j v' c Hj Hc. destruct (Hv j v' Hj) as (v & Hv' & _ & _ & Hcs).
    destruct (Hcs c Hc) as [Hc'|Hc']; apply Hgrow; [by eapply Hchildren|by apply Hi].
Qed.

Lemma for_each_rel {A S} (R : S → S → Prop) (body : A → S → result S) :
  (∀ s, R s s) → (∀ s1 s2 s3, R s1 s2 → R s2 s3 → R s1 s3) →
  ∀ l, (∀ a s s', a ∈ l → body a s = Ok s' → R s s') →
       ∀ s s', for_each body l s = Ok s' → R s s'.
Proof.
  intros Hrefl Htrans. induction l as [|a l IH]; intros Hbody s s'; cbn.
  - by intros [= <-].
  - destruct (body a s) as [s1|] eqn:Ha; [|done]. cbn. intros Hrest.
    eapply Htrans; [eapply Hbody; [apply list_elem_of_here|exact Ha]|].
    eapply IH; [|exact Hrest]. intros b t t' Hb. apply Hbody. by apply list_elem_of_further.
Qed.

Lemma remove_evolves (x : option positive) (fuel : nat) (source : Source) :
  ∀ i st st', remove H fuel i source st = Ok st' → evolves x st st'.
Proof.
  induction fuel as [|fuel IH]; intros i st st'; [done|]. cbn [remove].
  destruct (values st !! i) as [value|]; [|done]. cbn.
  fold (detached H i source st).
  destruct (for_each _ _ _) as [st4|] eqn:Hloop; [|done]. cbn. intros [= <-].
  assert (evolves x st (detached H i source st)) as H3.
  { unfold detached. eapply evolves_trans; [|apply evolves_track].
    eapply evolves_trans; apply evolves_modify; eauto. }
  eapply evolves_trans; [exact H3|]. eapply evolves_trans.
  - eapply (for_each_rel (evolves x)); [apply evolves_refl|apply evolves_trans| |exact Hloop].
    intros c s s' _. apply IH.
  - apply evolves_modify; eauto. intros v c Hc. cbn in Hc. by apply elem_of_nil in Hc.
Qed.

Lemma updates_evolves (x : option positive) (st st' : State) (out : list NodeValue) :
  updates K st = Ok (out, st') → evolves x st st'.
Proof.
  unfold updates. intros Hrun.
  destruct (for_each _ _ _) as [[ids st1]|e] eqn:Hloop; [|done].
  injection Hrun as <- <-.
  apply flush_loop in Hloop as (-> & Hframe & Hj).
  apply (evolves_trans _ _ st1); [|by apply evolves_values].
  unfold evolves. split_and!; try (by rewrite Hframe).
  - intros j [v Hv]. specialize (Hj j). unfold flushed in Hj. rewrite Hv in Hj.
    case_decide; [destruct Hj as (p & _ & ->)|rewrite Hj]; eauto.
  - intros j v'. specialize (Hj j). unfold flushed in Hj.
    destruct (values st !! j) as [v|]; [|congruence].
    case_decide; [destruct Hj as (p & _ & ->)|rewrite Hj]; intros [= <-];
      exists v; split_and!; eauto.
Qed.

(** [remove] and the flush keep a registry well-formed: [remove] returns
    when the child lists under the node are no deeper than the fuel, the
    flush always. *)
Theorem remove_and_flush_keep_well_formed (st : State) :
  well_formed st →
  (∀ fuel i source, depth_bounded fuel (values st) i →
                    ∃ st', remove H fuel i source st = Ok st' ∧ well_formed st')
  ∧ (∃ out st', updates K st = Ok (out, st') ∧ well_formed st').
Proof.
  intros Hwf. split.
  - intros fuel i source Hdepth.
    destruct (remove_spec H fuel source i st Hdepth) as (st' & Hrun & _).
    exists st'. split; [done|].
    eapply (well_formed_evolves None); [done|done|by eapply remove_evolves].
  - destruct (flush_loop_runs K (updateMap st) (updateMap st) [] st) as (ids & st1 & Hloop);
      [apply Hwf|].
    assert (updates K st = Ok (omap (values st1 !!.) ids, with_updateMap [] st1)) as Hrun
      by (unfold updates; by rewrite Hloop).
    eexists _, _. split; [exact Hrun|].
    eapply (well_formed_evolves None); [done|done|by eapply updates_evolves].
Qed.

(** *** [update], part by part *)

Lemma update_unfold (fuel : nat) (node : LiveNode) (parent : option nat) (data : NodeInfo)
    (source : Source) (st : State) :
  update K H fuel node parent data source st
  = let parentId := lookupId parent st in
    let nextId := getNextId (nextSiblings node) st in
    match lookupId (Some (handle node)) st with
    | None => Ok st
    | Some i =>
        match values st !! i with
        | None => Ok st
        | Some value =>
            let s0 := modify i (λ v, set_metadata (set_active true (metadata v)) v) st in
            let acc1 := if bool_decide (next value ≠ nextId)
                        then (true, modify i (set_next nextId) s0)
                        else (false, s0) in
            acc2 ← (if bool_decide (Registry.parent value ≠ parentId)
                    then
                      st ← relink H fuel node i parentId nextId source
                             (modify i (set_parent parentId) acc1.2);
                      st ← unlink i (Registry.parent value) st;
                      Ok (true, st)
                    else Ok acc1);
            finish_update K H node i data parentId source acc2
        end
    end.
Proof.
  unfold update. cbv zeta.
  destruct (lookupId (Some (handle node)) st) as [i|]; [|done].
  destruct (values st !! i) as [value|]; [|done].
  destruct (bool_decide (next value ≠ _)); cbn [fst snd];
    destruct (bool_decide (Registry.parent value ≠ _)); reflexivity.
Qed.

Lemma elem_of_splice_insert {A} (n : nat) (x c : A) (l : list A) :
  c ∈ splice_insert n x l → c ∈ l ∨ c = x.
Proof.
  unfold splice_insert. rewrite <- (take_drop n l) at 3.
  rewrite !elem_of_app, elem_of_cons. tauto.
Qed.

Lemma elem_of_splice_remove {A} (n : nat) (c : A) (l : list A) :
  c ∈ splice_remove n l → c ∈ l.
Proof.
  unfold splice_remove. rewrite elem_of_app. intros [Hc|Hc].
  - by eapply subseteq_take.
  - by eapply subseteq_drop.
Qed.

Lemma relink_evolves (fuel : nat) (node : LiveNode) (i : positive)
    (parentId nextId : option positive) (source : Source) (st st' : State) :
  relink H fuel node i parentId nextId source st = Ok st' → evolves (Some i) st st'.
Proof.
  unfold relink. destruct parentId as [pid|]; [|apply remove_evolves].
  destruct (values st !! pid) as [pv0|]; [|done]. cbn.
  match goal with
  | |- context [values ?s !! pid] => set (sc := s)
  end.
  destruct (values sc !! pid) as [pv|]; [|done]. cbn. intros [= <-].
  apply (evolves_trans _ _ sc).
  - unfold sc. destruct nextId as [n|]; apply evolves_modify; eauto.
    + intros v c Hc. cbn in Hc. apply elem_of_splice_insert in Hc as [?| ->]; eauto.
    + intros v c Hc. cbn in Hc. apply elem_of_app in Hc as [?| ->%list_elem_of_singleton]; eauto.
  - apply evolves_modify; eauto.
Qed.

Lemma unlink_evolves (x : option positive) (i : positive) (oldParentId : option positive)
    (st st' : State) :
  unlink i oldParentId st = Ok st' → evolves x st st'.
Proof.
  unfold unlink. destruct oldParentId as [old|]; [|intros [= <-]; apply evolves_refl].
  destruct (values st !! old) as [ov|]; [|done]. cbn.
  destruct (indexOf i (children ov)); intros [= <-]; [|apply evolves_refl].
  apply evolves_modify; eauto. intros v c Hc. cbn in Hc.
  apply elem_of_splice_remove in Hc. eauto.
Qed.

Lemma update_field_evolves (x : option positive) (i : positive) (data : NodeInfo)
    (field : Field) (acc acc' : bool * State) :
  update_field i data field acc = Ok acc' → evolves x acc.2 acc'.2.
Proof.
  destruct acc as [changed s]. unfold update_field.
  destruct (present data field); [|intros [= <-]; apply evolves_refl].
  destruct (values s !! i) as [value|]; [|done]. cbn.
  destruct (diff _ _ _); intros [= <-]; [|apply evolves_refl].
  apply evolves_modify; eauto.
Qed.

Lemma discoverShadow_evolves (x : option positive) (node : LiveNode) (st : State) :
  evolves x st (discoverShadow node st).
Proof. destruct (discoverShadow_shape node st) as [l ->]. by apply evolves_values. Qed.

Lemma finish_update_evolves (x : option positive) (node : LiveNode) (i : positive)
    (data : NodeInfo) (parentId : option positive) (source : Source) (acc : bool * State)
    (st' : State) :
  finish_update K H node i data parentId source acc = Ok st' → evolves x acc.2 st'.
Proof.
  destruct acc as [changed s]. unfold finish_update.
  destruct (for_each _ _ _) as [[changed' s1]|] eqn:Hloop; [|done]. cbn.
  destruct (updateSelector K H i s1) as [s2|] eqn:H2; [|done]. cbn.
  destruct (track_metadata K H (tag data) i parentId s2) as [s3|] eqn:H3; [|done]. cbn.
  intros [= <-].
  apply (evolves_trans _ _ (discoverShadow node s)); [apply discoverShadow_evolves|].
  apply (evolves_trans _ _ s1).
  { apply (for_each_rel (λ a b : bool * State, evolves x a.2 b.2)) in Hloop; [done|..].
    - intros ?. apply evolves_refl.
    - intros ? ? ?. apply evolves_trans.
    - intros f a a' _. apply update_field_evolves. }
  apply (evolves_trans _ _ s2); [by eapply updateSelector_evolves|].
  apply (evolves_trans _ _ s3); [by eapply track_metadata_evolves|apply evolves_track].
Qed.

(** What [update] changes of the records: see [evolves]. *)
Lemma update_evolves (fuel : nat) (node : LiveNode) (parent : option nat) (data : NodeInfo)
    (source : Source) (st st' : State) :
  update K H fuel node parent data source st = Ok st' →
  evolves (lookupId (Some (handle node)) st) st st'.
Proof.
  rewrite update_unfold. cbv zeta.
  destruct (lookupId (Some (handle node)) st) as [i|]; [|intros [= <-]; apply evolves_refl].
  destruct (values st !! i) as [value|] eqn:Hvalue; [|intros [= <-]; apply evolves_refl].
  set (s0 := modify i (λ v, set_metadata (set_active true (metadata v)) v) st).
  set (acc1 := if bool_decide (next value ≠ _) then _ else _).
  assert (evolves (Some i) st acc1.2) as E1.
  { apply (evolves_trans _ _ s0); [apply evolves_modify; eauto|].
    unfold acc1. destruct (bool_decide _); [|apply evolves_refl].
    apply evolves_modify; eauto. }
  destruct (bool_decide (Registry.parent value ≠ _)).
  - set (sp := modify i (set_parent (lookupId parent st)) acc1.2).
    destruct (relink H fuel node i _ _ source sp) as [s3|] eqn:H3; [|done]. cbn.
    destruct (unlink i (Registry.parent value) s3) as [s4|] eqn:H4; [|done]. cbn.
    intros Hfinish. apply (finish_update_evolves (Some i)) in Hfinish. cbn in Hfinish.
    apply (evolves_trans _ _ acc1.2); [done|].
    apply (evolves_trans _ _ sp).
    { apply evolves_modify; eauto. intros v Hv.
      destruct (lookupId parent st) as [pid|] eqn:Hpid; [|by eauto].
      right. right. split; [done|]. exists pid. split; [done|].
      unfold relink in H3. destruct (values sp !! pid) as [pv|] eqn:Hpv; [|done].
      unfold sp in Hpv. rewrite lookup_modify in Hpv.
      case_decide; [subst; rewrite Hv; eauto|eauto]. }
    apply (evolves_trans _ _ s3); [by eapply relink_evolves|].
    apply (evolves_trans _ _ s4); [by eapply unlink_evolves|done].
  - cbn. intros Hfinish. apply (finish_update_evolves (Some i)) in Hfinish.
    by apply (evolves_trans _ _ acc1.2).
Qed.

Lemma relink_runs (fuel : nat) (node : LiveNode) (i : positive)
    (parentId nextId : option positive) (source : Source) (st : State) :
  (∀ pid, parentId = Some pid → is_Some (values st !! pid)) →
  (parentId = None → depth_bounded fuel (values st) i) →
  ∃ st', relink H fuel node i parentId nextId source st = Ok st'.
Proof.
  intros Hpid Hdepth. unfold relink. destruct parentId as [pid|].
  - destruct (Hpid pid eq_refl) as [pv0 Hpv0]. rewrite Hpv0. cbn.
    destruct nextId as [n|]; rewrite lookup_modify, decide_True, Hpv0 by done; cbn; eauto.
  - destruct (remove_spec H fuel source i st (Hdepth eq_refl)) as (st' & -> & _). eauto.
Qed.

Lemma unlink_runs (i : positive) (oldParentId : option positive) (st : State) :
  (∀ old, oldParentId = Some old → is_Some (values st !! old)) →
  ∃ st', unlink i oldParentId st = Ok st'.
Proof.
  intros Hold. unfold unlink. destruct oldParentId as [old|]; [|eauto].
  destruct (Hold old eq_refl) as [ov ->]. cbn. destruct (indexOf i (children ov)); eauto.
Qed.

Lemma update_fields_run (i : positive) (data : NodeInfo) (fields : list Field) :
  ∀ changed s, is_Some (values s !! i) →
               ∃ acc', for_each (update_field i data) fields (changed, s) = Ok acc'.
Proof.
  induction fields as [|f fields IH]; intros changed s Hi; cbn; [eauto|].
  destruct Hi as [value Hvalue]. rewrite Hvalue.
  destruct (present data f); cbn; [|apply IH; eauto].
  destruct (diff _ _ _); cbn; apply IH; [|eauto].
  rewrite lookup_modify, decide_True, Hvalue by done. cbn. eauto.
Qed.

Lemma finish_update_runs (node : LiveNode) (i : positive) (data : NodeInfo)
    (parentId : option positive) (source : Source) (changed : bool) (s : State) :
  well_formed s → is_Some (values s !! i) →
  ∃ st', finish_update K H node i data parentId source (changed, s) = Ok st'.
Proof.
  intros Hwf Hi. unfold finish_update.
  pose proof (discoverShadow_evolves None node s) as E0.
  destruct (update_fields_run i data all_fields changed (discoverShadow node s))
    as [[changed' s1] Hloop]; [by apply E0|].
  rewrite Hloop. cbn.
  assert (evolves None s s1) as E1.
  { apply (evolves_trans _ _ (discoverShadow node s)); [done|].
    apply (for_each_rel (λ a b : bool * State, evolves None a.2 b.2)) in Hloop; [done|..].
    - intros ?. apply evolves_refl.
    - intros ? ? ?. apply evolves_trans.
    - intros f a a' _. apply update_field_evolves. }
  assert (well_formed s1) as Hwf1 by (by eapply (well_formed_evolves None)).
  assert (is_Some (values s1 !! i)) as Hi1 by (by apply E1).
  destruct (updateSelector_ok K H i s1) as (s2 & -> & Hm2); [apply Hwf1|done|]. cbn.
  destruct (track_metadata_ok K H (tag data) i parentId s2) as (s3 & -> & _).
  { by eapply same_masks_registered. }
  cbn. eauto.
Qed.

Lemma shrinks_refl (st : State) : shrinks st st.
Proof. intros j v Hv. eauto. Qed.

Lemma shrinks_trans (st1 st2 st3 : State) :
  shrinks st1 st2 → shrinks st2 st3 → shrinks st1 st3.
Proof.
  intros H12 H23 j v Hv. destruct (H12 j v Hv) as (v2 & Hv2 & Hc2).
  destruct (H23 j v2 Hv2) as (v3 & Hv3 & Hc3). exists v3. split; [done|].
  destruct Hc3 as [Hc3|Hc3]; [|by right]. rewrite Hc3. done.
Qed.

Lemma shrinks_modify (i : positive) (f : NodeValue → NodeValue) (st : State) :
  (∀ v, children (f v) = children v) → shrinks st (modify i f st).
Proof.
  intros Hf j v Hv. rewrite lookup_modify, Hv. case_decide; cbn; eauto.
Qed.

(** [update] returns in a well-formed registry, when the child lists under
    a node that is being detached are no deeper than the fuel. *)
Lemma update_runs (fuel : nat) (node : LiveNode) (parent : option nat) (data : NodeInfo)
    (source : Source) (st : State) :
  well_formed st →
  (∀ i, lookupId (Some (handle node)) st = Some i → lookupId parent st = None →
        depth_bounded fuel (values st) i) →
  ∃ st', update K H fuel node parent data source st = Ok st'.
Proof.
  intros Hwf Hdepth. rewrite update_unfold. cbv zeta.
  destruct (lookupId (Some (handle node)) st) as [i|] eqn:Hi; [|eauto].
  destruct (values st !! i) as [value|] eqn:Hvalue; [|eauto].
  set (s0 := modify i (λ v, set_metadata (set_active true (metadata v)) v) st).
  set (acc1 := if bool_decide (next value ≠ _) then _ else _).
  assert (evolves (Some i) st acc1.2) as E1.
  { apply (evolves_trans _ _ s0); [apply evolves_modify; eauto|].
    unfold acc1. destruct (bool_decide _); [|apply evolves_refl].
    apply evolves_modify; eauto. }
  assert (∀ x, Some i = Some x → is_Some (values st !! x)) as Hreg
    by (intros x [= <-]; eauto).
  destruct (bool_decide (Registry.parent value ≠ _)).
  - set (sp := modify i (set_parent (lookupId parent st)) acc1.2).
    assert (∀ pid, lookupId parent st = Some pid → is_Some (values st !! pid)) as Hpid.
    { intros pid Hpid. destruct parent as [pn|]; [|done]. cbn in Hpid.
      destruct Hwf as (Hids & _). by eapply Hids. }
    assert (evolves (Some i) st sp) as Ep.
    { apply (evolves_trans _ _ acc1.2); [done|]. apply evolves_modify; eauto.
      intros v Hv. destruct (lookupId parent st) as [pid|] eqn:Hp; [|by eauto].
      right. right. split; [done|]. exists pid. split; [done|].
      apply E1. by apply Hpid. }
    destruct (relink_runs fuel node i (lookupId parent st) (getNextId (nextSiblings node) st)
                source sp) as [s3 H3].
    { intros pid Hp. apply Ep. by apply Hpid. }
    { intros Hnone. specialize (Hdepth i eq_refl Hnone).
      eapply depth_bounded_shrinks; [|exact Hdepth].
      apply (shrinks_trans _ s0); [by apply shrinks_modify|].
      apply (shrinks_trans _ acc1.2); [|by apply shrinks_modify].
      unfold acc1. destruct (bool_decide _); [by apply shrinks_modify|apply shrinks_refl]. }
    rewrite H3. cbn [mbind result_bind].
    assert (evolves (Some i) st s3) as E3.
    { apply (evolves_trans _ _ sp); [done|]. by eapply relink_evolves. }
    destruct (unlink_runs i (Registry.parent value) s3) as [s4 H4].
    { intros old Hold. apply E3. destruct Hwf as (_ & _ & _ & Hparents & _).
      by eapply Hparents. }
    rewrite H4. cbn [mbind result_bind].
    assert (evolves (Some i) st s4) as E4.
    { apply (evolves_trans _ _ s3); [done|]. by eapply unlink_evolves. }
    apply finish_update_runs; [by eapply (well_formed_evolves (Some i))|].
    apply E4. eauto.
  - cbn [mbind result_bind]. destruct acc1 as [changed1 s1] eqn:Hacc. apply finish_update_runs.
    + by eapply (well_formed_evolves (Some i)).
    + apply E1. eauto.
Qed.

(** [update] keeps a registry well-formed, and returns: always for a node
    that stays under a parent, and for a node whose new parent is [null]
    when the child lists under it are no deeper than the fuel. *)
Theorem update_keeps_well_formed (fuel : nat) (node : LiveNode) (parent : option nat)
    (data : NodeInfo) (source : Source) (st : State) :
  well_formed st →
  (∀ i, lookupId (Some (handle node)) st = Some i → lookupId parent st = None →
        depth_bounded fuel (values st) i) →
  ∃ st', update K H fuel node parent data source st = Ok st' ∧ well_formed st'.
Proof.
  intros Hwf Hdepth.
  destruct (update_runs fuel node parent data source st Hwf Hdepth) as [st' Hrun].
  exists st'. split; [done|].
  eapply well_formed_evolves; [exact Hwf| |by eapply update_evolves].
  intros x Hx. destruct Hwf as (Hids & _). by eapply Hids.
Qed.

(** *** What [update] stores and queues *)

Lemma agree_refl {A} (proj : NodeValue → A) (st : State) : agree proj st st.
Proof. by intros j. Qed.

Lemma agree_trans {A} (proj : NodeValue → A) (st1 st2 st3 : State) :
  agree proj st1 st2 → agree proj st2 st3 → agree proj st1 st3.
Proof. intros H12 H23 j. by rewrite H23, H12. Qed.

Lemma agree_modify {A} (proj : NodeValue → A) (i : positive) (f : NodeValue → NodeValue)
    (st : State) :
  (∀ v, proj (f v) = proj v) → agree proj st (modify i f st).
Proof.
  intros Hf j. rewrite lookup_modify. case_decide; [|done].
  destruct (values st !! j); cbn; [|done]. by rewrite Hf.
Qed.

Lemma agree_values {A} (proj : NodeValue → A) (st st' : State) :
  values st' = values st → agree proj st st'.
Proof. intros Hv j. by rewrite Hv. Qed.

Lemma remove_agree {A} (proj : NodeValue → A) (fuel : nat) (source : Source) :
  (∀ b v, proj (set_metadata (set_active b (metadata v)) v) = proj v) →
  (∀ p v, proj (set_parent p v) = proj v) →
  (∀ c v, proj (set_children c v) = proj v) →
  ∀ i st st', remove H fuel i source st = Ok st' → agree proj st st'.
Proof.
  intros Hactive Hparent Hchildren.
  induction fuel as [|fuel IH]; intros i st st'; [done|]. cbn [remove].
  destruct (values st !! i) as [value|]; [|done]. cbn.
  fold (detached H i source st).
  destruct (for_each _ _ _) as [st4|] eqn:Hloop; [|done]. cbn. intros [= <-].
  apply (agree_trans _ _ (detached H i source st)).
  { unfold detached.
    apply (agree_trans _ _ (modify i (λ v, set_metadata (set_active false (metadata v)) v) st));
      [apply agree_modify, (Hactive false)|].
    eapply agree_trans; [|apply agree_values, values_track].
    by apply agree_modify. }
  apply (agree_trans _ _ st4); [|by apply agree_modify].
  eapply (for_each_rel (agree proj)); [apply agree_refl|apply agree_trans| |exact Hloop].
  intros c s s' _. apply IH.
Qed.

Lemma relink_agree {A} (proj : NodeValue → A) (fuel : nat) (node : LiveNode) (i : positive)
    (parentId nextId : option positive) (source : Source) (st st' : State) :
  (∀ b v, proj (set_metadata (set_active b (metadata v)) v) = proj v) →
  (∀ p v, proj (set_parent p v) = proj v) →
  (∀ c v, proj (set_children c v) = proj v) →
  (∀ r v, proj (set_region r v) = proj v) →
  relink H fuel node i parentId nextId source st = Ok st' → agree proj st st'.
Proof.
  intros Hactive Hparent Hchildren Hregion. unfold relink.
  destruct parentId as [pid|]; [|by apply remove_agree].
  destruct (values st !! pid) as [pv0|]; [|done]. cbn.
  match goal with
  | |- context [values ?s !! pid] => set (sc := s)
  end.
  destruct (values sc !! pid) as [pv|]; [|done]. cbn. intros [= <-].
  apply (agree_trans _ _ sc); [|by apply agree_modify].
  unfold sc. destruct nextId; apply agree_modify; intros v; apply Hchildren.
Qed.

Lemma unlink_agree {A} (proj : NodeValue → A) (i : positive) (oldParentId : option positive)
    (st st' : State) :
  (∀ c v, proj (set_children c v) = proj v) →
  unlink i oldParentId st = Ok st' → agree proj st st'.
Proof.
  intros Hchildren. unfold unlink.
  destruct oldParentId as [old|]; [|intros [= <-]; apply agree_refl].
  destruct (values st !! old) as [ov|]; [|done]. cbn.
  destruct (indexOf i (children ov)); intros [= <-]; [|apply agree_refl].
  apply agree_modify. intros v. apply Hchildren.
Qed.

Lemma modify_stored (i : positive) (f : NodeValue → NodeValue) (st : State) (v : NodeValue) :
  values st !! i = Some v → f v = v → modify i f st = st.
Proof.
  intros Hv Hf. unfold modify. rewrite alter_id; [apply with_values_id|].
  intros x Hx. congruence.
Qed.

Lemma modify_ext (i : positive) (f g : NodeValue → NodeValue) (st : State) :
  (∀ v, values st !! i = Some v → f v = g v) → modify i f st = modify i g st.
Proof. intros Hfg. unfold modify. f_equal. by apply alter_ext. Qed.

Lemma assign_same (d new : NodeInfo) (field : Field) :
  diff d new field = false → assign d new field = d.
Proof.
  intros Hd%diff_false. destruct d, field; cbn in *; by subst.
Qed.

Lemma update_field_step (i : positive) (data : NodeInfo) (field : Field) (changed : bool)
    (s : State) (v : NodeValue) :
  values s !! i = Some v →
  update_field i data field (changed, s)
  = Ok (changed || (present data field && diff (Registry.data v) data field),
        modify i (set_data (assign_if (Registry.data v) data field)) s).
Proof.
  intros Hv. unfold update_field, assign_if. destruct (present data field); cbn.
  - rewrite Hv. cbn. destruct (diff _ _ _) eqn:Hdiff.
    + rewrite orb_true_r. do 2 f_equal. apply modify_ext. intros x Hx. congruence.
    + rewrite orb_false_r. do 2 f_equal. symmetry. eapply modify_stored; [done|].
      rewrite assign_same by done. by destruct v.
  - rewrite orb_false_r. do 2 f_equal. symmetry. eapply modify_stored; [done|]. by destruct v.
Qed.

Lemma diff_assign_if (d new : NodeInfo) (f f' : Field) :
  f ≠ f' → diff (assign_if d new f) new f' = diff d new f'.
Proof.
  intros Hne. unfold assign_if. destruct (present new f); [|done].
  destruct f, f'; done.
Qed.

Lemma update_fields_spec (i : positive) (data : NodeInfo) (fields : list Field) :
  NoDup fields →
  ∀ changed s v,
    values s !! i = Some v →
    for_each (update_field i data) fields (changed, s)
    = Ok (changed || existsb (λ f, present data f && diff (Registry.data v) data f) fields,
          modify i (set_data (foldl (λ d f, assign_if d data f) (Registry.data v) fields)) s).
Proof.
  induction 1 as [|f fields Hf Hnd IH]; intros changed s v Hv.
  - cbn. rewrite orb_false_r. do 2 f_equal. symmetry. eapply modify_stored; [done|].
    by destruct v.
  - assert (existsb (λ f0, present data f0
                             && diff (assign_if (Registry.data v) data f) data f0) fields
            = existsb (λ f0, present data f0 && diff (Registry.data v) data f0) fields)
      as Hex.
    { clear -Hf. induction fields as [|f' fields IH]; [done|]. cbn.
      rewrite diff_assign_if by (intros ->; apply Hf, list_elem_of_here).
      rewrite IH; [done|]. intros Hin. apply Hf. by apply list_elem_of_further. }
    cbn [for_each]. rewrite (update_field_step i data f changed s v Hv).
    cbn [mbind result_bind].
    rewrite (IH _ _ (set_data (assign_if (Registry.data v) data f) v))
      by (by rewrite lookup_modify, decide_True, Hv).
    cbn [Registry.data set_data existsb foldl]. rewrite Hex, modify_modify, orb_assoc.
    do 2 f_equal.
Qed.

Lemma foldl_assign_if (old new : NodeInfo) :
  foldl (λ d f, assign_if d new f) old all_fields = merged old new.
Proof.
  destruct old, new as [t [p|] [a|] [l|] [sty|] [va|]]; reflexivity.
Qed.

Lemma NoDup_all_fields : NoDup all_fields.
Proof.
  unfold all_fields. repeat (apply NoDup_cons; split; [|]); try apply NoDup_nil_2;
    intros Hin; repeat (apply elem_of_cons in Hin as [Heq|Hin]; [discriminate Heq|]);
    by apply elem_of_nil in Hin.
Qed.

(** The end of [update], from the state [s] in which the record of the node
    is [v]: the data are merged, the position, the selector and the box
    model flag are rewritten, and the node is queued by [track] with the
    flag that says whether something changed. *)
Lemma finish_update_spec (node : LiveNode) (i : positive) (data : NodeInfo)
    (parentId : option positive) (source : Source) (changed : bool) (s st' : State)
    (v : NodeValue) :
  values s !! i = Some v →
  finish_update K H node i data parentId source (changed, s) = Ok st' →
  ∃ f, cosmetic f
       ∧ values st'
         = alter (f ∘ set_data (merged (Registry.data v) data)) i (values s)
       ∧ updateMap st'
         = updateMap (track H i source (changed || data_changed (Registry.data v) data) s).
Proof.
  intros Hv. unfold finish_update.
  rewrite (update_fields_spec i data all_fields NoDup_all_fields _ _ v)
    by (by rewrite values_discoverShadow).
  rewrite foldl_assign_if. cbn [mbind result_bind].
  fold (data_changed (Registry.data v) data).
  destruct (updateSelector K H i _) as [s2|] eqn:H2; [|done]. cbn [mbind result_bind].
  destruct (track_metadata K H (tag data) i parentId s2) as [s3|] eqn:H3; [|done].
  cbn [mbind result_bind]. intros [= <-].
  apply updateSelector_cosmetic in H2 as (f1 & sm & Hf1 & ->).
  apply track_metadata_cosmetic in H3 as (f2 & m & Hf2 & ->).
  exists (f2 ∘ f1). split; [by apply cosmetic_compose|]. split.
  - rewrite values_track. cbn. rewrite values_modify. cbn. rewrite !values_modify.
    rewrite values_discoverShadow, !alter_alter_eq. done.
  - rewrite !updateMap_track. destruct (discoverShadow_shape node s) as [l ->]. done.
Qed.

Lemma agree_lookup {A} (proj : NodeValue → A) (st st' : State) (j : positive) (v : NodeValue) :
  agree proj st st' → values st !! j = Some v →
  ∃ w, values st' !! j = Some w ∧ proj w = proj v.
Proof.
  intros Hag Hv. specialize (Hag j). rewrite Hv in Hag.
  destruct (values st' !! j) as [w|]; [|done]. exists w. split; [done|]. by injection Hag.
Qed.

(** The state in which [update] reaches its last part, and the flag it has
    there. *)
Lemma update_reaches_finish (fuel : nat) (node : LiveNode) (parent : option nat)
    (data : NodeInfo) (source : Source) (st st' : State) (i : positive) (value : NodeValue) :
  update K H fuel node parent data source st = Ok st' →
  lookupId (Some (handle node)) st = Some i →
  values st !! i = Some value →
  ∃ changed s w,
    finish_update K H node i data (lookupId parent st) source (changed, s) = Ok st'
    ∧ values s !! i = Some w ∧ Registry.data w = Registry.data value ∧ id w = id value
    ∧ (bool_decide (Registry.parent value ≠ lookupId parent st) = true → changed = true)
    ∧ (bool_decide (Registry.parent value ≠ lookupId parent st) = false →
       changed = bool_decide (next value ≠ getNextId (nextSiblings node) st)
       ∧ updateMap s = updateMap st).
Proof.
  rewrite update_unfold. cbv zeta. intros Hrun Hi Hvalue. rewrite Hi, Hvalue in Hrun.
  set (s0 := modify i (λ v, set_metadata (set_active true (metadata v)) v) st) in Hrun.
  set (acc1 := if bool_decide (next value ≠ _) then _ else _) in Hrun.
  set (proj := λ v : NodeValue, (Registry.data v, id v)).
  assert (agree proj st acc1.2 ∧ updateMap acc1.2 = updateMap st
          ∧ acc1.1 = bool_decide (next value ≠ getNextId (nextSiblings node) st))
    as (A1 & Hq1 & Hc1).
  { unfold acc1. destruct (bool_decide _); cbn [fst snd]; (split; [|done]).
    - apply (agree_trans _ _ s0); by apply agree_modify.
    - by apply agree_modify. }
  destruct (bool_decide (Registry.parent value ≠ _)).
  - set (sp := modify i (set_parent (lookupId parent st)) acc1.2) in Hrun.
    destruct (relink H fuel node i _ _ source sp) as [s3|] eqn:H3; [|done].
    cbn [mbind result_bind] in Hrun.
    destruct (unlink i (Registry.parent value) s3) as [s4|] eqn:H4; [|done].
    cbn [mbind result_bind] in Hrun.
    assert (agree proj st s4) as A4.
    { apply (agree_trans _ _ acc1.2); [done|].
      apply (agree_trans _ _ sp); [by apply agree_modify|].
      apply (agree_trans _ _ s3); [by eapply relink_agree|by eapply unlink_agree]. }
    destruct (agree_lookup proj st s4 i value A4 Hvalue) as (w & Hw & [= Hd Hid]).
    exists true, s4, w. split_and!; try done.
  - cbn [mbind result_bind] in Hrun. destruct acc1 as [changed1 s1] eqn:Hacc.
    cbn [fst snd] in *.
    destruct (agree_lookup proj st s1 i value A1 Hvalue) as (w & Hw & [= Hd Hid]).
    exists changed1, s1, w. split_and!; try done.
Qed.

(** [update] merges the new data into the stored ones: a key of the new
    data replaces the stored key, and a key that the new data do not have is
    kept as it was. The record keeps its id. *)
Theorem update_merges_data (fuel : nat) (node : LiveNode) (parent : option nat)
    (data : NodeInfo) (source : Source) (st st' : State) (i : positive) (value : NodeValue) :
  update K H fuel node parent data source st = Ok st' →
  lookupId (Some (handle node)) st = Some i →
  values st !! i = Some value →
  ∃ v', values st' !! i = Some v'
        ∧ Registry.data v' = merged (Registry.data value) data
        ∧ id v' = id value.
Proof.
  intros Hrun Hi Hvalue.
  destruct (update_reaches_finish _ _ _ _ _ _ _ _ _ Hrun Hi Hvalue)
    as (changed & s & w & Hfinish & Hw & Hd & Hid & _).
  destruct (finish_update_spec _ _ _ _ _ _ _ _ _ Hw Hfinish) as (f & Hf & Hvalues & _).
  rewrite Hvalues, lookup_alter_eq, Hw. cbn. eexists. split; [reflexivity|].
  pose proof (Hf (set_data (merged (Registry.data w) data) w)) as Hobs.
  unfold observed in Hobs. cbn in Hobs. simplify_eq. split; congruence.
Qed.

(** [update] queues the node when something changed: the next sibling, the
    parent, or a key of the data. When nothing changed the queue is what
    [track] makes of it for an unchanged node: the same, unless the node is
    queued already and the source is the addition to a child list. *)
Theorem update_queues_what_changed (fuel : nat) (node : LiveNode) (parent : option nat)
    (data : NodeInfo) (source : Source) (st st' : State) (i : positive) (value : NodeValue) :
  update K H fuel node parent data source st = Ok st' →
  lookupId (Some (handle node)) st = Some i →
  values st !! i = Some value →
  (bool_decide (next value ≠ getNextId (nextSiblings node) st)
   || bool_decide (Registry.parent value ≠ lookupId parent st)
   || data_changed (Registry.data value) data = true →
   i ∈ updateMap st')
  ∧ (bool_decide (next value ≠ getNextId (nextSiblings node) st)
     || bool_decide (Registry.parent value ≠ lookupId parent st)
     || data_changed (Registry.data value) data = false →
     updateMap st' = updateMap (track H i source false st)
     ∧ (i ∉ updateMap st → updateMap st' = updateMap st)).
Proof.
  intros Hrun Hi Hvalue.
  destruct (update_reaches_finish _ _ _ _ _ _ _ _ _ Hrun Hi Hvalue)
    as (changed & s & w & Hfinish & Hw & Hd & Hid & Hmoved & Hstayed).
  destruct (finish_update_spec _ _ _ _ _ _ _ _ _ Hw Hfinish) as (f & Hf & _ & Hqueue).
  rewrite Hd in Hqueue.
  destruct (bool_decide (Registry.parent value ≠ _)).
  - rewrite (Hmoved eq_refl) in Hqueue. rewrite orb_true_r. cbn [orb] in *.
    split; [|by intros ?]. intros _. rewrite Hqueue. apply (proj1 (track_queues i source s)).
  - destruct (Hstayed eq_refl) as [-> Hq]. rewrite orb_false_r. split.
    + intros Hchanged. rewrite Hqueue, Hchanged. apply (proj1 (track_queues i source s)).
    + intros Hsame. rewrite Hqueue, Hsame, !updateMap_track, Hq. split; [done|].
      intros Hnin. apply indexOf_None in Hnin. by rewrite Hnin.
Qed.

(** [update] of a node that is observed under another registered parent: in
    the child list of the new parent the id is spliced in at the index that
    is the id of the next sibling plus one, or pushed at the end when no
    next sibling has an id; the first occurrence of the id leaves the child
    list of the old parent; and the record gets the new parent, the new next
    sibling and the active flag. *)
Theorem update_moves_child (fuel : nat) (node : LiveNode) (parent : option nat)
    (data : NodeInfo) (source : Source) (st st' : State) (i pid : positive)
    (value pv : NodeValue) :
  update K H fuel node parent data source st = Ok st' →
  lookupId (Some (handle node)) st = Some i →
  values st !! i = Some value →
  lookupId parent st = Some pid →
  Registry.parent value ≠ Some pid →
  pid ≠ i →
  values st !! pid = Some pv →
  (∃ pv', values st' !! pid = Some pv'
          ∧ children pv'
            = match getNextId (nextSiblings node) st with
              | Some n => splice_insert (Pos.to_nat n + 1) i (children pv)
              | None => children pv ++ [i]
              end)
  ∧ (∀ old ov, Registry.parent value = Some old → old ≠ i → values st !! old = Some ov →
       ∃ ov', values st' !! old = Some ov'
              ∧ children ov'
                = match indexOf i (children ov) with
                  | Some k => splice_remove k (children ov)
                  | None => children ov
                  end)
  ∧ ∃ v', values st' !! i = Some v'
          ∧ Registry.parent v' = Some pid
          ∧ next v' = getNextId (nextSiblings node) st
          ∧ active (metadata v') = true.
Proof.
  rewrite update_unfold. cbv zeta. intros Hrun Hi Hvalue Hpid Hmoved Hne Hpv.
  rewrite Hi, Hvalue, Hpid in Hrun.
  rewrite bool_decide_eq_true_2 in Hrun by done.
  set (nextId := getNextId (nextSiblings node) st) in *.
  set (s0 := modify i (λ v, set_metadata (set_active true (metadata v)) v) st) in Hrun.
  set (acc1 := if bool_decide (next value ≠ _) then _ else _) in Hrun.
  set (sp := modify i (set_parent (Some pid)) acc1.2) in Hrun.
  destruct (relink H fuel node i _ _ source sp) as [s3|] eqn:H3; [|done].
  cbn [mbind result_bind] in Hrun.
  destruct (unlink i (Registry.parent value) s3) as [s4|] eqn:H4; [|done].
  cbn [mbind result_bind] in Hrun.
  assert (∃ v1, values sp !! i = Some v1 ∧ Registry.parent v1 = Some pid
                ∧ next v1 = nextId ∧ active (metadata v1) = true
                ∧ ∀ j, j ≠ i → values sp !! j = values st !! j) as (v1 & Hv1 & Hp1 & Hn1 & Ha1 & Hsp).
  { unfold sp, acc1, s0. destruct (bool_decide (next value ≠ nextId)) eqn:Hn; cbn [snd].
    - rewrite !lookup_modify, !decide_True, Hvalue by done. cbn.
      eexists. split_and!; try done. intros j Hj. by rewrite !lookup_modify, !decide_False.
    - rewrite !lookup_modify, !decide_True, Hvalue by done. cbn.
      eexists. split_and!; try done.
      + apply bool_decide_eq_false in Hn. by apply dec_stable in Hn.
      + intros j Hj. by rewrite !lookup_modify, !decide_False. }
  set (C := λ v, set_children
                   (match nextId with
                    | Some n => splice_insert (Pos.to_nat n + 1) i (children v)
                    | None => children v ++ [i]
                    end) v).
  assert (∃ r, s3 = modify i (set_region r) (modify pid C sp)) as [r ->].
  { unfold relink in H3. rewrite Hsp, Hpv in H3 by done. cbn in H3.
    destruct nextId as [n|]; rewrite lookup_modify, decide_True, Hsp, Hpv in H3 by done;
      cbn in H3; injection H3 as <-; eauto. }
  assert (values s4 !! pid = Some (C pv)) as Hpid4.
  { unfold unlink in H4. destruct (Registry.parent value) as [old|] eqn:Hold.
    - destruct (values _ !! old) as [ov|]; [|done]. cbn in H4.
      destruct (indexOf i (children ov)); injection H4 as <-.
      + rewrite !lookup_modify, decide_False, decide_False, decide_True, Hsp, Hpv by congruence.
        done.
      + by rewrite !lookup_modify, decide_False, decide_True, Hsp, Hpv.
    - injection H4 as <-. by rewrite !lookup_modify, decide_False, decide_True, Hsp, Hpv. }
  assert (∃ w, values s4 !! i = Some w ∧ Registry.parent w = Some pid
               ∧ next w = nextId ∧ active (metadata w) = true) as (w & Hw & Hpw & Hnw & Haw).
  { assert (values (modify i (set_region r) (modify pid C sp)) !! i
            = Some (set_region r v1)) as Hi3.
    { by rewrite !lookup_modify, decide_True, decide_False, Hv1 by done. }
    unfold unlink in H4. destruct (Registry.parent value) as [old|] eqn:Hold.
    - destruct (values _ !! old) as [ov|]; [|done]. cbn in H4.
      destruct (indexOf i (children ov)); injection H4 as <-.
      + rewrite lookup_modify. case_decide; rewrite Hi3; cbn; eauto.
      + rewrite Hi3. eauto.
    - injection H4 as <-. rewrite Hi3. eauto. }
  destruct (finish_update_spec _ _ _ _ _ _ _ _ _ Hw Hrun) as (f & Hf & Hvalues & _).
  split; [|split].
  - exists (C pv). split; [|by destruct nextId].
    by rewrite Hvalues, lookup_alter_ne.
  - intros old ov Hold Holdi Hov. rewrite Hvalues, lookup_alter_ne by done.
    unfold unlink in H4. rewrite Hold in H4.
    assert (old ≠ pid) as Holdp by congruence.
    rewrite !lookup_modify, !decide_False, Hsp, Hov in H4 by done. cbn in H4.
    destruct (indexOf i (children ov)); injection H4 as <-.
    + rewrite !lookup_modify, decide_True, !decide_False, Hsp, Hov by done. cbn. eauto.
    + rewrite !lookup_modify, !decide_False, Hsp, Hov by done. eauto.
  - rewrite Hvalues, lookup_alter_eq, Hw. cbn. eexists. split; [reflexivity|].
    pose proof (Hf (set_data (merged (Registry.data w) data) w)) as Hobs.
    unfold observed in Hobs. cbn in Hobs. simplify_eq. split_and!; congruence.
Qed.

(** *** What [remove] queues *)

Lemma descendant_reaches (P : positive → Prop) (st st' : State) (a b : positive) :
  (∀ j, values st' !! j = values st !! j ∨ ∀ z, descendant st j z → P z) →
  descendant st a b → descendant st' a b ∨ P b.
Proof.
  intros Hs. induction 1 as [a|a c b Hac Hcb IH]; [left; apply rtc_refl|].
  destruct (Hs a) as [Heq|Hall].
  - destruct IH as [IH|IH]; [|by right]. left. eapply rtc_l; [|exact IH].
    destruct Hac as (v & Hv & Hc). exists v. by rewrite Heq.
  - right. apply Hall. by eapply rtc_l.
Qed.

Lemma updateMap_detached (i : positive) (source : Source) (st : State) :
  i ∈ updateMap (detached H i source st)
  ∧ ∀ j, j ∈ updateMap st → j ∈ updateMap (detached H i source st).
Proof.
  exact (track_queues i source
           (modify i (set_parent None)
              (modify i (λ v, set_metadata (set_active false (metadata v)) v) st))).
Qed.

Lemma remove_queue_loop (n : nat) (source : Source) :
  (∀ i st st', depth_bounded n (values st) i → remove H n i source st = Ok st' →
               queued_after [i] st st') →
  ∀ cs st st', Forall (depth_bounded n (values st)) cs →
               for_each (λ child, remove H n child source) cs st = Ok st' →
               queued_after cs st st'.
Proof.
  intros Hrem. induction cs as [|c cs IH]; intros st st' Hcs; cbn.
  - intros [= <-]. split; [|done]. intros c d Hc. by apply elem_of_nil in Hc.
  - apply Forall_cons in Hcs as [Hc Hcs].
    destruct (remove_spec H n source c st Hc) as (s1 & Hrun1 & Hr1).
    rewrite Hrun1. cbn. intros Hrest.
    pose proof (Hrem c st s1 Hc Hrun1) as [Hq1 Hm1].
    destruct (IH s1 st') as [Hq2 Hm2]; [|done|].
    { eapply Forall_impl; [exact Hcs|]. intros x.
      apply depth_bounded_shrinks. by eapply removed_shrinks. }
    destruct Hr1 as (_ & HB1 & _). split; [|by eauto].
    intros c0 d [->|Hc0]%elem_of_cons Hd.
    + apply Hm2. eapply Hq1; [apply list_elem_of_here|done].
    + destruct (descendant_reaches (λ z, z ∈ updateMap s1) st s1 c0 d) as [Hd1|Hd1];
        [|exact Hd|by eapply Hq2|by apply Hm2].
      intros j. destruct (HB1 j) as [?|(c' & ->%list_elem_of_singleton & Hcj)]; [by left|].
      right. intros z Hz. eapply Hq1; [apply list_elem_of_here|].
      eapply rtc_trans; [exact Hcj|exact Hz].
Qed.

Lemma remove_queues (n : nat) (source : Source) : ∀ i st st',
  depth_bounded n (values st) i → remove H n i source st = Ok st' →
  queued_after [i] st st'.
Proof.
  induction n as [|n IH]; intros i st st'; [done|].
  intros (v & Hv & Hc). cbn [remove]. rewrite Hv. cbn.
  fold (detached H i source st).
  destruct (for_each _ _ _) as [st4|] eqn:Hloop; [|done]. cbn. intros [= <-].
  pose proof (children_detached H i source st) as Hsame.
  destruct (updateMap_detached i source st) as [Hin Hmono].
  destruct (remove_queue_loop n source IH (children v) (detached H i source st) st4)
    as [Hq Hm]; [|done|].
  { eapply Forall_impl; [exact Hc|]. intros x. apply depth_bounded_shrinks.
    intros j w Hw. specialize (Hsame j). rewrite Hw in Hsame.
    destruct (values (detached H i source st) !! j) as [w'|]; [|done].
    exists w'. split; [done|]. left. cbn in Hsame. by injection Hsame. }
  split.
  - intros c d ->%list_elem_of_singleton Hd. change (d ∈ updateMap st4).
    apply rtc_inv in Hd as [<-|(c' & (w & Hw & Hc') & Hd)]; [by apply Hm|].
    rewrite Hv in Hw. injection Hw as <-. eapply Hq; [exact Hc'|].
    eapply descendant_same_children; [|exact Hd]. apply children_detached.
  - intros j Hj. change (j ∈ updateMap st4). eauto.
Qed.

(** [remove] queues the node and every id reached from it through child
    lists, and drops nothing from the queue: the next flush reports the
    whole subtree. *)
Theorem remove_queues_subtree (fuel : nat) (i : positive) (source : Source) (st : State) :
  depth_bounded fuel (values st) i →
  ∃ st', remove H fuel i source st = Ok st'
         ∧ (∀ d, descendant st i d → d ∈ updateMap st')
         ∧ (∀ j, j ∈ updateMap st → j ∈ updateMap st').
Proof.
  intros Hdepth. destruct (remove_spec H fuel source i st Hdepth) as (st' & Hrun & _).
  exists st'. split; [done|].
  destruct (remove_queues fuel source i st st' Hdepth Hrun) as [Hq Hm].
  split; [|done]. intros d. apply Hq, list_elem_of_here.
Qed.

(** *** Regions, box models and URLs *)

Lemma add_unfold (node : LiveNode) (parent : option nat) (data : NodeInfo) (source : Source)
    (st : State) :
  add K H node parent data source st
  = (s7 ← updateSelector K H (prepare_add K node parent data st).1.1
            (prepare_add K node parent data st).2;
     s8 ← track_metadata K H (tag data) (prepare_add K node parent data st).1.1
            (prepare_add K node parent data st).1.2 s7;
     Ok (track H (prepare_add K node parent data st).1.1 source true s8)).
Proof.
  unfold add, prepare_add.
  destruct (assignId (handle node) st) as [i st1].
  destruct (lookupId parent st1) as [pid|]; [destruct (values st1 !! pid)|]; reflexivity.
Qed.

(** What [prepare_add] leaves: the record of the node, and the region map
    with the explicit region of the node. *)
Lemma prepare_add_spec (node : LiveNode) (parent : option nat) (data : NodeInfo) (st : State) :
  let i := (assignId (handle node) st).1 in
  let st1 := (assignId (handle node) st).2 in
  let s6 := (prepare_add K node parent data st).2 in
  (prepare_add K node parent data st).1 = (i, lookupId parent st1)
  ∧ (∃ v, values s6 !! i = Some v
          ∧ Registry.data v = data
          ∧ boxmodel (metadata v) = false
          ∧ region v = match regionMap st !! handle node with
                       | Some r => Some r
                       | None => parentValue_of node parent st ≫= region
                       end)
  ∧ nodes s6 !! i = Some (handle node)
  ∧ urlMap s6 = urlMap st
  ∧ regionMap s6 = match attributes data ≫= (.!! CLARITY_REGION_ATTRIBUTE K) with
                   | Some r => <[handle node := r]> (regionMap st)
                   | None => regionMap st
                   end.
Proof.
  cbv zeta. unfold prepare_add, parentValue_of.
  destruct (assignId_shape (handle node) st) as (m1 & x1 & Hst1).
  destruct (assignId (handle node) st) as [i st1]. cbn [fst snd] in *. subst st1.
  set (st1 := with_idMap m1 (with_index x1 st)).
  assert (∀ s, urlMap (discoverShadow node s) = urlMap s
               ∧ regionMap (discoverShadow node s) = regionMap s) as Hshadow.
  { intros s. by destruct (discoverShadow_shape node s) as [l ->]. }
  destruct (lookupId parent st1) as [pid|] eqn:Hpid;
    [destruct (values st1 !! pid) as [pv|] eqn:Hpv|]; cbv beta iota zeta; cbn [fst snd].
  - destruct (Hshadow (modify pid (push i) st1)) as [Hu Hr].
    split; [done|]. split; [|split; [|split]].
    + rewrite values_with_values, lookup_insert_eq. eexists. split; [done|].
      cbn. cbn in Hpv. rewrite ?Hpv. split_and!; try done.
      by destruct (regionMap st !! handle node).
    + unfold with_values. cbn. by rewrite lookup_insert_eq.
    + unfold with_values. by case_match; cbn; rewrite Hu.
    + unfold with_values. by case_match; cbn; rewrite Hr.
  - destruct (Hshadow st1) as [Hu Hr].
    split; [done|]. split; [|split; [|split]].
    + rewrite values_with_values, lookup_insert_eq. eexists. split; [done|].
      cbn. cbn in Hpv. rewrite ?Hpv. split_and!; try done.
      by destruct (regionMap st !! handle node).
    + unfold with_values. cbn. by rewrite lookup_insert_eq.
    + unfold with_values. by case_match; cbn; rewrite Hu.
    + unfold with_values. by case_match; cbn; rewrite Hr.
  - destruct (Hshadow st1) as [Hu Hr].
    split; [done|]. split; [|split; [|split]].
    + rewrite values_with_values, lookup_insert_eq. eexists. split; [done|].
      cbn. split_and!; try done. by destruct (regionMap st !! handle node).
    + unfold with_values. cbn. by rewrite lookup_insert_eq.
    + unfold with_values. by case_match; cbn; rewrite Hu.
    + unfold with_values. by case_match; cbn; rewrite Hr.
Qed.

Lemma position_of_agree {A} (proj : NodeValue → A) (parent : option positive) (i : positive)
    (st st' : State) :
  (∀ p v, proj (set_position p v) = proj v) →
  position_of K parent i st = Ok st' → agree proj st st'.
Proof.
  intros Hpos. unfold position_of. destruct (values st !! i) as [child|]; [|done]. cbn.
  destruct parent as [pid|]; [|intros [= <-]; apply agree_refl].
  destruct (is_position_tag _ || _); [|intros [= <-]; apply agree_refl].
  set (s1 := modify i (set_position (Some 1%nat)) st).
  assert (agree proj st s1) as A1 by (by apply agree_modify).
  destruct (values s1 !! pid) as [p|]; [|done]. cbn.
  destruct (indexOf (id child) (children p)) as [[|idx]|]; [by intros [= <-]| |by intros [= <-]].
  destruct (children p !! idx ≫= _) as [sibling|]; [|done]. cbn.
  destruct (String.eqb _ _); intros [= <-]; [|done].
  eapply agree_trans; [exact A1|]. by apply agree_modify.
Qed.

Lemma updateSelector_agree {A} (proj : NodeValue → A) (i : positive) (st st' : State) :
  (∀ p v, proj (set_position p v) = proj v) →
  (∀ s v, proj (set_selector s v) = proj v) →
  updateSelector K H i st = Ok st' → agree proj st st'.
Proof.
  intros Hpos Hsel. unfold updateSelector. destruct (values st !! i) as [value|]; [|done]. cbn.
  destruct (position_of K _ i st) as [st1|] eqn:Hposition; [|done]. cbn.
  apply (position_of_agree proj) in Hposition; [|done].
  destruct (values st1 !! i) as [value1|]; [|done]. cbn. intros [= <-].
  eapply agree_trans; [exact Hposition|].
  eapply agree_trans; [|by apply agree_modify]. by destruct (_ && _).
Qed.

Lemma track_srcset_keeps (i : positive) (m : gmap string positive) (u k : string) :
  m !! k = Some i → track_srcset H i m u !! k = Some i.
Proof.
  intros Hk. unfold track_srcset. repeat case_match; try done.
  destruct (decide (resolveUrl H s = k)) as [<-|Hne].
  - by rewrite lookup_insert_eq.
  - by rewrite lookup_insert_ne.
Qed.

Lemma foldl_track_srcset_keeps (i : positive) (l : list string) :
  ∀ (m : gmap string positive) (k : string),
    m !! k = Some i → foldl (track_srcset H i) m l !! k = Some i.
Proof.
  induction l as [|u l IH]; intros m k Hk; [done|]. cbn. by apply IH, track_srcset_keeps.
Qed.

Lemma insert_keeps (i : positive) (m : gmap string positive) (k k' : string) :
  m !! k = Some i → <[k' := i]> m !! k = Some i.
Proof.
  intros Hk. destruct (decide (k' = k)) as [<-|Hne].
  - by rewrite lookup_insert_eq.
  - by rewrite lookup_insert_ne.
Qed.

Lemma nonempty_length (u : string) : u ≠ "" → (0 <? String.length u)%nat = true.
Proof. destruct u; [done|]. intros _. by apply Nat.ltb_lt; cbn; lia. Qed.

Lemma urls_tracked (i : positive) (attrs : gmap string string) (m0 : gmap string positive)
    (u : string) :
  attrs !! HREF_ATTRIBUTE K = Some u
  ∨ (attrs !! SRC_ATTRIBUTE K = Some u ∧ starts_with u (DATA_PREFIX K) = false) →
  u ≠ "" →
  let nonempty k := match attrs !! k with
                    | Some s => (0 <? String.length s)%nat
                    | None => false
                    end in
  let get k := default "" (attrs !! k) in
  let m1 := if nonempty (HREF_ATTRIBUTE K)
            then <[resolveUrl H (get (HREF_ATTRIBUTE K)) := i]> m0
            else m0 in
  let m2 := if nonempty (SRC_ATTRIBUTE K)
               && negb (starts_with (get (SRC_ATTRIBUTE K)) (DATA_PREFIX K))
            then <[resolveUrl H (get (SRC_ATTRIBUTE K)) := i]> m1
            else m1 in
  let m3 := if nonempty (SRCSET_ATTRIBUTE K)
            then foldl (track_srcset H i) m2 (split "," (get (SRCSET_ATTRIBUTE K)))
            else m2 in
  m3 !! resolveUrl H u = Some i.
Proof.
  intros Hu Hne. cbv zeta. pose proof (nonempty_length u Hne) as Hlen.
  assert (∀ (b : bool) (l : list string) (m : gmap string positive),
            m !! resolveUrl H u = Some i →
            (if b then foldl (track_srcset H i) m l else m) !! resolveUrl H u = Some i)
    as Hsrcset.
  { intros b l m Hm. destruct b; [|done]. by apply foldl_track_srcset_keeps. }
  apply Hsrcset. destruct Hu as [Hu|[Hu Hdata]].
  - rewrite Hu, Hlen. cbn [default from_option Datatypes.id].
    destruct (_ && _); [apply insert_keeps|]; by rewrite lookup_insert_eq.
  - rewrite Hu, Hlen. cbn [default from_option Datatypes.id]. rewrite Hdata. cbn [negb andb].
    by rewrite lookup_insert_eq.
Qed.

Lemma lookup_flagged (i : positive) (b : bool) (st : State) (v : NodeValue) :
  values st !! i = Some v →
  ∃ v', values (if b then modify i (λ v0, set_metadata (set_boxmodel true (metadata v0)) v0) st
                else st) !! i = Some v'
        ∧ boxmodel (metadata v') = boxmodel (metadata v) || b.
Proof.
  intros Hv. destruct b.
  - rewrite lookup_modify, decide_True, Hv by done. cbn. eexists. split; [done|].
    cbn. by rewrite orb_true_r.
  - exists v. split; [done|]. by rewrite orb_false_r.
Qed.

(** What [metadata] does with the URL map and the box model flag. *)
Lemma track_metadata_spec (tag : string) (i : positive) (parentId : option positive)
    (st st' : State) (v : NodeValue) (n : nat) :
  track_metadata K H tag i parentId st = Ok st' →
  values st !! i = Some v →
  nodes st !! i = Some n →
  (tag ∉ media ∨ parentId = None → urlMap st' = urlMap st)
  ∧ (tag ∈ media → is_Some parentId →
     ∀ attrs u, attributes (Registry.data v) = Some attrs →
                attrs !! HREF_ATTRIBUTE K = Some u
                ∨ (attrs !! SRC_ATTRIBUTE K = Some u ∧ starts_with u (DATA_PREFIX K) = false) →
                u ≠ "" →
                urlMap st' !! resolveUrl H u = Some i)
  ∧ ∃ v', values st' !! i = Some v'
          ∧ boxmodel (metadata v')
            = boxmodel (metadata v)
              || bool_decide (is_Some parentId)
                 && (String.eqb tag "IFRAME" && negb (config_lean H)
                     || has_key n (regionMap st)).
Proof.
  unfold track_metadata. intros Hrun Hv Hn.
  destruct parentId as [pid|]; [|injection Hrun as <-].
  2:{ split; [done|]. split; [by intros _ [? ?]|]. exists v. split; [done|].
      cbn. by rewrite orb_false_r. }
  rewrite Hv in Hrun. cbn [mbind result_bind defined] in Hrun. injection Hrun as <-.
  fold media.
  assert (bool_decide (is_Some (Some pid)) = true) as -> by (apply bool_decide_eq_true; eauto).
  cbn [andb].
  match goal with
  | |- context [if ?b then modify i _ ?s1 else ?s1] =>
      set (s := s1);
      assert (nodes s = nodes st ∧ regionMap s = regionMap st) as [Hns Hrs]
        by (unfold s; repeat case_match; done)
  end.
  rewrite Hns, Hrs, Hn.
  assert (∀ b : bool, urlMap (if b then modify i (λ v0, set_metadata (set_boxmodel true (metadata v0))
                                                   v0) s else s) = urlMap s) as Hflag
    by (intros b; by destruct b).
  rewrite Hflag.
  destruct (bool_decide (tag ∈ media)) eqn:Hmedia.
  - apply bool_decide_eq_true in Hmedia.
    assert (String.eqb tag "IFRAME" = false) as Hiframe.
    { apply String.eqb_neq. intros ->. unfold media in Hmedia.
      repeat (apply elem_of_cons in Hmedia as [Heq|Hmedia]; [discriminate Heq|]).
      by apply elem_of_nil in Hmedia. }
    rewrite Hiframe. cbn [andb orb]. split; [by intros [?|?]|]. split.
    + intros _ _ attrs u Ha Hu Hne. unfold s. rewrite Ha. cbn [urlMap with_urlMap].
      by apply (urls_tracked i attrs (urlMap st) u).
    + apply lookup_flagged. unfold s. exact Hv.
  - apply bool_decide_eq_false in Hmedia. split; [|split; [done|]].
    + intros _. unfold s. by repeat case_match.
    + unfold s. destruct (String.eqb tag "IFRAME"); [destruct (config_lean H)|];
        cbn [negb andb orb].
      * by apply lookup_flagged.
      * destruct (lookup_flagged i (has_key n (regionMap st))
                    (modify i (λ v0, set_metadata (set_boxmodel true (metadata v0)) v0) st)
                    (set_metadata (set_boxmodel true (metadata v)) v))
          as (v' & Hv' & Hb); [by rewrite lookup_modify, decide_True, Hv|].
        exists v'. split; [done|]. rewrite Hb. cbn. by rewrite orb_true_r.
      * by apply lookup_flagged.
Qed.

Lemma track_frame (i : positive) (source : Source) (changed : bool) (st : State) :
  urlMap (track H i source changed st) = urlMap st
  ∧ regionMap (track H i source changed st) = regionMap st.
Proof. unfold track. destruct (devtools H); repeat case_match; done. Qed.

(** The region, the box model flag and the URLs that [add] records. *)
Lemma add_details (node : LiveNode) (parent : option nat) (data : NodeInfo) (source : Source)
    (st : State) :
  children_registered st →
  let i := (assignId (handle node) st).1 in
  let parentId := lookupId parent (assignId (handle node) st).2 in
  ∃ st' v,
    add K H node parent data source st = Ok st'
    ∧ get (handle node) st' = Some v
    ∧ nodes st' !! i = Some (handle node)
    ∧ lookupId parent st' = parentId
    ∧ region v = match regionMap st !! handle node with
                 | Some r => Some r
                 | None => parentValue_of node parent st ≫= region
                 end
    ∧ regionMap st' = match attributes data ≫= (.!! CLARITY_REGION_ATTRIBUTE K) with
                      | Some r => <[handle node := r]> (regionMap st)
                      | None => regionMap st
                      end
    ∧ boxmodel (metadata v)
      = bool_decide (is_Some parentId)
        && (String.eqb (tag data) "IFRAME" && negb (config_lean H)
            || has_key (handle node) (regionMap st'))
    ∧ (tag data ∉ media ∨ parentId = None → urlMap st' = urlMap st)
    ∧ (tag data ∈ media → is_Some parentId →
       ∀ attrs u, attributes data = Some attrs →
                  attrs !! HREF_ATTRIBUTE K = Some u
                  ∨ (attrs !! SRC_ATTRIBUTE K = Some u
                     ∧ starts_with u (DATA_PREFIX K) = false) →
                  u ≠ "" →
                  urlMap st' !! resolveUrl H u = Some i).
Proof.
  intros Hwf. cbv zeta.
  destruct (add_runs node parent data source st Hwf) as [st' Hrun].
  destruct (add_spec node parent data source st st' Hrun)
    as (v & Hvalues & _ & _ & _ & _ & _ & _ & _ & HidMap & Hnodes & _).
  cbv zeta in Hvalues.
  destruct (assignId_spec (handle node) st) as (Hassigned & _ & _).
  assert (get (handle node) st' = Some v) as Hget.
  { unfold get, lookupId. cbn [mbind option_bind]. rewrite HidMap, Hassigned.
    cbn [mbind option_bind]. by rewrite Hvalues, lookup_insert_eq. }
  assert (nodes st' !! (assignId (handle node) st).1 = Some (handle node)) as Hnode
    by (by rewrite Hnodes, lookup_insert_eq).
  assert (lookupId parent st' = lookupId parent (assignId (handle node) st).2) as Hparent
    by (unfold lookupId; by rewrite HidMap).
  assert (values st' !! (assignId (handle node) st).1 = Some v) as Hvi
    by (by rewrite Hvalues, lookup_insert_eq).
  clear Hvalues HidMap Hnodes.
  pose proof Hrun as Hrun0. rewrite add_unfold in Hrun.
  destruct (prepare_add_spec node parent data st)
    as (Hprep & (v6 & Hv6 & Hd6 & Hb6 & Hreg6) & Hn6 & Hu6 & Hr6).
  destruct (prepare_add K node parent data st) as [[i' pid'] s6]. cbn [fst snd] in *.
  injection Hprep as -> ->.
  set (i := (assignId (handle node) st).1) in *.
  set (parentId := lookupId parent (assignId (handle node) st).2) in *.
  destruct (updateSelector K H i s6) as [s7|] eqn:H7; [|done].
  cbn [mbind result_bind] in Hrun.
  destruct (track_metadata K H (tag data) i parentId s7) as [s8|] eqn:H8; [|done].
  cbn [mbind result_bind] in Hrun. injection Hrun as <-.
  pose proof (updateSelector_agree
                (λ w, (Registry.data w, region w, boxmodel (metadata w))) i s6 s7) as A7.
  destruct (agree_lookup _ s6 s7 i v6 (A7 (λ _ _, eq_refl) (λ _ _, eq_refl) H7) Hv6)
    as (v7 & Hv7 & [= Hd7 Hreg7 Hb7]).
  apply updateSelector_cosmetic in H7 as (f1 & sm & _ & ->).
  destruct (track_metadata_spec (tag data) i parentId _ s8 v7 (handle node) H8 Hv7 Hn6)
    as (Hnone & Hurls & v8 & Hv8 & Hb8).
  pose proof H8 as (f2 & m & Hf2 & Hs8)%track_metadata_cosmetic.
  destruct (track_frame i source true s8) as [Htu Htr].
  assert (region v8 = region v7) as Hreg8.
  { rewrite Hs8 in Hv8. cbn in Hv8. rewrite lookup_modify, decide_True, Hv7 in Hv8 by done.
    injection Hv8 as <-. pose proof (Hf2 v7) as Hobs. unfold observed in Hobs.
    by simplify_eq. }
  assert (regionMap s8 = regionMap s6) as Hr8 by (by rewrite Hs8).
  rewrite values_track, Hv8 in Hvi. injection Hvi as <-.
  exists (track H i source true s8), v8. split_and!; [done..| | | | |].
  - by rewrite Hreg8, Hreg7.
  - by rewrite Htr, Hr8.
  - rewrite Hb8, Hb7, Hb6, Htr, Hr8. done.
  - rewrite Htu. intros Hcase. by rewrite (Hnone Hcase).
  - rewrite Htu. intros Hmedia Hp attrs u Ha. apply Hurls; try done. by rewrite Hd7, Hd6.
Qed.

(** [add] gives the record the region the node was given before (by a
    region selector or an earlier observation), else the region of the
    record of its parent; an explicit region attribute is written to the
    region map for the node. The box model flag is set for a node with a
    parent id that is an iframe, unless the configuration is lean, or that
    has a region. *)
Theorem add_region_and_boxmodel (node : LiveNode) (parent : option nat) (data : NodeInfo)
    (source : Source) (st : State) :
  children_registered st →
  ∃ st' v,
    add K H node parent data source st = Ok st'
    ∧ get (handle node) st' = Some v
    ∧ region v = match regionMap st !! handle node with
                 | Some r => Some r
                 | None => parentValue_of node parent st ≫= region
                 end
    ∧ regionMap st' = match attributes data ≫= (.!! CLARITY_REGION_ATTRIBUTE K) with
                      | Some r => <[handle node := r]> (regionMap st)
                      | None => regionMap st
                      end
    ∧ boxmodel (metadata v)
      = bool_decide (is_Some (lookupId parent st'))
        && (String.eqb (tag data) "IFRAME" && negb (config_lean H)
            || has_key (handle node) (regionMap st')).
Proof.
  intros Hwf.
  destruct (add_details node parent data source st Hwf)
    as (st' & v & Hrun & Hget & _ & Hparent & Hregion & Hmap & Hbox & _).
  exists st', v. rewrite Hparent. done.
Qed.

(** [add] of a video, audio or link element that has a parent id maps the
    resolved URL of its [href], and of a [src] that is not a data URL, to the
    node: [getMatch] finds the node by that URL. For another tag, or without
    a parent id, the URL map is left as it is. *)
Theorem add_tracks_urls (node : LiveNode) (parent : option nat) (data : NodeInfo)
    (source : Source) (st : State) :
  children_registered st →
  ∃ st',
    add K H node parent data source st = Ok st'
    ∧ lookupId parent st' = lookupId parent (assignId (handle node) st).2
    ∧ (tag data ∉ media ∨ lookupId parent st' = None → urlMap st' = urlMap st)
    ∧ (tag data ∈ media → is_Some (lookupId parent st') →
       ∀ attrs u, attributes data = Some attrs →
                  attrs !! HREF_ATTRIBUTE K = Some u
                  ∨ (attrs !! SRC_ATTRIBUTE K = Some u
                     ∧ starts_with u (DATA_PREFIX K) = false) →
                  u ≠ "" →
                  getMatch (resolveUrl H u) st' = Some (handle node)).
Proof.
  intros Hwf.
  destruct (add_details node parent data source st Hwf)
    as (st' & v & Hrun & _ & Hnode & Hparent & _ & _ & _ & Hnone & Hurls).
  exists st'. rewrite Hparent. split; [done|]. split; [done|]. split; [done|].
  intros Hmedia Hp attrs u Ha Hu Hne. unfold getMatch, getNode.
  rewrite (Hurls Hmedia Hp attrs u Ha Hu Hne). exact Hnode.
Qed.

(** *** Region labels *)

Lemma extract_loop (key : string) (len : nat) : ∀ (els : list nat) (st : State),
  NoDup els →
  (∀ k el, els !! k = Some el →
           regionMap (foldl (extractRegion key len) st els) !! el
           = Some (region_label key len
                     (default 0%nat (regionTracker st !! key) + k + 1)%nat))
  ∧ (∀ el, el ∉ els →
           regionMap (foldl (extractRegion key len) st els) !! el = regionMap st !! el)
  ∧ default 0%nat (regionTracker (foldl (extractRegion key len) st els) !! key)
    = (default 0%nat (regionTracker st !! key) + length els)%nat
  ∧ ∃ m t, foldl (extractRegion key len) st els = with_regionMap m (with_regionTracker t st).
Proof.
  induction els as [|el els IH]; intros st Hnd.
  - cbn. split_and!; [done|done|lia|]. exists (regionMap st), (regionTracker st). by destruct st.
  - apply NoDup_cons in Hnd as [Hel Hnd]. cbn [foldl].
    set (st1 := extractRegion key len st el).
    assert (default 0%nat (regionTracker st1 !! key)
            = (default 0%nat (regionTracker st !! key) + 1)%nat) as Hc1.
    { unfold st1, extractRegion. cbn. by rewrite lookup_insert_eq. }
    assert (regionMap st1 !! el
            = Some (region_label key len (default 0%nat (regionTracker st !! key) + 1)%nat))
      as Hel1.
    { unfold st1, extractRegion. cbn. by rewrite lookup_insert_eq. }
    destruct (IH st1 Hnd) as (Hlabels & Hothers & Hcount & m & t & Hshape).
    split_and!.
    + intros [|k] x Hx; cbn in Hx.
      * injection Hx as <-. rewrite Hothers, Hel1 by done. do 2 f_equal. lia.
      * rewrite (Hlabels k x Hx), Hc1. do 2 f_equal. lia.
    + intros x Hx. apply not_elem_of_cons in Hx as [Hne Hx]. rewrite Hothers by done.
      unfold st1, extractRegion. cbn. by rewrite lookup_insert_ne.
    + rewrite Hcount, Hc1. cbn. lia.
    + rewrite Hshape. unfold st1, extractRegion. eexists _, _. reflexivity.
Qed.

(** [start] empties the registry but not the region counters. The elements
    that a region selector matches are labelled with the key when there is
    one of them, and with the key, a dot and a running number when there are
    more; the number goes on from the count that the key has reached since
    the script was loaded. The document is handed to the discovery. *)
Theorem start_labels_regions (key : string) (els : list nat) (document : nat) (st : State) :
  NoDup els →
  (∀ k el, els !! k = Some el →
           regionMap (start [(key, els)] document st) !! el
           = Some (region_label key (length els)
                     (default 0%nat (regionTracker st !! key) + k + 1)%nat))
  ∧ (∀ el, el ∉ els → regionMap (start [(key, els)] document st) !! el = None)
  ∧ default 0%nat (regionTracker (start [(key, els)] document st) !! key)
    = (default 0%nat (regionTracker st !! key) + length els)%nat
  ∧ values (start [(key, els)] document st) = ∅
  ∧ idMap (start [(key, els)] document st) = ∅
  ∧ index (start [(key, els)] document st) = 1%positive
  ∧ updateMap (start [(key, els)] document st) = []
  ∧ scheduled (start [(key, els)] document st) = scheduled st ++ [document].
Proof.
  intros Hnd. unfold start, extractRegions, discoverTree. cbn [foldl fst snd].
  destruct (extract_loop key (length els) els (reset st) Hnd)
    as (Hlabels & Hothers & Hcount & m & t & Hshape).
  split_and!.
  - intros k el Hk. apply (Hlabels k el Hk).
  - intros el Hel. cbn [regionMap with_scheduled]. rewrite (Hothers el Hel). cbn.
    apply lookup_empty.
  - exact Hcount.
  - by rewrite Hshape.
  - by rewrite Hshape.
  - by rewrite Hshape.
  - by rewrite Hshape.
  - by rewrite Hshape.
Qed.

End Laws.

(** *** The checks of well-formedness are sound *)

Lemma well_formedb_sound (st : State) : well_formedb st = true → well_formed st.
Proof.
  unfold well_formedb. rewrite !andb_true_iff.
  intros ((((Hids & Hbelow) & Hkeyed) & Hparents) & Hchildren).
  unfold well_formed. split_and!.
  - intros n i Hn. unfold ids_registeredb in Hids. rewrite forallb_forall in Hids.
    specialize (Hids (n, i)). cbn in Hids. rewrite andb_true_iff in Hids.
    destruct Hids as [Hnode Hreg]; [by apply list_elem_of_In, elem_of_map_to_list|].
    split; [by apply bool_decide_eq_true in Hnode|by apply has_key_true].
  - intros i [v Hv]. unfold ids_below_indexb in Hbelow. rewrite forallb_forall in Hbelow.
    specialize (Hbelow (i, v)). cbn in Hbelow.
    eapply bool_decide_eq_true_1, Hbelow.
    by apply list_elem_of_In, elem_of_map_to_list.
  - intros i v Hv. unfold keyedb in Hkeyed. rewrite forallb_forall in Hkeyed.
    specialize (Hkeyed (i, v)). cbn in Hkeyed.
    eapply bool_decide_eq_true_1, Hkeyed.
    by apply list_elem_of_In, elem_of_map_to_list.
  - by apply parents_registeredb_sound.
  - by apply children_registeredb_sound.
Qed.


(** *** The laws on the concrete session *)

Lemma session_well_formed : well_formed (state_of session).
Proof. apply well_formedb_sound. vm_compute. reflexivity. Qed.

Lemma session_children_registered : children_registered (state_of session).
Proof. apply children_registeredb_sound. vm_compute. reflexivity. Qed.

Lemma session_queue_NoDup : NoDup (updateMap (state_of session)).
Proof. eapply bool_decide_unpack. vm_compute. exact I. Qed.

Lemma session_depth_bounded :
  depth_bounded 3 (values (state_of session)) 3%positive.
Proof. apply depth_boundedb_sound. vm_compute. reflexivity. Qed.

Lemma flushed_depth_bounded :
  depth_bounded 3 (values (state_of flushed_session)) 3%positive.
Proof. apply depth_boundedb_sound. vm_compute. reflexivity. Qed.

Lemma add_then_lookup_witness :
  ∃ st' v, add clarity_constants plain_host (live 9 []) (Some 0%nat) (info "P" []) discovery
               (state_of session) = Ok st'
           ∧ get 9%nat st' = Some v
           ∧ getNode (id v) st' = Some 9%nat
           ∧ Registry.data v = info "P" []
           ∧ id v ∈ updateMap st'.
Proof.
  pose proof (add_then_lookup clarity_constants plain_host (live 9 []) (Some 0%nat)
                (info "P" []) discovery (state_of session) session_children_registered) as H.
  destruct H as (st' & v & Hrun & _ & Hnode & _ & Hget & _ & Hdata & _ & _ & _ & _ & Hin).
  exists st', v.
  split; [exact Hrun|]. split; [exact Hget|]. split; [exact Hnode|].
  split; [exact Hdata|exact Hin].
Defined.

Lemma session_root :
  values (state_of session) !! 1%positive
  = Some {| id := 1; parent := None; next := None; children := [2; 3]%positive;
            position := None;
            data := {| tag := "HTML"; path := None; attributes := Some ∅; layout := None;
                       style := None; value := None |};
            selector := "HTML"; region := None;
            metadata := {| active := true; boxmodel := false; masked := true |} |}.
Proof. vm_compute. reflexivity. Qed.

Lemma session_next_id : (assignId 9%nat (state_of session)).1 = 7%positive.
Proof. vm_compute. reflexivity. Qed.

Lemma session_root_id :
  lookupId (Some 0%nat) (assignId 9%nat (state_of session)).2 = Some 1%positive.
Proof. vm_compute. reflexivity. Qed.

Lemma add_appends_to_parent_witness :
  ∃ st' pv', add clarity_constants plain_host (live 9 []) (Some 0%nat) (info "P" [])
                 discovery (state_of session) = Ok st'
             ∧ values st' !! 1%positive = Some pv'
             ∧ children pv' = [2; 3; 7]%positive.
Proof.
  assert (1%positive ≠ (assignId (handle (live 9 [])) (state_of session)).1) as Hne.
  { change (handle (live 9 [])) with 9%nat. rewrite session_next_id. discriminate. }
  pose proof (add_appends_to_parent clarity_constants plain_host (live 9 []) (Some 0%nat)
                (info "P" []) discovery (state_of session) 1%positive _
                session_children_registered session_root_id session_root Hne) as H.
  destruct H as (st' & Hrun & Hp & _).
  eexists st', _. split; [exact Hrun|]. split; [exact Hp|].
  cbn [children set_children]. change (handle (live 9 [])) with 9%nat.
  rewrite session_next_id. reflexivity.
Defined.

Lemma add_keeps_well_formed_witness :
  ∃ st', add clarity_constants plain_host (live 9 []) (Some 0%nat) (info "P" []) discovery
             (state_of session) = Ok st'
         ∧ well_formed st'.
Proof.
  pose proof (add_keeps_well_formed clarity_constants plain_host (live 9 []) (Some 0%nat)
                (info "P" []) discovery (state_of session) session_well_formed) as H.
  destruct H as (st' & Hrun & Hwf & _).
  exists st'. split; [exact Hrun|exact Hwf].
Defined.

Lemma track_orders_queue_witness :
  NoDup (updateMap (track plain_host 3%positive ChildListAdd true (state_of session))).
Proof.
  exact (proj1 (track_orders_queue plain_host 3%positive ChildListAdd true (state_of session)
                  session_queue_NoDup)).
Defined.

Lemma session_flush :
  ∃ out st', updates clarity_constants (state_of session) = Ok (out, st').
Proof. eexists _, _. vm_compute. reflexivity. Qed.

Lemma flush_returns_queue_in_order_witness :
  ∃ out st', updates clarity_constants (state_of session) = Ok (out, st')
             ∧ updateMap st' = []
             ∧ (∀ j, j ∉ updateMap (state_of session) →
                     values st' !! j = values (state_of session) !! j).
Proof.
  destruct session_flush as (out & st' & Hrun).
  pose proof (flush_returns_queue_in_order clarity_constants (state_of session) st' out Hrun)
    as H.
  destruct H as (_ & Hsame & Hframe).
  exists out, st'. split; [exact Hrun|]. split; [|exact Hsame].
  rewrite Hframe. reflexivity.
Defined.

Lemma remove_and_flush_keep_well_formed_witness :
  (∃ st', remove plain_host 3 3%positive discovery (state_of session) = Ok st'
          ∧ well_formed st')
  ∧ ∃ out st', updates clarity_constants (state_of session) = Ok (out, st') ∧ well_formed st'.
Proof.
  pose proof (remove_and_flush_keep_well_formed clarity_constants plain_host
                (state_of session) session_well_formed) as H.
  destruct H as [Hremove Hflush].
  split; [|exact Hflush]. exact (Hremove 3%nat 3%positive discovery session_depth_bounded).
Defined.

Lemma session_parent_registered (i : Id) :
  lookupId (Some 5%nat) (state_of session) = Some i →
  lookupId (Some 2%nat) (state_of session) = None →
  depth_bounded 8 (values (state_of session)) i.
Proof. intros _ Hnone. revert Hnone. vm_compute. discriminate. Qed.

Lemma update_keeps_well_formed_witness :
  ∃ st', update clarity_constants plain_host 8 (live 5 [3%nat; 4%nat]) (Some 2%nat)
                (info "SPAN" [("id", "a")]) ChildListAdd (state_of session) = Ok st'
         ∧ well_formed st'.
Proof.
  exact (update_keeps_well_formed clarity_constants plain_host 8 (live 5 [3%nat; 4%nat])
           (Some 2%nat) (info "SPAN" [("id", "a")]) ChildListAdd (state_of session)
           session_well_formed session_parent_registered).
Defined.

Lemma flushed_edit :
  ∃ st' value,
    update clarity_constants plain_host 8 (live 4 []) (Some 2%nat)
           (info "P" [("title", "t")]) (OtherSource 1) (state_of flushed_session) = Ok st'
    ∧ values (state_of flushed_session) !! 5%positive = Some value
    ∧ data_changed (Registry.data value) (info "P" [("title", "t")]) = true.
Proof.
  eexists _, _. split; [vm_compute; reflexivity|]. split; vm_compute; reflexivity.
Qed.

Lemma flushed_X_id : lookupId (Some 4%nat) (state_of flushed_session) = Some 5%positive.
Proof. vm_compute. reflexivity. Qed.

Lemma update_merges_data_witness :
  ∃ st' value v',
    values (state_of flushed_session) !! 5%positive = Some value
    ∧ update clarity_constants plain_host 8 (live 4 []) (Some 2%nat)
             (info "P" [("title", "t")]) (OtherSource 1) (state_of flushed_session) = Ok st'
    ∧ values st' !! 5%positive = Some v'
    ∧ Registry.data v' = merged (Registry.data value) (info "P" [("title", "t")]).
Proof.
  destruct flushed_edit as (st' & value & Hrun & Hvalue & _).
  pose proof (update_merges_data clarity_constants plain_host _ _ _ _ _ _ _ 5%positive value
                Hrun flushed_X_id Hvalue) as H.
  destruct H as (v' & Hv' & Hdata & _).
  exists st', value, v'.
  split; [exact Hvalue|]. split; [exact Hrun|]. split; [exact Hv'|exact Hdata].
Defined.

Lemma update_queues_what_changed_witness :
  ∃ st', update clarity_constants plain_host 8 (live 4 []) (Some 2%nat)
                (info "P" [("title", "t")]) (OtherSource 1) (state_of flushed_session) = Ok st'
         ∧ 5%positive ∈ updateMap st'.
Proof.
  destruct flushed_edit as (st' & value & Hrun & Hvalue & Hchanged).
  pose proof (update_queues_what_changed clarity_constants plain_host _ _ _ _ _ _ _
                5%positive value Hrun flushed_X_id Hvalue) as H.
  destruct H as [Hqueued _].
  exists st'. split; [exact Hrun|]. apply Hqueued. rewrite Hchanged. apply orb_true_r.
Defined.

Lemma session_move :
  ∃ st' value pv,
    update clarity_constants plain_host 8 (live 5 [3%nat; 4%nat]) (Some 2%nat)
           (info "SPAN" [("id", "a")]) ChildListAdd (state_of session) = Ok st'
    ∧ values (state_of session) !! 6%positive = Some value
    ∧ values (state_of session) !! 3%positive = Some pv
    ∧ Registry.parent value = Some 2%positive
    ∧ getNextId [3%nat; 4%nat] (state_of session) = Some 4%positive
    ∧ children pv = [4; 5]%positive.
Proof.
  eexists _, _, _. split; [vm_compute; reflexivity|].
  split; [vm_compute; reflexivity|]. split; [vm_compute; reflexivity|].
  split; [vm_compute; reflexivity|]. split; vm_compute; reflexivity.
Qed.

Lemma session_A_id : lookupId (Some 5%nat) (state_of session) = Some 6%positive.
Proof. vm_compute. reflexivity. Qed.

Lemma session_P2_id : lookupId (Some 2%nat) (state_of session) = Some 3%positive.
Proof. vm_compute. reflexivity. Qed.

Lemma update_moves_child_witness :
  ∃ st' pv', update clarity_constants plain_host 8 (live 5 [3%nat; 4%nat]) (Some 2%nat)
                    (info "SPAN" [("id", "a")]) ChildListAdd (state_of session) = Ok st'
             ∧ values st' !! 3%positive = Some pv'
             ∧ children pv' = [4; 5; 6]%positive.
Proof.
  destruct session_move as (st' & value & pv & Hrun & Hvalue & Hpv & Hparent & Hnext & Hc).
  assert (Registry.parent value ≠ Some 3%positive) as Hmoved
    by (rewrite Hparent; discriminate).
  assert (3%positive ≠ 6%positive) as Hne by discriminate.
  pose proof (update_moves_child clarity_constants plain_host _ _ _ _ _ _ _ 6%positive
                3%positive value pv Hrun session_A_id Hvalue session_P2_id Hmoved Hne Hpv)
    as H.
  destruct H as ((pv' & Hpv' & Hchildren) & _).
  exists st', pv'. split; [exact Hrun|]. split; [exact Hpv'|].
  rewrite Hchildren. change (nextSiblings (live 5 [3%nat; 4%nat])) with [3%nat; 4%nat].
  rewrite Hnext, Hc. reflexivity.
Defined.

Lemma remove_queues_subtree_witness :
  ∃ st', remove plain_host 3 3%positive discovery (state_of flushed_session) = Ok st'
         ∧ (∀ d, descendant (state_of flushed_session) 3%positive d → d ∈ updateMap st').
Proof.
  pose proof (remove_queues_subtree plain_host 3 3%positive discovery
                (state_of flushed_session) flushed_depth_bounded) as H.
  destruct H as (st' & Hrun & Hq & _).
  exists st'. split; [exact Hrun|exact Hq].
Defined.

Lemma session_no_region :
  regionMap (state_of session) = ∅
  ∧ parentValue_of (live 9 []) (Some 0%nat) (state_of session) ≫= region = None.
Proof. split; vm_compute; reflexivity. Qed.

Lemma add_region_and_boxmodel_witness :
  ∃ st' v, add clarity_constants plain_host (live 9 []) (Some 0%nat)
               (info "IFRAME" [("data-clarity-region", "frame")]) discovery
               (state_of session) = Ok st'
           ∧ get 9%nat st' = Some v
           ∧ regionMap st' !! 9%nat = Some "frame"
           ∧ region v = None.
Proof.
  pose proof (add_region_and_boxmodel clarity_constants plain_host (live 9 []) (Some 0%nat)
                (info "IFRAME" [("data-clarity-region", "frame")]) discovery
                (state_of session) session_children_registered) as H.
  destruct H as (st' & v & Hrun & Hget & Hregion & Hmap & _).
  destruct session_no_region as [Hempty Hparent].
  exists st', v. split; [exact Hrun|]. split; [exact Hget|]. split.
  - rewrite Hmap.
    change (attributes (info "IFRAME" [("data-clarity-region", "frame")])
            ≫= (.!! CLARITY_REGION_ATTRIBUTE clarity_constants)) with (Some "frame").
    apply lookup_insert_eq.
  - rewrite Hregion, Hempty, lookup_empty. exact Hparent.
Defined.

Lemma add_tracks_urls_witness :
  ∃ st', add clarity_constants plain_host (live 9 []) (Some 0%nat)
             (info "LINK" [("href", "a.css")]) discovery (state_of session) = Ok st'
         ∧ getMatch "a.css" st' = Some 9%nat.
Proof.
  pose proof (add_tracks_urls clarity_constants plain_host (live 9 []) (Some 0%nat)
                (info "LINK" [("href", "a.css")]) discovery (state_of session)
                session_children_registered) as H.
  destruct H as (st' & Hrun & Hparent & _ & Hurls).
  exists st'. split; [exact Hrun|].
  apply (Hurls) with (attrs := list_to_map [("href", "a.css")]).
  - unfold media. apply list_elem_of_further, list_elem_of_further, list_elem_of_here.
  - rewrite Hparent. change (handle (live 9 [])) with 9%nat. rewrite session_root_id. eauto.
  - reflexivity.
  - left. reflexivity.
  - discriminate.
Defined.

Lemma start_labels_regions_witness :
  regionMap (start [("hero", [3%nat; 4%nat])] 0%nat empty_state) !! 4%nat = Some "hero.2".
Proof.
  assert (NoDup [3%nat; 4%nat]) as Hnd.
  { apply NoDup_cons. split; [by intros ?%list_elem_of_singleton|]. apply NoDup_singleton. }
  pose proof (start_labels_regions "hero" [3%nat; 4%nat] 0%nat empty_state Hnd) as H.
  destruct H as (Hlabels & _).
  rewrite (Hlabels 1%nat 4%nat eq_refl). vm_compute. reflexivity.
Defined.

End RegistryLaws.


(** ** The reconstructor *)

Module RenderLaws.
Import Render RenderMore RenderFacts.

#[local] Arguments insert : simpl never.
#[local] Arguments element : simpl never.
#[local] Arguments createTextNode : simpl never.
#[local] Arguments createElement : simpl never.
#[local] Arguments setAttributes : simpl never.
#[local] Arguments set_textContent : simpl never.
#[local] Arguments markup_default : simpl never.

Lemma same_content_refl (h : gmap nat DomNode) : same_content h h.
Proof. by intros r. Qed.

Lemma same_content_trans (h1 h2 h3 : gmap nat DomNode) :
  same_content h1 h2 → same_content h2 h3 → same_content h1 h3.
Proof.
  intros H12 H23 r. destruct (H12 r) as (? & ? & ? & ?), (H23 r) as (? & ? & ? & ?).
  split_and!; [tauto|congruence..].
Qed.

Lemma node_at_alter (f : DomNode → DomNode) (r r' : nat) (h : gmap nat DomNode) :
  node_at (alter f r h) r'
  = if decide (r = r') then from_option (λ n, f n) (blank TextNode) (h !! r)
    else node_at h r'.
Proof.
  unfold node_at. destruct (decide (r = r')) as [<-|Hne].
  - rewrite lookup_alter_eq. by destruct (h !! r).
  - by rewrite lookup_alter_ne.
Qed.

Lemma same_content_alter (f : DomNode → DomNode) (r : nat) (h : gmap nat DomNode) :
  relinks f → same_content h (alter f r h).
Proof.
  intros Hf r'. split.
  - destruct (decide (r = r')) as [<-|Hne].
    + rewrite lookup_alter_eq. apply fmap_is_Some.
    + by rewrite lookup_alter_ne.
  - rewrite node_at_alter. destruct (decide (r = r')) as [<-|Hne]; [|done].
    unfold node_at. destruct (h !! r) as [n|]; [|done]. apply Hf.
Qed.

Lemma relinks_set_parentNode (p : option nat) : relinks (set_parentNode p).
Proof. by intros n. Qed.

Lemma relinks_set_childNodes (g : DomNode → list nat) :
  relinks (λ n, set_childNodes (g n) n).
Proof. by intros n. Qed.

Lemma detach_content (r : nat) (h : gmap nat DomNode) : same_content h (detach r h).
Proof.
  unfold detach. destruct (parentNode (node_at h r)) as [p|]; [|apply same_content_refl].
  eapply same_content_trans; [apply same_content_alter|apply same_content_alter].
  - apply (relinks_set_childNodes (λ n, filter (λ c, c ≠ r) (childNodes n))).
  - apply relinks_set_parentNode.
Qed.

Lemma insertBefore_content (p node : nat) (next : option nat) (h h' : gmap nat DomNode) :
  insertBefore p node next h = Ok h' → same_content h h'.
Proof.
  unfold insertBefore. cbv zeta.
  repeat (match goal with |- context [if ?c then Throw _ else _] => destruct c end;
          [discriminate|]).
  intros [= <-].
  eapply same_content_trans; [apply detach_content|].
  eapply same_content_trans; [apply same_content_alter|apply same_content_alter].
  - apply (relinks_set_childNodes (λ _, _)).
  - apply relinks_set_parentNode.
Qed.

(** [insert] changes links only, and registers the node. *)
Lemma insert_content (data : IDecodedNode) (parent : option nat) (node : nat)
    (next : option nat) (st : State) :
  ∃ st', insert data parent node next st = Ok st'
         ∧ nodes st' = <[id data := node]> (nodes st)
         ∧ fresh st' = fresh st
         ∧ same_content (heap st) (heap st').
Proof.
  unfold insert. destruct parent as [p|].
  - destruct (insertBefore p node (live_next (heap st) p next) (heap st)) as [h|ex] eqn:Hins;
      cbn; eexists; (split; [reflexivity|]); cbn; split_and!; try done;
      first [by eapply insertBefore_content | apply same_content_refl].
  - destruct (parentElement (heap st) node); cbn; eexists; (split; [reflexivity|]);
      cbn; split_and!; try done;
      first [apply detach_content | apply same_content_refl].
Qed.

Lemma is_element_present (h : gmap nat DomNode) (r : nat) :
  is_element (node_at h r) = true → ∃ n, h !! r = Some n ∧ is_element n = true.
Proof. unfold node_at. destruct (h !! r) as [n|]; [eauto|discriminate]. Qed.

Lemma node_at_present (h : gmap nat DomNode) (r : nat) (n : DomNode) :
  h !! r = Some n → node_at h r = n.
Proof. intros Hn. unfold node_at. by rewrite Hn. Qed.

Lemma alter_present (f : DomNode → DomNode) (r : nat) (n : DomNode) (h : gmap nat DomNode) :
  h !! r = Some n → alter f r h = <[r := f n]> h.
Proof.
  intros Hn. apply map_eq. intros j. destruct (decide (r = j)) as [<-|Hne].
  - by rewrite lookup_alter_eq, lookup_insert_eq, Hn.
  - by rewrite lookup_alter_ne, lookup_insert_ne.
Qed.

(** *** Maps written key by key under other names *)

Lemma renamed_other (f : string → string) (l : list (string * string)) :
  ∀ (m : gmap string string) (k' : string),
    k' ∉ f <$> l.*1 →
    foldl (λ m kv, <[f kv.1 := kv.2]> m) m l !! k' = m !! k'.
Proof.
  induction l as [|[k v] l IH]; intros m k' Hk'; [done|]. cbn in *.
  apply not_elem_of_cons in Hk' as [Hne Hk']. rewrite IH by done.
  by rewrite lookup_insert_ne.
Qed.

Lemma renamed_lookup (f : string → string) (l : list (string * string)) :
  ∀ (m : gmap string string) (k v : string),
    NoDup (f <$> l.*1) → (k, v) ∈ l →
    foldl (λ m kv, <[f kv.1 := kv.2]> m) m l !! f k = Some v.
Proof.
  induction l as [|[k0 v0] l IH]; intros m k v Hnd Hin; [by apply elem_of_nil in Hin|].
  cbn in *. apply NoDup_cons in Hnd as [Hk0 Hnd].
  apply elem_of_cons in Hin as [[= -> ->]|Hin].
  - rewrite renamed_other by done. apply lookup_insert_eq.
  - by apply IH.
Qed.

Lemma renamed_from (f : string → string) (l : list (string * string)) :
  ∀ (m : gmap string string) (k' : string),
    is_Some (foldl (λ m kv, <[f kv.1 := kv.2]> m) m l !! k') →
    is_Some (m !! k') ∨ ∃ k v, (k, v) ∈ l ∧ k' = f k.
Proof.
  induction l as [|[k v] l IH]; intros m k' Hk'; [by left|]. cbn in *.
  destruct (IH _ _ Hk') as [Hm|(k1 & v1 & Hin & ->)].
  - destruct (decide (f k = k')) as [<-|Hne].
    + right. exists k, v. split; [apply list_elem_of_here|done].
    + rewrite lookup_insert_ne in Hm by done. by left.
  - right. exists k1, v1. split; [by apply list_elem_of_further|done].
Qed.

Lemma distinct_names_NoDup (n : DomNode) (a : gmap string string) :
  distinct_names n a → NoDup (attribute_name n <$> (map_to_list a).*1).
Proof.
  intros Hdistinct. apply NoDup_fmap_2_strong; [|apply NoDup_fst_map_to_list].
  intros k1 k2 Hk1 Hk2. apply Hdistinct.
  - apply list_elem_of_fmap in Hk1 as ([k v] & -> & Hin).
    apply elem_of_map_to_list in Hin. by eexists.
  - apply list_elem_of_fmap in Hk2 as ([k v] & -> & Hin).
    apply elem_of_map_to_list in Hin. by eexists.
Qed.

(** A check of [distinct_names]. *)
Lemma distinct_names_check (n : DomNode) (a : gmap string string) :
  bool_decide (NoDup (attribute_name n <$> (map_to_list a).*1)) = true →
  distinct_names n a.
Proof.
  intros Hnd%bool_decide_eq_true k1 k2 [v1 H1] [v2 H2] Heq.
  apply elem_of_map_to_list in H1, H2.
  apply list_elem_of_lookup in H1 as [i1 H1]. apply list_elem_of_lookup in H2 as [i2 H2].
  assert (i1 = i2) as ->.
  { eapply NoDup_lookup; [exact Hnd| |].
    - rewrite !list_lookup_fmap, H1. reflexivity.
    - rewrite !list_lookup_fmap, H2. cbn. by rewrite Heq. }
  congruence.
Qed.

(** The second loop of [setAttributes] on an element, with names that the
    calls accept. *)
Lemma applyAttributes_run (node : nat) (a0 : gmap string string) (st : State)
    (n : DomNode) (l : list (string * string)) :
  is_element n = true →
  Forall (λ kv, settable kv.1 = true) l →
  ∀ m : gmap string string,
    foldl (applyAttribute node a0) (with_heap (<[node := set_attrs m n]> (heap st)) st) l
    = with_heap
        (<[node := set_attrs (foldl (λ m kv, <[attribute_name n kv.1 := kv.2]> m) m l) n]>
           (heap st)) st.
Proof.
  intros Hel. induction l as [|[k v] l IH]; intros Hvalid m; [done|].
  apply Forall_cons in Hvalid as [Hk Hvalid]. cbn in Hk. cbn [foldl].
  rewrite <- (IH Hvalid). f_equal.
  unfold applyAttribute, setAttributeNS, setAttribute, settable, attribute_name in *.
  cbn [heap with_heap fst snd].
  rewrite (node_at_present _ _ (set_attrs m n)) by apply lookup_insert_eq.
  assert (is_element (set_attrs m n) = true) as -> by exact Hel.
  assert (is_html (set_attrs m n) = is_html n) as -> by reflexivity.
  cbn [negb]. rewrite !alter_insert_eq.
  destruct (starts_with k "xlink:").
  - destruct (validate xlinkns k) as [[]|ex]; [|discriminate].
    cbn [mbind result_bind]. rewrite andb_false_r. reflexivity.
  - rewrite Hk. cbn [negb]. rewrite andb_true_r. reflexivity.
Qed.

Lemma setAttributes_run (node : nat) (attributes : option (gmap string string))
    (st : State) (n : DomNode) :
  heap st !! node = Some n →
  is_element n = true →
  (∀ k, is_Some (default ∅ attributes !! k) → settable k = true) →
  setAttributes node attributes st
  = with_heap
      (<[node := set_attrs (foldl (λ m kv, <[attribute_name n kv.1 := kv.2]> m) ∅
                              (map_to_list (default ∅ attributes))) n]> (heap st)) st.
Proof.
  intros Hn Hel Hvalid. unfold setAttributes.
  rewrite (node_at_present _ _ _ Hn), Hel, (alter_present _ _ _ _ Hn).
  destruct attributes as [a|]; cbn [default] in *.
  - apply applyAttributes_run; [done|].
    apply Forall_forall. intros [k v] Hin%elem_of_map_to_list. apply Hvalid. by eexists.
  - by rewrite map_to_list_empty.
Qed.

(** What [setAttributes] leaves on an element: the attributes of the map,
    each under the name it is stored with, and no other. *)
Lemma setAttributes_stored (node : nat) (attributes : option (gmap string string))
    (st : State) (n : DomNode) :
  heap st !! node = Some n →
  is_element n = true →
  (∀ k, is_Some (default ∅ attributes !! k) → settable k = true) →
  distinct_names n (default ∅ attributes) →
  ∃ stored,
    setAttributes node attributes st
    = with_heap (<[node := set_attrs stored n]> (heap st)) st
    ∧ (∀ k v, default ∅ attributes !! k = Some v → stored !! attribute_name n k = Some v)
    ∧ (∀ k', is_Some (stored !! k') →
             ∃ k, is_Some (default ∅ attributes !! k) ∧ k' = attribute_name n k).
Proof.
  intros Hn Hel Hvalid Hdistinct. eexists. split; [by apply setAttributes_run|]. split.
  - intros k v Hk. apply renamed_lookup; [by apply distinct_names_NoDup|].
    by apply elem_of_map_to_list.
  - intros k' Hk'. apply renamed_from in Hk' as [Hm|(k & v & Hin & ->)].
    + rewrite lookup_empty in Hm. by destruct Hm.
    + apply elem_of_map_to_list in Hin. exists k. split; [by eexists|done].
Qed.

(** [setAttributes] on an element replaces its attributes by those of the
    map (by none for no map): each is stored under its name, in lower case
    on an element of the HTML namespace unless the name starts with
    [xlink:], and nothing else is stored. It logs nothing and leaves
    everything else of the document as it was. The names are ones the calls
    accept, no two of them are stored under the same name, and the
    attributes the element has can be removed by name. *)
Theorem setAttributes_replaces (node : nat) (attributes : option (gmap string string))
    (st : State) (n : DomNode) :
  heap st !! node = Some n →
  is_element n = true →
  removable n →
  (∀ k, is_Some (default ∅ attributes !! k) → settable k = true) →
  distinct_names n (default ∅ attributes) →
  ∃ stored,
    setAttributes node attributes st
    = with_heap (<[node := set_attrs stored n]> (heap st)) st
    ∧ (∀ k v, default ∅ attributes !! k = Some v → stored !! attribute_name n k = Some v)
    ∧ (∀ k', is_Some (stored !! k') →
             ∃ k, is_Some (default ∅ attributes !! k) ∧ k' = attribute_name n k).
Proof. intros Hn Hel _. by apply setAttributes_stored. Qed.

Lemma head_of_blank_document :
  heap blank_document !! 2%nat
  = Some (set_parentNode (Some 1%nat) (blank (ElementNode None "head"))).
Proof. vm_compute. reflexivity. Qed.

Lemma setAttributes_replaces_witness :
  ∃ stored,
    attrs (node_at (heap (setAttributes 2%nat (Some {["Lang" := "en"]}) blank_document)) 2%nat)
    = stored
    ∧ stored !! "lang" = Some "en"
    ∧ stored !! "Lang" = None.
Proof.
  pose proof (setAttributes_replaces 2%nat (Some {["Lang" := "en"]}) blank_document _
                head_of_blank_document eq_refl) as H.
  destruct H as (stored & Hrun & Hin & Hout).
  - intros _ k [v Hk]. cbn in Hk. by rewrite lookup_empty in Hk.
  - intros k [v Hk]. cbn in Hk. apply lookup_singleton_Some in Hk as [<- _]. reflexivity.
  - apply distinct_names_check. vm_compute. reflexivity.
  - exists stored. split; [|split].
    + rewrite Hrun. cbn [heap with_heap].
      by rewrite (node_at_present _ _ _ (lookup_insert_eq _ _ _)).
    + apply (Hin "Lang" "en"). apply lookup_singleton_eq.
    + destruct (stored !! "Lang") as [v|] eqn:Hv; [|reflexivity].
      destruct (Hout "Lang" (mk_is_Some _ _ Hv)) as (k & [w Hk] & Heq).
      cbn in Hk. apply lookup_singleton_Some in Hk as [<- _]. discriminate Heq.
Defined.

Lemma insert_data_id_settable (i : Z) (a : gmap string string) :
  (∀ k, is_Some (a !! k) → settable k = true) →
  ∀ k, is_Some (<["data-id" := pretty i]> a !! k) → settable k = true.
Proof.
  intros Hvalid k Hk. destruct (decide (k = "data-id")) as [->|Hne]; [reflexivity|].
  rewrite lookup_insert_ne in Hk by done. by apply Hvalid.
Qed.

(** The default branch on a node that is an element. *)
Lemma markup_default_stamps (node : IDecodedNode) (parent next : option nat)
    (e : nat) (n : DomNode) (st : State) :
  heap st !! e = Some n →
  is_element n = true →
  (∀ k, is_Some (default ∅ (attributes node) !! k) → settable k = true) →
  distinct_names n (<["data-id" := pretty (id node)]> (default ∅ (attributes node))) →
  ∃ st',
    insert (set_attributes (Some (<["data-id" := pretty (id node)]>
                                     (default ∅ (attributes node)))) node)
           parent e next
           (setAttributes e (Some (<["data-id" := pretty (id node)]>
                                      (default ∅ (attributes node)))) st) = Ok st'
    ∧ getNode (id node) st' = Some e
    ∧ kind (node_at (heap st') e) = kind n
    ∧ (∀ k v, <["data-id" := pretty (id node)]> (default ∅ (attributes node)) !! k = Some v →
              attrs (node_at (heap st') e) !! attribute_name n k = Some v)
    ∧ (∀ k', is_Some (attrs (node_at (heap st') e) !! k') →
             ∃ k, is_Some (<["data-id" := pretty (id node)]>
                             (default ∅ (attributes node)) !! k)
                  ∧ k' = attribute_name n k).
Proof.
  intros Hn Hel Hvalid Hdistinct.
  destruct (setAttributes_stored e (Some (<["data-id" := pretty (id node)]>
                                            (default ∅ (attributes node)))) st n Hn Hel
              (insert_data_id_settable _ _ Hvalid) Hdistinct)
    as (stored & -> & Hin & Hout).
  match goal with
  | |- ∃ st', insert ?d ?p ?x ?y ?s = _ ∧ _ =>
      destruct (insert_content d p x y s) as (st' & Hrun & Hnodes & _ & Hsame)
  end.
  exists st'. split; [exact Hrun|]. destruct (Hsame e) as (_ & Hkind & Hattrs & _).
  cbn [heap with_heap] in Hkind, Hattrs.
  rewrite (node_at_present _ _ _ (lookup_insert_eq _ _ _)) in Hkind, Hattrs.
  cbn in Hkind, Hattrs. rewrite Hattrs, Hkind. split_and!; try done.
  unfold getNode. rewrite Hnodes. cbn. apply lookup_insert_eq.
Qed.

(** A record of an ordinary tag leaves its element, the one registered for
    its id or a new one of its tag, registered under the id, with the
    attributes of the record and the attribute [data-id], which holds the id
    of the record: each under the name it is stored with, in lower case on
    an element of the HTML namespace unless the name starts with [xlink:],
    and no other attribute. *)
Theorem ordinary_record_gets_data_id (hasXMLSerializer : bool) (node : IDecodedNode)
    (st : State) :
  let a := <["data-id" := pretty (id node)]> (default ∅ (attributes node)) in
  let n := target node st in
  tag node ∉ markers →
  (∀ e, element (Some (id node)) st = Some e → is_element (node_at (heap st) e) = true) →
  (element (Some (id node)) st = None → creatable (tag node) = true) →
  removable n →
  (∀ k, is_Some (default ∅ (attributes node) !! k) → settable k = true) →
  distinct_names n a →
  ∃ e st',
    markup_one hasXMLSerializer node st = Ok st'
    ∧ getNode (id node) st' = Some e
    ∧ kind (node_at (heap st') e) = kind n
    ∧ (∀ k v, a !! k = Some v →
              attrs (node_at (heap st') e) !! attribute_name n k = Some v)
    ∧ (∀ k', is_Some (attrs (node_at (heap st') e) !! k') →
             ∃ k, is_Some (a !! k) ∧ k' = attribute_name n k)
    ∧ match element (Some (id node)) st with
      | Some e0 => e = e0
      | None => e = fresh st
      end.
Proof.
  cbv zeta. intros Hnot Hreg Hnew _ Hvalid Hdistinct. unfold markers in Hnot.
  unfold markup_one. rewrite !(not_marker _ _ _ Hnot) by (repeat constructor).
  unfold markup_default, target in *.
  destruct (element (Some (id node)) st) as [e|] eqn:He.
  - cbn [mbind result_bind].
    destruct (is_element_present _ _ (Hreg e eq_refl)) as (n & Hn & Hel).
    rewrite (node_at_present _ _ _ Hn) in *.
    destruct (markup_default_stamps node (element (parent node) st) (element (next node) st)
                e n st Hn Hel Hvalid Hdistinct) as (st' & Hrun & Hget & Hkind & Hin & Hout).
    exists e, st'. done.
  - specialize (Hnew eq_refl).
    assert (createElement (tag node) st
            = Ok (alloc (blank (ElementNode (namespace_of (tag node)) (tag node))) st))
      as ->.
    { unfold creatable, createElement, namespace_of, dom_createElementNS, dom_createElement
        in *.
      destruct (negb (String.eqb (tag node) "") && starts_with (tag node) "s:").
      - by destruct (validate svgns (tag node)) as [[]|ex].
      - by rewrite Hnew. }
    cbn [mbind result_bind alloc].
    match goal with
    | |- context [setAttributes _ _ ?s] => set (st1 := s)
    end.
    destruct (markup_default_stamps node (element (parent node) st) (element (next node) st)
                (fresh st) (blank (ElementNode (namespace_of (tag node)) (tag node))) st1)
      as (st' & Hrun & Hget & Hkind & Hin & Hout);
      [apply lookup_insert_eq|reflexivity|exact Hvalid|exact Hdistinct|].
    exists (fresh st), st'. done.
Qed.

Lemma box_record_stored_names :
  distinct_names (target box_record with_text)
    (<["data-id" := pretty (id box_record)]> (default ∅ (attributes box_record))).
Proof. apply distinct_names_check. vm_compute. reflexivity. Qed.

Lemma box_record_is_new : element (Some (id box_record)) with_text = None.
Proof. vm_compute. reflexivity. Qed.

Lemma ordinary_record_gets_data_id_witness :
  ∃ e st', markup_one true box_record with_text = Ok st'
           ∧ getNode 8 st' = Some e
           ∧ attrs (node_at (heap st') e) !! "data-id" = Some "8"
           ∧ attrs (node_at (heap st') e) !! "viewbox" = Some "0 0 1 1".
Proof.
  pose proof (ordinary_record_gets_data_id true box_record with_text) as H.
  cbv zeta in H. destruct H as (e & st' & Hrun & Hget & _ & Hin & _).
  - change (tag box_record) with "DIV". unfold markers.
    intros Hin. repeat (apply elem_of_cons in Hin as [Heq|Hin]; [discriminate Heq|]).
    by apply elem_of_nil in Hin.
  - intros e. rewrite box_record_is_new. discriminate.
  - intros _. reflexivity.
  - unfold target. rewrite box_record_is_new. intros _ k [v Hk]. cbn in Hk.
    by rewrite lookup_empty in Hk.
  - intros k [v Hk]. cbn in Hk. rewrite insert_empty in Hk.
    apply lookup_singleton_Some in Hk as [<- _]. reflexivity.
  - exact box_record_stored_names.
  - exists e, st'. split; [exact Hrun|]. split; [exact Hget|]. split.
    + apply (Hin "data-id" "8"). vm_compute. reflexivity.
    + apply (Hin "viewBox" "0 0 1 1"). vm_compute. reflexivity.
Defined.

(** [insert] with no parent takes the node out of the element it is a child
    of, and leaves a node alone that has no parent or whose parent is not an
    element (the document); it logs nothing and registers the node. *)
Theorem insert_without_parent (data : IDecodedNode) (node : nat) (next : option nat)
    (st : State) :
  ∃ st',
    insert data None node next st = Ok st'
    ∧ nodes st' = <[id data := node]> (nodes st)
    ∧ console st' = console st
    ∧ parentElement (heap st') node = None
    ∧ match parentElement (heap st) node with
      | Some p =>
          parentNode (node_at (heap st') node) = None
          ∧ childNodes (node_at (heap st') p)
            = filter (λ c, c ≠ node) (childNodes (node_at (heap st) p))
      | None => heap st' = heap st
      end.
Proof.
  unfold insert. destruct (parentElement (heap st) node) as [p|] eqn:Hp;
    cbn [mbind result_bind]; eexists; (split; [reflexivity|]); cbn [nodes heap console with_nodes with_heap];
    (split; [reflexivity|]); (split; [reflexivity|]); [|by rewrite Hp].
  unfold parentElement in Hp.
  destruct (parentNode (node_at (heap st) node)) as [p'|] eqn:Hparent; [|discriminate].
  destruct (is_element (node_at (heap st) p')) eqn:Hel; [|discriminate].
  injection Hp as ->.
  destruct (is_element_present _ _ Hel) as (pn & Hpn & _).
  assert (∃ n, heap st !! node = Some n) as [n Hn].
  { unfold node_at in Hparent. destruct (heap st !! node); [eauto|discriminate]. }
  unfold removeChild, detach. rewrite Hparent.
  assert (parentNode (node_at (alter (set_parentNode None) node
            (alter (λ n0, set_childNodes (filter (λ c, c ≠ node) (childNodes n0)) n0) p
               (heap st))) node) = None) as Hnone.
  { rewrite node_at_alter, decide_True by done.
    destruct (decide (p = node)) as [->|Hne].
    - rewrite lookup_alter_eq, Hn. done.
    - rewrite lookup_alter_ne, Hn by done. done. }
  split; [by unfold parentElement; rewrite Hnone|]. split; [exact Hnone|].
  rewrite node_at_alter. destruct (decide (node = p)) as [->|Hne].
  - rewrite lookup_alter_eq, Hpn. cbn. unfold node_at. by rewrite Hpn.
  - rewrite node_at_alter, decide_True, Hpn by done. cbn. unfold node_at. by rewrite Hpn.
Qed.

(** The next sibling [insert] passes on is a child of the parent, so
    [insertBefore] never fails for a missing reference node; a next sibling
    that is not a child of the parent is dropped, and the node is appended. *)
Theorem stale_next_sibling_appends :
  (∀ (h : gmap nat DomNode) (p node : nat) (next : option nat),
     insertBefore p node (live_next h p next) h ≠ Throw NotFoundError)
  ∧ (∀ (data : IDecodedNode) (p node c : nat) (st : State),
       parentElement (heap st) c ≠ Some p →
       insert data (Some p) node (Some c) st = insert data (Some p) node None st).
Proof.
  split.
  - intros h p node next. unfold insertBefore. cbv zeta.
    destruct (negb _); [discriminate|].
    destruct (inclusive_ancestor _ _ _ _); [discriminate|].
    destruct (live_next h p next) as [c|] eqn:Hnext.
    + unfold live_next in Hnext. destruct next as [c'|]; [|discriminate].
      destruct (decide (parentElement h c' ≠ Some p)) as [|Heq%dec_stable]; [discriminate|].
      injection Hnext as ->. unfold parentElement in Heq.
      destruct (parentNode (node_at h c)) as [q|]; [|discriminate].
      destruct (is_element (node_at h q)); [|discriminate]. injection Heq as ->.
      rewrite bool_decide_eq_true_2 by done. cbn [negb].
      match goal with |- context [if ?c then Throw _ else _] => destruct c end; discriminate.
    + match goal with |- context [if ?c then Throw _ else _] => destruct c end; discriminate.
  - intros data p node c st Hstale. unfold insert, live_next.
    by rewrite decide_True.
Qed.

Lemma stale_next_sibling_appends_witness :
  insert span_record (Some 2%nat) 9%nat (Some 4%nat) with_text
  = insert span_record (Some 2%nat) 9%nat None with_text.
Proof.
  apply (proj2 stale_next_sibling_appends span_record 2%nat 9%nat 4%nat with_text).
  vm_compute. discriminate.
Defined.

(** A record whose tag is no marker and no name (the empty tag, say), and
    whose id is not registered, ends the replay: [createElement] throws,
    nothing catches it, and the records after it are not processed. *)
Theorem invalid_tag_aborts_replay (hasXMLSerializer : bool) (node : IDecodedNode)
    (rest : list IDecodedNode) (st : State) :
  tag node ∉ ["*D"; "*T"] →
  is_ascii (tag node) →
  valid_name (tag node) = false →
  element (Some (id node)) st = None →
  markup hasXMLSerializer (node :: rest) st = Throw InvalidCharacterError.
Proof.
  intros Hnot _ Hname Hnew. unfold markup. cbn [for_each]. unfold markup_one.
  rewrite !(not_marker _ _ _ Hnot) by (repeat constructor).
  assert (∀ t, valid_name t = true → String.eqb (tag node) t = false) as Hne.
  { intros t Ht. apply String.eqb_neq. intros Heq. congruence. }
  rewrite !Hne by reflexivity.
  unfold markup_default. rewrite Hnew.
  unfold createElement, dom_createElementNS, dom_createElement, validate, valid_qname.
  rewrite Hname. by destruct (_ && _).
Qed.

Lemma invalid_tag_aborts_replay_witness :
  markup true [nameless_record; text_record] with_text = Throw InvalidCharacterError.
Proof.
  apply (invalid_tag_aborts_replay true nameless_record [text_record] with_text).
  - change (tag nameless_record) with "".
    intros Hin. repeat (apply elem_of_cons in Hin as [Heq|Hin]; [discriminate Heq|]).
    by apply elem_of_nil in Hin.
  - constructor.
  - reflexivity.
  - vm_compute. reflexivity.
Defined.

(** A text record leaves its node with the value of the record as character
    data: a new text node when the id is not registered, the registered node
    when it is a text node. A registered node of another kind keeps its
    character data. *)
Theorem text_record_sets_value (hasXMLSerializer : bool) (node : IDecodedNode) (st : State) :
  tag node = "*T" →
  ∃ e st',
    markup_one hasXMLSerializer node st = Ok st'
    ∧ getNode (id node) st' = Some e
    ∧ match element (Some (id node)) st with
      | Some e0 =>
          e = e0
          ∧ ∀ n, heap st !! e0 = Some n →
                 kind (node_at (heap st') e) = kind n
                 ∧ text (node_at (heap st') e)
                   = if decide (kind n = TextNode) then default "" (value node) else text n
      | None =>
          e = fresh st
          ∧ kind (node_at (heap st') e) = TextNode
          ∧ text (node_at (heap st') e) = default "" (value node)
      end.
Proof.
  intros Htag. unfold markup_one. rewrite Htag. cbn [String.eqb Ascii.eqb Bool.eqb].
  destruct (element (Some (id node)) st) as [e|] eqn:He.
  - match goal with
    | |- ∃ e st', insert ?d ?p ?n ?x ?s = _ ∧ _ =>
        destruct (insert_content d p n x s) as (st' & Hrun & Hnodes & _ & Hsame)
    end.
    exists e, st'. split; [exact Hrun|]. split.
    { unfold getNode. rewrite Hnodes. apply lookup_insert_eq. }
    split; [done|]. intros n Hn. destruct (Hsame e) as (_ & -> & _ & ->).
    cbn [heap with_heap].
    assert (node_at (set_nodeValue e (value node) (heap st)) e
            = if decide (kind n = TextNode) then set_text (default "" (value node)) n else n)
      as ->.
    { assert (node_at (heap st) e = n) as Hat by (unfold node_at; by rewrite Hn).
      unfold set_nodeValue. rewrite Hat.
      destruct (decide (kind n = TextNode)) as [Hk|Hk].
      - rewrite Hk, node_at_alter, decide_True, Hn by done. done.
      - destruct (kind n); done. }
    by destruct (decide (kind n = TextNode)).
  - unfold createTextNode, alloc.
    match goal with
    | |- ∃ e st', insert ?d ?p ?n ?x ?s = _ ∧ _ =>
        destruct (insert_content d p n x s) as (st' & Hrun & Hnodes & _ & Hsame)
    end.
    exists (fresh st), st'. split; [exact Hrun|]. split.
    { unfold getNode. rewrite Hnodes. apply lookup_insert_eq. }
    split; [done|]. destruct (Hsame (fresh st)) as (_ & -> & _ & ->).
    cbn [heap with_heap].
    assert (node_at (set_nodeValue (fresh st) (value node)
                       (<[fresh st := set_text "null" (blank TextNode)]> (heap st))) (fresh st)
            = set_text (default "" (value node)) (blank TextNode)) as ->.
    { assert (node_at (<[fresh st := set_text "null" (blank TextNode)]> (heap st)) (fresh st)
              = set_text "null" (blank TextNode)) as Hat
        by (unfold node_at; by rewrite lookup_insert_eq).
      unfold set_nodeValue. rewrite Hat. cbn [kind set_text blank].
      rewrite node_at_alter, decide_True, lookup_insert_eq by done. done. }
    done.
Qed.

Lemma text_record_sets_value_witness :
  ∃ e st', markup_one true text_record with_text = Ok st'
           ∧ getNode 9 st' = Some e
           ∧ text (node_at (heap st') e) = "b".
Proof.
  pose proof (text_record_sets_value true text_record with_text eq_refl) as H.
  destruct H as (e & st' & Hrun & Hget & Hcase).
  exists e, st'. split; [exact Hrun|]. split; [exact Hget|].
  change (element (Some (id text_record)) with_text) with (@None nat) in Hcase.
  exact (proj2 (proj2 Hcase)).
Defined.

(** [insert] registers the node under the id of the record whether the
    insertion fails or not: [getNode] finds it, [element] finds it when the
    id is positive, and the nodes of other ids stay. It changes no kind, no
    attribute and no character data of the document. *)
Theorem insert_then_lookup (data : IDecodedNode) (parent : option nat) (node : nat)
    (next : option nat) (st : State) :
  ∃ st',
    insert data parent node next st = Ok st'
    ∧ getNode (id data) st' = Some node
    ∧ element (Some (id data)) st' = (if 0 <? id data then Some node else None)
    ∧ (∀ i, i ≠ id data → getNode i st' = getNode i st)
    ∧ same_content (heap st) (heap st').
Proof.
  destruct (insert_content data parent node next st) as (st' & Hrun & Hnodes & _ & Hsame).
  exists st'. split; [exact Hrun|]. unfold getNode, element. rewrite Hnodes.
  split; [apply lookup_insert_eq|]. split; [by rewrite lookup_insert_eq|].
  split; [|exact Hsame]. intros i Hi. by rewrite lookup_insert_ne.
Qed.

End RenderLaws.
